(** * AutoGen documentation search: a shallow embedding of the resolution engine

    The development follows the TypeScript module that exports
    [searchAutoGenDocs]: the string primitives it relies on, the search-index
    lookup [performIndexSearch], the rendered search page scan, the crawler
    [fallbackSearch] and the orchestration with its try/catch structure.

    Conventions.
    - A JavaScript string is a [string]; each character stands for one code
      unit (values 0..255 are representable, read as Latin-1).
    - [limit] is a JavaScript number; the model keeps the integral ones ([Z]),
      negative ones included.  Statements about the limit are written with
      the tests of the source ([results.length < limit], [slice(0, limit)])
      and not with a count that only an integral limit gives.
    - A query is such a string, so it holds no lone surrogate:
      [encodeURIComponent], which raises on one, returns on every query of
      the model.
    - The network, [JSON.parse] and the HTML query library are external: they
      are fields of a [World]. *)

From Stdlib Require Import String Ascii List ZArith Lia Bool Arith DecimalString.
From Stdlib Require Import Permutation Sorted.
Import ListNotations.

Local Set Warnings "-register-all".
Local Open Scope string_scope.
Local Open Scope list_scope.
Local Open Scope nat_scope.

Infix "+++" := String.append (right associativity, at level 60).

(** ** String primitives of the host language *)

Module JS.

(** [\s] of a regular expression, and the characters [trim] removes. *)
Definition is_ws (c : ascii) : bool :=
  let n := nat_of_ascii c in
  ((9 <=? n) && (n <=? 13)) || (n =? 32) || (n =? 160).

(** Line terminators: [.] does not match them and [$] (flag m) stops there. *)
Definition is_line_end (c : ascii) : bool :=
  let n := nat_of_ascii c in (n =? 10) || (n =? 13).

Definition lower_char (c : ascii) : ascii :=
  let n := nat_of_ascii c in
  if ((65 <=? n) && (n <=? 90))
     || ((192 <=? n) && (n <=? 222) && negb (n =? 215))
  then ascii_of_nat (n + 32) else c.

Fixpoint toLowerCase (s : string) : string :=
  match s with
  | EmptyString => EmptyString
  | String c r => String (lower_char c) (toLowerCase r)
  end.

Definition startsWith (s p : string) : bool := String.prefix p s.

(** [s.includes(t)]: [t] occurs in [s] as a contiguous substring. *)
Fixpoint includes (s t : string) : bool :=
  match s with
  | EmptyString => String.prefix t EmptyString
  | String _ r => String.prefix t s || includes r t
  end.

(** [s.substring(0, n)] for [n >= 0]. *)
Fixpoint substring0 (n : nat) (s : string) : string :=
  match n, s with
  | S k, String c r => String c (substring0 k r)
  | _, _ => EmptyString
  end.

Fixpoint drop_ws (l : list ascii) : list ascii :=
  match l with
  | c :: r => if is_ws c then drop_ws r else l
  | [] => []
  end.

Definition trim (s : string) : string :=
  string_of_list_ascii
    (rev (drop_ws (rev (drop_ws (list_ascii_of_string s))))).

(** [s.replace(/\s+/g, ' ')]. *)
Fixpoint collapse_ws (s : string) : string :=
  match s with
  | EmptyString => EmptyString
  | String c r =>
      if is_ws c then
        match r with
        | String c' _ => if is_ws c' then collapse_ws r
                         else String " " (collapse_ws r)
        | EmptyString => String " " EmptyString
        end
      else String c (collapse_ws r)
  end.

(** [s.split(/\s+/)]: the pieces between maximal runs of white space, empty
    first and last pieces included. *)
Fixpoint split_ws (s : string) : list string :=
  match s with
  | EmptyString => [EmptyString]
  | String c r =>
      if is_ws c then
        match r with
        | String c' _ => if is_ws c' then split_ws r
                         else EmptyString :: split_ws r
        | EmptyString => EmptyString :: split_ws r
        end
      else
        match split_ws r with
        | p :: ps => String c p :: ps
        | [] => [String c EmptyString]
        end
  end.

Definition nonempty (s : string) : bool := 0 <? String.length s.

(** Truthiness of a string value. *)
Definition truthy (s : string) : bool := nonempty s.

(** [a || b] on strings. *)
Definition or_else (a b : string) : string := if truthy a then a else b.

(** The text before the first [)], when there is one. *)
Fixpoint until_close (s : string) : option string :=
  match s with
  | EmptyString => None
  | String c r =>
      if Ascii.eqb c ")" then Some EmptyString
      else option_map (String c) (until_close r)
  end.

(** Group 1 of [s.match(/\(([^)]+)\)/)]: leftmost [(] that is followed by at
    least one character other than [)] and then by [)]. *)
Fixpoint match_paren (s : string) : option string :=
  match s with
  | EmptyString => None
  | String c r =>
      if Ascii.eqb c "(" then
        match until_close r with
        | Some (String a g) => Some (String a g)
        | _ => match_paren r
        end
      else match_paren r
  end.

Definition hex_digit (n : nat) : ascii :=
  if n <? 10 then ascii_of_nat (48 + n) else ascii_of_nat (55 + n).

Definition percent (n : nat) : string :=
  String "%" (String (hex_digit (n / 16)) (String (hex_digit (n mod 16)) EmptyString)).

Definition uri_unreserved (c : ascii) : bool :=
  let n := nat_of_ascii c in
  ((65 <=? n) && (n <=? 90)) || ((97 <=? n) && (n <=? 122))
  || ((48 <=? n) && (n <=? 57))
  || existsb (Ascii.eqb c) ["-"; "_"; "."; "!"; "~"; "*"; "'"; "("; ")"]%char.

(** [encodeURIComponent]: code units below 128 are one UTF-8 octet, the
    others (128..255) two. *)
Fixpoint encodeURIComponent (s : string) : string :=
  match s with
  | EmptyString => EmptyString
  | String c r =>
      let n := nat_of_ascii c in
      (if uri_unreserved c then String c EmptyString
       else if n <? 128 then percent n
       else percent (192 + n / 64) +++ percent (128 + n mod 64))
      +++ encodeURIComponent r
  end.

(** The rest of the current line. *)
Fixpoint line_rest (s : string) : string :=
  match s with
  | EmptyString => EmptyString
  | String c r => if is_line_end c then EmptyString else String c (line_rest r)
  end.

(** [Some p] when [s = p ++ suf]. *)
Definition strip_suffix (suf s : string) : option string :=
  let n := String.length s - String.length suf in
  if String.eqb (String.substring n (String.length suf) s) suf
     && (String.length suf <=? String.length s)
  then Some (substring0 n s) else None.

Fixpoint drop (n : nat) (s : string) : string :=
  match n, s with
  | S k, String _ r => drop k r
  | _, _ => s
  end.

(** Group 1 of the multi-line match against the search-index pattern (the
    literal text, an opening parenthesis, a greedy group that stays on the
    line, a closing parenthesis, an optional semicolon, end of line): at the
    leftmost occurrence of the literal whose line ends in a closing
    parenthesis or in one followed by a semicolon, everything between the
    literal and that ending. *)
Fixpoint match_setIndex (s : string) : option string :=
  let here :=
    if String.prefix "Search.setIndex(" s then
      let rest := line_rest (drop 16 s) in
      match strip_suffix ")" rest with
      | Some g => Some g
      | None => strip_suffix ");" rest
      end
    else None in
  match here with
  | Some g => Some g
  | None => match s with
            | EmptyString => None
            | String _ r => match_setIndex r
            end
  end.

End JS.

(** ** Exceptions and mutable state

    A computation reads and updates a store of type [S] and either returns or
    throws.  The store survives a throw: what was pushed on an array before
    the exception is still there in the handler. *)

Inductive exn : Type :=
| TypeError (msg : string)
| SyntaxError (msg : string)
| FetchError (msg : string).

Inductive outcome (A : Type) : Type :=
| Ret (a : A)
| Throw (e : exn).
Arguments Ret {A} a.
Arguments Throw {A} e.

Definition M (S A : Type) : Type := S -> outcome A * S.

Definition ret {S A} (a : A) : M S A := fun s => (Ret a, s).
Definition throw {S A} (e : exn) : M S A := fun s => (Throw e, s).
Definition bind {S A B} (m : M S A) (k : A -> M S B) : M S B :=
  fun s => match m s with
           | (Ret a, s') => k a s'
           | (Throw e, s') => (Throw e, s')
           end.
(** [try { m } catch (e) { h e }]. *)
Definition try_catch {S A} (m : M S A) (h : exn -> M S A) : M S A :=
  fun s => match m s with
           | (Ret a, s') => (Ret a, s')
           | (Throw e, s') => h e s'
           end.
Definition get_store {S} : M S S := fun s => (Ret s, s).
Definition modify {S} (f : S -> S) : M S unit := fun s => (Ret tt, f s).
Definition lift_outcome {S A} (o : outcome A) : M S A := fun s => (o, s).

Declare Scope js_scope.
Delimit Scope js_scope with js.
Notation "x <- m ;; k" := (bind m (fun x => k))
  (at level 61, m at next level, right associativity) : js_scope.
Notation "m ;; k" := (bind m (fun _ => k))
  (at level 61, right associativity) : js_scope.

(** ** Results *)

Record SearchResult : Type := mkResult {
  title : string;
  url : string;
  snippet : string;
  type : string;
}.

(** [l.slice(0, limit)]: a negative end counts from the end of the array. *)
Definition slice0 {A} (limit : Z) (l : list A) : list A :=
  if (0 <=? limit)%Z then firstn (Z.to_nat limit) l
  else firstn (List.length l - Z.to_nat (- limit)) l.

(** [results.length < limit] and [results.length >= limit]. *)
Definition below_limit {A} (l : list A) (limit : Z) : bool :=
  (Z.of_nat (List.length l) <? limit)%Z.
Definition reached_limit {A} (l : list A) (limit : Z) : bool :=
  (limit <=? Z.of_nat (List.length l))%Z.

(** ** Parsed JSON and the dynamic operations applied to it *)

Inductive value : Type :=
| VUndefined
| VNull
| VBool (b : bool)
| VNum (n : Z)
| VStr (s : string)
| VArr (items : list value)
| VObj (fields : list (string * value)).

Fixpoint lookup (k : string) (fields : list (string * value)) : value :=
  match fields with
  | [] => VUndefined
  | (k', v) :: r => if String.eqb k k' then v else lookup k r
  end.

Definition value_truthy (v : value) : bool :=
  match v with
  | VUndefined | VNull => false
  | VBool b => b
  | VNum n => negb (n =? 0)%Z
  | VStr s => JS.truthy s
  | VArr _ | VObj _ => true
  end.

Definition decimal (n : nat) : string :=
  NilZero.string_of_uint (Nat.to_uint n).

(** [v.k] for a property name [k] that is not [length] nor an index: a
    [TypeError] on [null] and [undefined], the field of an object, and
    [undefined] on everything else. *)
Definition get_field {S} (v : value) (k : string) : M S value :=
  match v with
  | VUndefined | VNull => throw (TypeError ("Cannot read properties (reading '" +++ k +++ "')"))
  | VObj fields => ret (lookup k fields)
  | _ => ret VUndefined
  end.

(** [v.length] for a [v] that is neither [null] nor [undefined]. *)
Definition get_length (v : value) : value :=
  match v with
  | VArr items => VNum (Z.of_nat (List.length items))
  | VStr s => VNum (Z.of_nat (String.length s))
  | VObj fields => lookup "length" fields
  | _ => VUndefined
  end.

(** [v[i]] for a [v] that is neither [null] nor [undefined]. *)
Definition get_index (v : value) (i : nat) : value :=
  match v with
  | VArr items => nth i items VUndefined
  | VStr s => match String.get i s with
              | Some c => VStr (String c EmptyString)
              | None => VUndefined
              end
  | VObj fields => lookup (decimal i) fields
  | _ => VUndefined
  end.

(** [v.toLowerCase()] and the other string methods exist on strings only;
    the call yields the receiver here, the method is applied by the caller. *)
Definition as_string {S} (v : value) : M S string :=
  match v with
  | VStr s => ret s
  | VUndefined | VNull => throw (TypeError "Cannot read properties (reading 'toLowerCase')")
  | _ => throw (TypeError "toLowerCase is not a function")
  end.

(** ** The outside world *)

Record Response : Type := mkResponse {
  ok : bool;
  text : outcome string;          (* [await response.text()] *)
}.

(** What the module asks of a loaded HTML document.  Every field is the
    value of one query of the source, in document order. *)

(** A link of the results section of the rendered search page. *)
Record ResultLink : Type := mkResultLink {
  rl_text : string;               (* [$element.text()] *)
  rl_href : option string;        (* [$element.attr('href')] *)
  rl_parent_text : string;        (* [$element.parent().text()] *)
  rl_next : option string;        (* [$element.next()]: its [text()], if there is one *)
}.

Record Heading : Type := mkHeading {
  hd_text : string;               (* [$heading.text()] *)
  hd_id : option string;          (* [$heading.attr('id')] *)
  hd_next_text : string;          (* [$heading.next('p, div').text()] *)
}.

Record Block : Type := mkBlock {
  bl_text : string;               (* [$element.text()] *)
  bl_heading : option (string * option string);
    (* [$element.prevAll('h1, ..., h6').first()]: its [text()] and [attr('id')] *)
}.

Record Element : Type := mkElement {
  el_tag : string;                (* [element.tagName] *)
  el_text : string;
  el_id : option string;
  el_prev_heading_text : string;  (* [prevAll('h1, ..., h6').first().text()] *)
}.

Record PageLink : Type := mkPageLink {
  pl_text : string;
  pl_href : option string;
  pl_parent_text : string;        (* [$element.parent().text()] *)
  pl_siblings_text : string;      (* [$element.parent().siblings().text()] *)
}.

Record Document : Type := mkDocument {
  (* rendered search page: [$('h2:contains("Searching")').parent().find('a[href]')] *)
  doc_result_links : list ResultLink;
  (* the remaining queries are made after [$('script, style').remove()] *)
  doc_title : string;             (* [$('title').text()] *)
  doc_h1 : string;                (* [$('h1').first().text()] *)
  doc_content : string;           (* [$('main, .content, article').text()] *)
  doc_text : string;              (* [$.text()] *)
  doc_headings : list Heading;    (* [$('h1, h2, h3, h4, h5, h6')] *)
  doc_blocks : list Block;        (* [$('p, div')] *)
  doc_elements : list Element;    (* [$('h1, h2, h3, h4, h5, h6, p, div')] *)
  doc_links : list PageLink;      (* [$('a[href]')] *)
}.

Record World : Type := mkWorld {
  (* [fetch(url, ...)], given the URLs requested so far *)
  http : list string -> string -> outcome Response;
  JSON_parse : string -> outcome value;
  (* ToNumber of a string, an array or an object *)
  to_number_other : value -> option Z;
  (* [cheerio.load(html)] and the queries made on the result *)
  cheerio_load : string -> outcome Document;
}.

(** ToNumber; [None] is NaN. *)
Definition to_number (w : World) (v : value) : option Z :=
  match v with
  | VUndefined => None
  | VNull => Some 0%Z
  | VBool b => Some (if b then 1 else 0)%Z
  | VNum n => Some n
  | _ => to_number_other w v
  end.

(** ** The module *)

Local Open Scope js_scope.

Definition AUTOGEN_BASE_URL : string := "https://microsoft.github.io/autogen".

Definition getVersionUrl (version : string) : string :=
  AUTOGEN_BASE_URL +++ "/" +++ version.

(** The substring every kept link must contain. *)
Definition DOC_DOMAIN : string := "microsoft.github.io/autogen".

(** *** Search on the parsed index *)

Definition queryTerms_of (query : string) : list string :=
  filter JS.nonempty (JS.split_ws (JS.toLowerCase query)).

(** The inner [for (const term of queryTerms)] loop. *)
Definition score_of (queryTerms : list string) (titleLower docnameLower : string) : nat :=
  fold_left (fun score term =>
               (score + (if JS.includes titleLower term then 3 else 0))
               + (if JS.includes docnameLower term then 2 else 0))
            queryTerms 0.

Definition type_of_docname (docname : string) : string :=
  if JS.includes docname "python/" then "API Reference"
  else if JS.includes docname "user-guide/" then "User Guide"
  else if JS.includes docname "tutorials/" then "Tutorial"
  else if JS.includes docname "components/" then "Core Guide"
  else "Documentation".

(** The [reduce] of the comparator: how many query terms the lowered title
    contains. *)
Definition title_matches (queryTerms : list string) (r : SearchResult) : nat :=
  fold_left (fun count term =>
               count + (if JS.includes (JS.toLowerCase (title r)) term then 1 else 0))
            queryTerms 0.

(** [results.sort((a, b) => bMatches - aMatches)]: the sort is stable, and
    [a] stays before [b] unless [b] has strictly more matches. *)
Fixpoint sort_insert (key : SearchResult -> nat) (a : SearchResult)
    (l : list SearchResult) : list SearchResult :=
  match l with
  | [] => [a]
  | b :: r => if key b <=? key a then a :: b :: r
              else b :: sort_insert key a r
  end.

Fixpoint sort_desc (key : SearchResult -> nat) (l : list SearchResult) : list SearchResult :=
  match l with
  | [] => []
  | a :: r => sort_insert key a (sort_desc key r)
  end.

Section IndexSearch.
Variable w : World.
Variables (titles docnames : value) (queryTerms : list string).
Variables (baseUrl : string) (limit : Z).

(** One turn of the [for] loop, index [i]. *)
Definition index_body (i : nat) : M (list SearchResult) unit :=
  let title_v := get_index titles i in
  let docname_v := get_index docnames i in
  title <- as_string title_v ;;
  docname <- as_string docname_v ;;
  let titleLower := JS.toLowerCase title in
  let docnameLower := JS.toLowerCase docname in
  let score := score_of queryTerms titleLower docnameLower in
  if 0 <? score then
    let url := baseUrl +++ "/" +++ docname +++ ".html" in
    let type := type_of_docname docname in
    modify (fun results => results ++ [mkResult title url type type])
  else ret tt.

(** [for (let i = 0; i < titles.length && results.length < limit; i++)],
    with [remaining] turns left before [i] reaches [titles.length]. *)
Fixpoint index_loop (remaining i : nat) : M (list SearchResult) unit :=
  match remaining with
  | 0 => ret tt
  | S k =>
      results <- get_store ;;
      if below_limit results limit
      then index_body i ;; index_loop k (S i)
      else ret tt
  end.

Definition loop_bound : nat :=
  match to_number w (get_length titles) with
  | Some n => Z.to_nat n
  | None => 0
  end.
End IndexSearch.

Definition performIndexSearch (w : World) (searchData : value)
    (query baseUrl : string) (limit : Z) : list SearchResult :=
  let queryTerms := queryTerms_of query in
  let body : M (list SearchResult) unit :=
    try_catch
      (titles <- get_field searchData "titles" ;;
       (if value_truthy titles then
          docnames <- get_field searchData "docnames" ;;
          if value_truthy docnames
          then index_loop titles docnames queryTerms baseUrl limit
                          (loop_bound w titles) 0
          else ret tt
        else ret tt) ;;
       modify (sort_desc (title_matches queryTerms)))
      (fun searchError => ret tt) in
  slice0 limit (snd (body [])).

(** *** Scanning a loaded document *)

(** [$(...).each(callback)]: the callback answers [None] for [return false],
    which ends the iteration. *)
Fixpoint each {A} (callback : A -> list SearchResult -> option (list SearchResult))
    (elements : list A) (results : list SearchResult) : list SearchResult :=
  match elements with
  | [] => results
  | x :: r => match callback x results with
              | Some results' => each callback r results'
              | None => results
              end
  end.

Definition attr_truthy (a : option string) : bool :=
  match a with Some s => JS.truthy s | None => false end.

Definition attr_or_empty (a : option string) : string :=
  match a with Some s => s | None => EmptyString end.

(** Make relative URLs absolute. *)
Definition absolutize (base url : string) : string :=
  if JS.startsWith url "/" then base +++ url
  else if negb (JS.startsWith url "http") then base +++ "/" +++ url
  else url.

(** [url], with [#id] appended when the identifier is present and non-empty. *)
Definition with_fragment (url : string) (id : option string) : string :=
  if attr_truthy id then url +++ "#" +++ attr_or_empty id else url.

(** The callback of the rendered search page. *)
Definition result_link_step (baseUrl : string) (limit : Z) (a : ResultLink)
    (results : list SearchResult) : option (list SearchResult) :=
  if reached_limit results limit then None
  else
    let title := JS.trim (rl_text a) in
    if negb (attr_truthy (rl_href a)) || negb (JS.truthy title) then Some results
    else
      let url := absolutize baseUrl (attr_or_empty (rl_href a)) in
      if negb (JS.includes url DOC_DOMAIN) then Some results
      else
        let '(snippet, type) :=
          match JS.match_paren (rl_parent_text a) with
          | Some t => (t, t)
          | None => (EmptyString, EmptyString)
          end in
        let snippet :=
          if negb (JS.truthy snippet) then
            match rl_next a with
            | Some next_text => JS.substring0 200 (JS.trim next_text)
            | None => snippet
            end
          else snippet in
        let title := JS.trim (JS.collapse_ws title) in
        if JS.truthy title && JS.truthy url then
          Some (results ++ [mkResult title url
                              (JS.or_else snippet "AutoGen documentation") type])
        else Some results.

Definition scan_search_page (baseUrl : string) (limit : Z) (doc : Document)
  : list SearchResult :=
  each (result_link_step baseUrl limit) (doc_result_links doc) [].

(** *** The crawler *)

Record Page : Type := mkPage {
  page_url : string;
  page_type : string;
}.

Definition isMcpQuery_of (queryLower : string) : bool :=
  JS.includes queryLower "mcp"
  || JS.includes queryLower "model context protocol"
  || JS.includes queryLower "autogen_ext".

Definition mcpBaseUrl : string := "https://microsoft.github.io/autogen".

Definition mcp_pages : list Page :=
  [ mkPage (mcpBaseUrl +++ "/docs/ecosystem/integrations") "MCP Integrations";
    mkPage (mcpBaseUrl +++ "/docs/reference/agentchat/contrib") "Contrib Modules";
    mkPage (mcpBaseUrl +++ "/docs/ecosystem/community") "Community";
    mkPage (mcpBaseUrl +++ "/docs/tutorial/code-executors") "Code Executors";
    mkPage (mcpBaseUrl +++ "/docs/tutorial/tool-use") "Tool Use";
    mkPage (mcpBaseUrl +++ "/docs/ecosystem/ecosystem") "Ecosystem";
    mkPage (mcpBaseUrl +++ "/docs/Getting-Started") "Getting Started";
    mkPage (mcpBaseUrl +++ "/docs/tutorial/introduction") "Tutorial";
    mkPage (mcpBaseUrl +++ "/docs/Use-Cases/agent_chat") "Agent Chat";
    mkPage (mcpBaseUrl +++ "/docs/Installation") "Installation";
    mkPage (mcpBaseUrl +++ "/docs/FAQ") "FAQ";
    mkPage (mcpBaseUrl +++ "/docs/Migration-Guide") "Migration";
    mkPage (mcpBaseUrl +++ "/blog") "Blog" ].

Definition standard_pages (baseUrl : string) : list Page :=
  [ mkPage (baseUrl +++ "/user-guide/index.html") "User Guide";
    mkPage (baseUrl +++ "/user-guide/core-user-guide/index.html") "Core Guide";
    mkPage (baseUrl +++ "/user-guide/agentchat-user-guide/index.html") "AgentChat Guide";
    mkPage (baseUrl +++ "/reference/index.html") "API Reference";
    mkPage (baseUrl +++ "/reference/agentchat/index.html") "AgentChat API";
    mkPage (baseUrl +++ "/reference/autogen_core/index.html") "Core API";
    mkPage (baseUrl +++ "/tutorials/index.html") "Tutorials" ].

Definition pagesToSearch_of (isMcpQuery : bool) (baseUrl : string) : list Page :=
  if isMcpQuery then mcp_pages else standard_pages baseUrl.

Definition mcpRelatedTerms : list string :=
  ["autogen_ext"; "tools"; "extensions"; "contrib"; "ecosystem"].

Definition heading_tags : list string := ["H1"; "H2"; "H3"; "H4"; "H5"; "H6"].

(** [results.some(result => result.url === url && result.title === title)]. *)
Definition dup_url_and_title (results : list SearchResult) (u t : string) : bool :=
  existsb (fun result => String.eqb (url result) u && String.eqb (title result) t) results.

(** [results.some(result => result.url === url || result.title === title)]. *)
Definition dup_url_or_title (results : list SearchResult) (u t : string) : bool :=
  existsb (fun result => String.eqb (url result) u || String.eqb (title result) t) results.

Section PageScan.
Variables (queryLower : string) (limit : Z) (page : Page).
(** The base of relative links: the main site for an MCP query, the
    version's base otherwise. *)
Variable linkBase : string.

(** Headings that contain the query. *)
Definition heading_step (h : Heading) (results : list SearchResult)
  : option (list SearchResult) :=
  if reached_limit results limit then None
  else
    let headingText := JS.trim (hd_text h) in
    if JS.includes (JS.toLowerCase headingText) queryLower then
      let url := with_fragment (page_url page) (hd_id h) in
      let nextContent := JS.trim (hd_next_text h) in
      let snippet := JS.or_else (JS.substring0 200 nextContent)
                                (page_type page +++ ": " +++ headingText) in
      Some (results ++ [mkResult headingText url snippet (page_type page)])
    else Some results.

(** Paragraphs and divs that contain the query. *)
Definition block_step (pageTitle : string) (b : Block)
    (results : list SearchResult) : option (list SearchResult) :=
  if reached_limit results limit then None
  else
    let text := JS.trim (bl_text b) in
    if JS.includes (JS.toLowerCase text) queryLower && (50 <? String.length text) then
      let title :=
        match bl_heading b with
        | Some (heading_text, _) => JS.trim heading_text
        | None => JS.or_else pageTitle "AutoGen Documentation"
        end in
      let headingId :=
        match bl_heading b with
        | Some (_, id) => id
        | None => None
        end in
      let url := with_fragment (page_url page) headingId in
      let snippet := JS.substring0 200 text in
      if negb (dup_url_and_title results url title)
      then Some (results ++ [mkResult title url snippet (page_type page)])
      else Some results
    else Some results.

(** Headings, paragraphs and divs that mention a related term. *)
Definition related_step (term : string) (e : Element)
    (results : list SearchResult) : option (list SearchResult) :=
  if reached_limit results limit then None
  else
    let text := JS.trim (el_text e) in
    if JS.includes (JS.toLowerCase text) term && (20 <? String.length text) then
      let isHeading := existsb (String.eqb (el_tag e)) heading_tags in
      let title := if isHeading then text else JS.trim (el_prev_heading_text e) in
      let title := if negb (JS.truthy title) then page_type page +++ ": " +++ term
                   else title in
      let url := with_fragment (page_url page) (el_id e) in
      let snippet := JS.substring0 200 text in
      if negb (dup_url_and_title results url title)
      then Some (results ++ [mkResult title url snippet (page_type page)])
      else Some results
    else Some results.

(** The callback of [mcpRelatedTerms.forEach]. *)
Definition related_term_pass (doc : Document) (results : list SearchResult)
    (term : string) : list SearchResult :=
  if reached_limit results limit then results
  else
    let pageText := JS.toLowerCase (doc_text doc) in
    if JS.includes pageText term
    then each (related_step term) (doc_elements doc) results
    else results.

(** Links whose text or address contains the query. *)
Definition link_step (a : PageLink) (results : list SearchResult)
  : option (list SearchResult) :=
  if reached_limit results limit then None
  else
    let title := JS.trim (pl_text a) in
    if negb (attr_truthy (pl_href a)) || negb (JS.truthy title)
       || (String.length title <? 3)
    then Some results
    else
      let url := absolutize linkBase (attr_or_empty (pl_href a)) in
      if negb (JS.includes url DOC_DOMAIN) then Some results
      else if JS.includes (JS.toLowerCase title) queryLower
              || JS.includes (JS.toLowerCase url) queryLower then
        let snippet := JS.trim (pl_parent_text a) in
        let snippet := if String.length snippet <? 50
                       then JS.trim (pl_siblings_text a) else snippet in
        let snippet := JS.or_else (JS.substring0 200 snippet) "AutoGen documentation" in
        if negb (dup_url_or_title results url title)
        then Some (results ++ [mkResult title url snippet (page_type page)])
        else Some results
      else Some results.

(** Everything done with one loaded page, in the order of the source. *)
Definition scan_page (isMcpQuery : bool) (doc : Document)
    (results : list SearchResult) : list SearchResult :=
  let pageTitle := JS.or_else (doc_title doc) (doc_h1 doc) in
  let pageContent := JS.toLowerCase (doc_content doc) in
  let results :=
    if JS.includes pageContent queryLower then
      each (block_step pageTitle) (doc_blocks doc)
           (each heading_step (doc_headings doc) results)
    else results in
  let results :=
    if isMcpQuery
    then fold_left (related_term_pass doc) mcpRelatedTerms results
    else results in
  each link_step (doc_links doc) results.
End PageScan.

(** [fetch(url, { headers })]: the request is recorded in the store. *)
Definition fetch (w : World) (u : string) : M (list string) Response :=
  fun requested => (http w requested u, requested ++ [u]).

(** [results.filter((result, index, self) =>
       index === self.findIndex(r => r.url === result.url))]. *)
Fixpoint findIndex {A} (p : A -> bool) (l : list A) : option nat :=
  match l with
  | [] => None
  | x :: r => if p x then Some 0 else option_map S (findIndex p r)
  end.

Fixpoint filter_indexed {A} (keep : A -> nat -> bool) (index : nat) (l : list A) : list A :=
  match l with
  | [] => []
  | x :: r => if keep x index then x :: filter_indexed keep (S index) r
              else filter_indexed keep (S index) r
  end.

Definition is_index (index : nat) (found : option nat) : bool :=
  match found with Some j => index =? j | None => false end.

Definition uniqueResults_of (results : list SearchResult) : list SearchResult :=
  filter_indexed
    (fun result index =>
       is_index index (findIndex (fun r => String.eqb (url r) (url result)) results))
    0 results.

Section Crawl.
Variables (w : World) (queryLower : string) (limit : Z).
Variables (isMcpQuery : bool) (baseUrl : string).

(** The body of [for (const page of pagesToSearch)], after the limit test. *)
Definition visit_page (page : Page) (results : list SearchResult)
  : M (list string) (list SearchResult) :=
  try_catch
    (response <- fetch w (page_url page) ;;
     if negb (ok response) then ret results
     else
       html <- lift_outcome (text response) ;;
       doc <- lift_outcome (cheerio_load w html) ;;
       ret (scan_page queryLower limit page
              (if isMcpQuery then mcpBaseUrl else baseUrl)
              isMcpQuery doc results))
    (fun error => ret results).

Fixpoint crawl (pages : list Page) (results : list SearchResult)
  : M (list string) (list SearchResult) :=
  match pages with
  | [] => ret results
  | page :: rest =>
      if reached_limit results limit then ret results
      else results' <- visit_page page results ;; crawl rest results'
  end.
End Crawl.

Definition fallbackSearch (w : World) (query : string) (limit : Z) (version : string)
  : M (list string) (list SearchResult) :=
  let queryLower := JS.toLowerCase query in
  let baseUrl := getVersionUrl version in
  let isMcpQuery := isMcpQuery_of queryLower in
  let pagesToSearch := pagesToSearch_of isMcpQuery baseUrl in
  results <- crawl w queryLower limit isMcpQuery baseUrl pagesToSearch [] ;;
  let uniqueResults := uniqueResults_of results in
  ret (slice0 limit uniqueResults).

(** *** The entry point *)

(** The search-index attempt: [Some results] stands for [return indexResults]. *)
Definition try_index (w : World) (content query baseUrl : string) (limit : Z)
  : M (list string) (option (list SearchResult)) :=
  try_catch
    (match JS.match_setIndex content with
     | Some group =>
         searchData <- lift_outcome (JSON_parse w group) ;;
         let indexResults := performIndexSearch w searchData query baseUrl limit in
         if 0 <? List.length indexResults then ret (Some indexResults) else ret None
     | None => ret None
     end)
    (fun parseError => ret None).

Definition index_url (version : string) : string :=
  getVersionUrl version +++ "/searchindex.js".

(** First strategy: the search index file.  [Some results] stands for an
    early [return]. *)
Definition index_strategy (w : World) (query : string) (limit : Z) (version : string)
  : M (list string) (option (list SearchResult)) :=
  let baseUrl := getVersionUrl version in
  let searchIndexUrl := index_url version in
  response <- fetch w searchIndexUrl ;;
  if ok response then
    searchIndexContent <- lift_outcome (text response) ;;
    try_index w searchIndexContent query baseUrl limit
  else ret None.

Definition searchUrl_of (query version : string) : string :=
  getVersionUrl version +++ "/search.html?q=" +++ JS.encodeURIComponent query.

(** Second strategy: the native search page. *)
Definition page_strategy (w : World) (query : string) (limit : Z) (version : string)
  : M (list string) (option (list SearchResult)) :=
  let baseUrl := getVersionUrl version in
  let searchUrl := searchUrl_of query version in
  searchPageResponse <- fetch w searchUrl ;;
  if ok searchPageResponse then
    html <- lift_outcome (text searchPageResponse) ;;
    doc <- lift_outcome (cheerio_load w html) ;;
    let results := scan_search_page baseUrl limit doc in
    if 0 <? List.length results
    then ret (Some (slice0 limit results))
    else ret None
  else ret None.

(** What follows the search-index attempt inside the outer [try]. *)
Definition later_strategies (w : World) (query : string) (limit : Z) (version : string)
  : M (list string) (list SearchResult) :=
  page_found <- page_strategy w query limit version ;;
  match page_found with
  | Some results => ret results
  | None => fallbackSearch w query limit version
  end.

(** The body of the outer [try]. *)
Definition enhanced_search (w : World) (query : string) (limit : Z) (version : string)
  : M (list string) (list SearchResult) :=
  found <- index_strategy w query limit version ;;
  match found with
  | Some indexResults => ret indexResults
  | None => later_strategies w query limit version
  end.

Definition searchAutoGenDocs (w : World) (query : string) (limit : Z) (version : string)
  : M (list string) (list SearchResult) :=
  try_catch (enhanced_search w query limit version)
            (fun error => fallbackSearch w query limit version).

(** ** Vocabulary of the statements *)

(** A request that gives nothing to work with: a transport failure or a
    status that is not ok. *)
Definition unavailable (o : outcome Response) : bool :=
  match o with
  | Ret response => negb (ok response)
  | Throw _ => true
  end.

Definition url_ok (r : SearchResult) : Prop :=
  JS.includes (url r) DOC_DOMAIN = true.

(** The three origins of a snippet: bounded context text or placeholder, the
    category itself, the synthesized heading line. *)
Definition snippet_ok (r : SearchResult) : Prop :=
  snippet r <> EmptyString
  /\ (String.length (snippet r) <= 200
      \/ snippet r = type r
      \/ snippet r = type r +++ ": " +++ title r).

Definition entry_ok (r : SearchResult) : Prop := url_ok r /\ snippet_ok r.

(** The entry built by the index search for a document. *)
Definition index_entry (baseUrl title docname : string) : SearchResult :=
  mkResult title (baseUrl +++ "/" +++ docname +++ ".html")
           (type_of_docname docname) (type_of_docname docname).

(** The order of the sort: [b] has no more matches than [a]. *)
Definition desc (key : SearchResult -> nat) (a b : SearchResult) : Prop :=
  key b <= key a.

(** Modelled on the words of the specification: first occurrence wins, the
    order is kept.  [seen] holds the addresses already let through. *)
Fixpoint first_by_url (seen : list string) (l : list SearchResult) : list SearchResult :=
  match l with
  | [] => []
  | r :: rest =>
      if existsb (String.eqb (url r)) seen then first_by_url seen rest
      else r :: first_by_url (seen ++ [url r]) rest
  end.

(** The entries of the documents with a positive score, in index order. *)
Definition index_candidates (queryTerms : list string) (baseUrl : string)
    (documents : list (string * string)) : list SearchResult :=
  flat_map (fun '(t, d) =>
              if 0 <? score_of queryTerms (JS.toLowerCase t) (JS.toLowerCase d)
              then [index_entry baseUrl t d] else [])
           documents.

(** Modelled on the words of the specification: every document with a
    positive score is a candidate, the candidates are sorted by the number of
    query terms in the title, and the sorted sequence is truncated. *)
Definition rank_then_truncate (query baseUrl : string) (limit : Z)
    (titles docnames : list string) : list SearchResult :=
  let queryTerms := queryTerms_of query in
  slice0 limit
    (sort_desc (title_matches queryTerms)
               (index_candidates queryTerms baseUrl (combine titles docnames))).

(** *** Candidates of a page scan *)

Section Candidates.
Variables (queryLower : string) (page : Page) (linkBase : string).

(** The entry a heading stands for, when the heading contains the query. *)
Definition heading_candidate (h : Heading) : option SearchResult :=
  let headingText := JS.trim (hd_text h) in
  if JS.includes (JS.toLowerCase headingText) queryLower then
    Some (mkResult headingText
                   (with_fragment (page_url page) (hd_id h))
                   (JS.or_else (JS.substring0 200 (JS.trim (hd_next_text h)))
                               (page_type page +++ ": " +++ headingText))
                   (page_type page))
  else None.

(** The entry a paragraph or div stands for, when it is long enough and
    contains the query. *)
Definition block_candidate (pageTitle : string) (b : Block) : option SearchResult :=
  let text := JS.trim (bl_text b) in
  if JS.includes (JS.toLowerCase text) queryLower && (50 <? String.length text) then
    Some (mkResult
            match bl_heading b with
            | Some (heading_text, _) => JS.trim heading_text
            | None => JS.or_else pageTitle "AutoGen Documentation"
            end
            (with_fragment (page_url page)
               match bl_heading b with Some (_, id) => id | None => None end)
            (JS.substring0 200 text)
            (page_type page))
  else None.

(** The entry an element stands for in the pass on a related term. *)
Definition related_candidate (term : string) (e : Element) : option SearchResult :=
  let text := JS.trim (el_text e) in
  if JS.includes (JS.toLowerCase text) term && (20 <? String.length text) then
    let title := if existsb (String.eqb (el_tag e)) heading_tags
                 then text else JS.trim (el_prev_heading_text e) in
    Some (mkResult (if negb (JS.truthy title) then page_type page +++ ": " +++ term
                    else title)
                   (with_fragment (page_url page) (el_id e))
                   (JS.substring0 200 text)
                   (page_type page))
  else None.

(** The entry a link stands for, when it stays in the documentation and
    its text or address contains the query. *)
Definition link_candidate (a : PageLink) : option SearchResult :=
  let title := JS.trim (pl_text a) in
  if negb (attr_truthy (pl_href a)) || negb (JS.truthy title)
     || (String.length title <? 3)
  then None
  else
    let url := absolutize linkBase (attr_or_empty (pl_href a)) in
    if negb (JS.includes url DOC_DOMAIN) then None
    else if JS.includes (JS.toLowerCase title) queryLower
            || JS.includes (JS.toLowerCase url) queryLower then
      let parent_text := JS.trim (pl_parent_text a) in
      let context := if String.length parent_text <? 50
                     then JS.trim (pl_siblings_text a) else parent_text in
      Some (mkResult title url
                     (JS.or_else (JS.substring0 200 context) "AutoGen documentation")
                     (page_type page))
    else None.
End Candidates.

(** A query made of white space only. *)
Definition all_ws (s : string) : bool :=
  forallb JS.is_ws (list_ascii_of_string s).

(** *** Vocabulary of the cascade *)

(** The search on the index file ends with nothing to return: the status is
    not ok, the file holds no index, the index does not parse, or no document
    is a candidate. *)
Definition index_gives_nothing (w : World) (query : string) (limit : Z)
    (version : string) (log : list string) : Prop :=
  exists response,
    http w log (index_url version) = Ret response
    /\ (ok response = false
        \/ (ok response = true
            /\ exists content,
                 text response = Ret content
                 /\ match JS.match_setIndex content with
                    | None => True
                    | Some group =>
                        match JSON_parse w group with
                        | Throw _ => True
                        | Ret searchData =>
                            performIndexSearch w searchData query
                                               (getVersionUrl version) limit = []
                        end
                    end)).

(** A fetch error of the index file: the request raises, or the reading of
    the body does. *)
Definition index_raises (w : World) (version : string) (log : list string) : Prop :=
  match http w log (index_url version) with
  | Throw _ => True
  | Ret response => ok response = true /\ exists e, text response = Throw e
  end.

(** The native search page gives the result set [rs]. *)
Definition page_finds (w : World) (query : string) (limit : Z) (version : string)
    (log : list string) (rs : list SearchResult) : Prop :=
  exists response html doc,
    http w log (searchUrl_of query version) = Ret response
    /\ ok response = true
    /\ text response = Ret html
    /\ cheerio_load w html = Ret doc
    /\ scan_search_page (getVersionUrl version) limit doc <> []
    /\ rs = slice0 limit (scan_search_page (getVersionUrl version) limit doc).

(** A request for [u] fails: it raises, the status is not ok, or the body
    cannot be read or loaded. *)
Definition request_fails (w : World) (log : list string) (u : string) : Prop :=
  match http w log u with
  | Throw _ => True
  | Ret response =>
      ok response = false
      \/ (exists e, text response = Throw e)
      \/ (exists html e, text response = Ret html /\ cheerio_load w html = Throw e)
  end.

(** The native search page gives nothing: its request fails, or its results
    section yields no entry. *)
Definition page_gives_nothing (w : World) (query : string) (limit : Z)
    (version : string) (log : list string) : Prop :=
  request_fails w log (searchUrl_of query version)
  \/ exists response html doc,
       http w log (searchUrl_of query version) = Ret response
       /\ text response = Ret html
       /\ cheerio_load w html = Ret doc
       /\ scan_search_page (getVersionUrl version) limit doc = [].

(** *** Vocabulary of the loops and of the query terms *)

(** What a loop pushes out of [l] when it pushes only while fewer than
    [limit] entries are held ([results.length < limit]); [held] entries are
    held at the start. *)
Fixpoint pushed_below {A} (limit : Z) (held : nat) (l : list A) : list A :=
  match l with
  | [] => []
  | x :: rest =>
      if (Z.of_nat held <? limit)%Z then x :: pushed_below limit (S held) rest else []
  end.

(** The last character of a string, if it has one. *)
Fixpoint last_char (s : string) : option ascii :=
  match s with
  | EmptyString => None
  | String c EmptyString => Some c
  | String _ r => last_char r
  end.

(** [before] can stand in front of a word: it is empty or ends with white
    space.  [after] can follow a word: it is empty or starts with white
    space. *)
Definition word_start (before : string) : bool :=
  match last_char before with
  | None => true
  | Some c => JS.is_ws c
  end.

Definition word_end (after : string) : bool :=
  match after with
  | EmptyString => true
  | String c _ => JS.is_ws c
  end.

(** ** Sample worlds *)

Definition not_found : Response := mkResponse false (Ret "Not Found").

Definition empty_document : Document :=
  mkDocument [] "" "" "" "" [] [] [] [].

(** Every request is answered with a non-ok status. *)
Definition offline_world : World :=
  mkWorld (fun _ _ => Ret not_found)
          (fun _ => Throw (SyntaxError "Unexpected end of JSON input"))
          (fun _ => None)
          (fun _ => Ret empty_document).

(** Every request fails at the transport level. *)
Definition unreachable_world : World :=
  mkWorld (fun _ _ => Throw (FetchError "getaddrinfo ENOTFOUND"))
          (fun _ => Throw (SyntaxError "Unexpected end of JSON input"))
          (fun _ => None)
          (fun _ => Ret empty_document).

(** The index file is served and parses to [searchData]; nothing else is. *)
Definition index_world (version : string) (searchData : value) : World :=
  mkWorld (fun _ u => if String.eqb u (index_url version)
                      then Ret (mkResponse true (Ret "Search.setIndex({})"))
                      else Ret not_found)
          (fun _ => Ret searchData)
          (fun _ => None)
          (fun _ => Ret empty_document).

(** Only the native search page is served, and it loads as [doc]. *)
Definition search_page_world (query version : string) (doc : Document) : World :=
  mkWorld (fun _ u => if String.eqb u (searchUrl_of query version)
                      then Ret (mkResponse true (Ret "<html>"))
                      else Ret not_found)
          (fun _ => Throw (SyntaxError "Unexpected token"))
          (fun _ => None)
          (fun _ => Ret doc).

(** Only the crawled page [u] is served, and it loads as [doc]. *)
Definition one_page_world (u : string) (doc : Document) : World :=
  mkWorld (fun _ u' => if String.eqb u' u
                       then Ret (mkResponse true (Ret "<html>"))
                       else Ret not_found)
          (fun _ => Throw (SyntaxError "Unexpected token"))
          (fun _ => None)
          (fun _ => Ret doc).

Definition table (titles docnames : list string) : value :=
  VObj [("titles", VArr (map VStr titles)); ("docnames", VArr (map VStr docnames))].

(** *** Sample documents *)

Fixpoint repeat_string (c : ascii) (n : nat) : string :=
  match n with
  | 0 => EmptyString
  | S k => String c (repeat_string c k)
  end.

Definition no_links_document (headings : list Heading) (content : string) : Document :=
  mkDocument [] "" "" content content headings [] [] [].

Definition results_document (links : list ResultLink) : Document :=
  mkDocument links "" "" "" "" [] [] [] [].

(** A results section that lists the same address twice:
    [<div><h2>Searching</h2><p><a href="reference/agent.html">AssistantAgent</a></p>
     <p><a href="reference/agent.html">AssistantAgent class</a></p></div>]. *)
Definition twin_links_document : Document :=
  results_document
    [ mkResultLink "AssistantAgent" (Some "reference/agent.html") "AssistantAgent" None;
      mkResultLink "AssistantAgent class" (Some "reference/agent.html")
                   "AssistantAgent class" None ].

(** A results section whose link is followed by a parenthetical annotation of
    201 characters. *)
Definition long_annotation : string := repeat_string "x" 201.

Definition annotated_document : Document :=
  results_document
    [ mkResultLink "AssistantAgent" (Some "reference/agent.html")
                   ("AssistantAgent (" +++ long_annotation +++ ")") None ].

(** A crawled page with one heading of 256 characters that contains the
    query and is followed by no paragraph. *)
Definition long_heading : string := "Agent " +++ repeat_string "y" 250.

Definition long_heading_document : Document :=
  no_links_document [mkHeading long_heading None ""] ("intro " +++ long_heading).

Definition user_guide_url : string :=
  getVersionUrl "stable" +++ "/user-guide/index.html".

(** The index request fails at the transport level although the native
    search page is served and holds a result. *)
Definition index_down_world (query version : string) (doc : Document) : World :=
  mkWorld (fun _ u => if String.eqb u (index_url version)
                      then Throw (FetchError "socket hang up")
                      else if String.eqb u (searchUrl_of query version)
                      then Ret (mkResponse true (Ret "<html>"))
                      else Ret not_found)
          (fun _ => Throw (SyntaxError "Unexpected token"))
          (fun _ => None)
          (fun _ => Ret doc).

Definition agent_intro_entry : SearchResult :=
  mkResult "Agent Introduction"
           "https://microsoft.github.io/autogen/stable/python/agent-intro.html"
           "API Reference" "API Reference".

(** An index in which five documents that match "agent" come before the
    document of the scenario. *)
Definition crowded_titles : list string :=
  ["AgentChat"; "Agents"; "Agent Runtime"; "Multi-Agent Design";
   "Agent and Tools"; "Agent Introduction"].
Definition crowded_docnames : list string :=
  ["user-guide/agentchat"; "user-guide/agents"; "user-guide/runtime";
   "user-guide/multi-agent"; "user-guide/tools"; "python/agent-intro"].

(** A page with the same heading twice and two links of the same text to
    different addresses:
    [<main><h2>Agents</h2><h2>Agents</h2>
     <p><a href="a.html">Agents guide</a></p><p><a href="b.html">Agents guide</a></p></main>]. *)
Definition twin_heading : Heading := mkHeading "Agents" None "".

Definition twin_document : Document :=
  mkDocument [] "" ""
             "AgentsAgentsAgents guideAgents guide"
             "AgentsAgentsAgents guideAgents guide"
             [twin_heading; twin_heading]
             [ mkBlock "Agents guide" (Some ("Agents", None));
               mkBlock "Agents guide" (Some ("Agents", None)) ]
             [ mkElement "h2" "Agents" None "";
               mkElement "h2" "Agents" None "Agents";
               mkElement "p" "Agents guide" None "Agents";
               mkElement "p" "Agents guide" None "Agents" ]
             [ mkPageLink "Agents guide" (Some "a.html") "Agents guide"
                          "AgentsAgentsAgents guide";
               mkPageLink "Agents guide" (Some "b.html") "Agents guide"
                          "AgentsAgentsAgents guide" ].

Definition user_guide_page : Page := mkPage user_guide_url "User Guide".

(** The index file is answered with an ok status, but reading its body
    fails; the native search page is served and holds a result. *)
Definition index_body_down_world (query version : string) (doc : Document) : World :=
  mkWorld (fun _ u => if String.eqb u (index_url version)
                      then Ret (mkResponse true (Throw (FetchError "terminated")))
                      else if String.eqb u (searchUrl_of query version)
                      then Ret (mkResponse true (Ret "<html>"))
                      else Ret not_found)
          (fun _ => Throw (SyntaxError "Unexpected token"))
          (fun _ => None)
          (fun _ => Ret doc).

(** An address outside the documentation host that mentions the host in its
    query string. *)
Definition external_url : string :=
  "https://example.com/?ref=microsoft.github.io/autogen".

(** A results section with one link to that address:
    [<div><h2>Searching</h2><p><a href="https://example.com/?ref=...">Agent mirror</a></p></div>]. *)
Definition external_results_document : Document :=
  results_document [mkResultLink "Agent mirror" (Some external_url) "Agent mirror" None].

(** A crawled page whose only link goes to that address. *)
Definition external_link_document : Document :=
  mkDocument [] "" "" "" "" [] [] []
             [mkPageLink "Agent mirror" (Some external_url) "Agent mirror" ""].

(** ** The module used by the server, and the server's tool

    The server imports the earlier search module: the native search page
    first (its results section, then any content link that mentions the
    query), then a crawl of the seven standard pages by headings and links. *)

Module Native.

(** A link matched by [$('main a[href], .content a[href], article a[href]')]. *)
Record ContentLink : Type := mkContentLink {
  cl_text : string;               (* [$element.text()] *)
  cl_href : option string;        (* [$element.attr('href')] *)
}.

(** What this module asks of a loaded document; no element is removed
    before the queries, and the page title, which is read, is not used. *)
Record PageView : Type := mkPageView {
  (* [$('h2:contains("Searching")').parent().find('a[href]')] *)
  pv_result_links : list ResultLink;
  pv_content_links : list ContentLink;
  pv_content : string;            (* [$('main, .content, article').text()] *)
  pv_headings : list Heading;     (* [$('h1, h2, h3, h4')] *)
  pv_links : list PageLink;       (* [$('a[href]')] *)
}.

Record World : Type := mkWorld {
  http : list string -> string -> outcome Response;
  cheerio_load : string -> outcome PageView;
}.

Definition fetch (w : World) (u : string) : M (list string) Response :=
  fun requested => (http w requested u, requested ++ [u]).

(** The callback of the alternative parsing. *)
Definition content_link_step (query baseUrl : string) (limit : Z) (a : ContentLink)
    (results : list SearchResult) : option (list SearchResult) :=
  if reached_limit results limit then None
  else
    let title := JS.trim (cl_text a) in
    if negb (attr_truthy (cl_href a)) || negb (JS.truthy title)
       || (String.length title <? 3)
    then Some results
    else
      let url := absolutize baseUrl (attr_or_empty (cl_href a)) in
      if JS.includes url DOC_DOMAIN
         && (JS.includes (JS.toLowerCase title) (JS.toLowerCase query)
             || JS.includes (JS.toLowerCase url) (JS.toLowerCase query))
      then Some (results ++ [mkResult title url "AutoGen documentation" "Documentation"])
      else Some results.

(** The results section, then the content links if it gave nothing. *)
Definition scan_search_page (query baseUrl : string) (limit : Z) (view : PageView)
  : list SearchResult :=
  let results := each (result_link_step baseUrl limit) (pv_result_links view) [] in
  if List.length results =? 0
  then each (content_link_step query baseUrl limit) (pv_content_links view) results
  else results.

Definition scan_page (queryLower : string) (limit : Z) (page : Page) (baseUrl : string)
    (view : PageView) (results : list SearchResult) : list SearchResult :=
  let pageContent := JS.toLowerCase (pv_content view) in
  let results :=
    if JS.includes pageContent queryLower
    then each (heading_step queryLower limit page) (pv_headings view) results
    else results in
  each (link_step queryLower limit page baseUrl) (pv_links view) results.

Definition visit_page (w : World) (queryLower : string) (limit : Z) (baseUrl : string)
    (page : Page) (results : list SearchResult) : M (list string) (list SearchResult) :=
  try_catch
    (response <- fetch w (page_url page) ;;
     if negb (ok response) then ret results
     else
       html <- lift_outcome (text response) ;;
       view <- lift_outcome (cheerio_load w html) ;;
       ret (scan_page queryLower limit page baseUrl view results))
    (fun error => ret results).

Fixpoint crawl (w : World) (queryLower : string) (limit : Z) (baseUrl : string)
    (pages : list Page) (results : list SearchResult)
  : M (list string) (list SearchResult) :=
  match pages with
  | [] => ret results
  | page :: rest =>
      if reached_limit results limit then ret results
      else results' <- visit_page w queryLower limit baseUrl page results ;;
           crawl w queryLower limit baseUrl rest results'
  end.

Definition fallbackSearch (w : World) (query : string) (limit : Z) (version : string)
  : M (list string) (list SearchResult) :=
  let queryLower := JS.toLowerCase query in
  let baseUrl := getVersionUrl version in
  let pagesToSearch := standard_pages baseUrl in
  results <- crawl w queryLower limit baseUrl pagesToSearch [] ;;
  let uniqueResults := uniqueResults_of results in
  ret (slice0 limit uniqueResults).

(** The body of the [try].  The [Error] raised on a status that is not ok
    carries the status text, which [Response] does not keep. *)
Definition native_search (w : World) (query : string) (limit : Z) (version : string)
  : M (list string) (list SearchResult) :=
  let baseUrl := getVersionUrl version in
  let searchUrl := searchUrl_of query version in
  response <- fetch w searchUrl ;;
  if negb (ok response) then throw (FetchError "Search request failed")
  else
    html <- lift_outcome (text response) ;;
    view <- lift_outcome (cheerio_load w html) ;;
    let results := scan_search_page query baseUrl limit view in
    if List.length results =? 0
    then fallbackSearch w query limit version
    else ret (slice0 limit results).

Definition searchAutoGenDocs (w : World) (query : string) (limit : Z) (version : string)
  : M (list string) (list SearchResult) :=
  try_catch (native_search w query limit version)
            (fun error => fallbackSearch w query limit version).

End Native.

(** *** The tool registered by the server *)

Definition newline : string := String "010" EmptyString.
Definition dquote : string := String "034" EmptyString.

(** [error instanceof Error ? error.message : String(error)]. *)
Definition exn_message (e : exn) : string :=
  match e with
  | TypeError msg | SyntaxError msg | FetchError msg => msg
  end.

(** What the tool answers: the text of its single content item, and the
    error flag (absent, hence false, on the normal paths). *)
Record ToolResponse : Type := mkToolResponse {
  tr_text : string;
  tr_isError : bool;
}.

(** The callback of [results.map]. *)
Definition format_result (result : SearchResult) (index : nat) : string :=
  let typeInfo := if JS.truthy (type result)
                  then " (" +++ type result +++ ")" else EmptyString in
  decimal (index + 1) +++ ". **" +++ title result +++ "**" +++ typeInfo +++ newline
  +++ "   URL: " +++ url result +++ newline
  +++ "   " +++ snippet result +++ newline.

Fixpoint map_indexed {A B} (f : A -> nat -> B) (index : nat) (l : list A) : list B :=
  match l with
  | [] => []
  | x :: r => f x index :: map_indexed f (S index) r
  end.

(** [l.join(sep)]. *)
Fixpoint join (sep : string) (l : list string) : string :=
  match l with
  | [] => EmptyString
  | [x] => x
  | x :: r => x +++ sep +++ join sep r
  end.

Definition no_results_text (query version : string) : string :=
  "No results found for " +++ dquote +++ query +++ dquote
  +++ " in AutoGen " +++ version +++ " documentation.".

Definition found_text (results : list SearchResult) (query version : string) : string :=
  "Found " +++ decimal (List.length results) +++ " result(s) for "
  +++ dquote +++ query +++ dquote +++ " in AutoGen " +++ version
  +++ " documentation:" +++ newline +++ newline
  +++ join newline (map_indexed format_result 0 results).

(** The handler of [search_autogen_docs]. *)
Definition search_autogen_docs (w : Native.World) (query : string) (limit : Z)
    (version : string) : M (list string) ToolResponse :=
  try_catch
    (results <- Native.searchAutoGenDocs w query limit version ;;
     if List.length results =? 0
     then ret (mkToolResponse (no_results_text query version) false)
     else ret (mkToolResponse (found_text results query version) false))
    (fun error =>
       ret (mkToolResponse ("Error searching AutoGen documentation: "
                            +++ exn_message error) true)).

(** *** More vocabulary *)

Definition chars_all (P : ascii -> Prop) (s : string) : Prop :=
  Forall P (list_ascii_of_string s).

Definition no_line_end (s : string) : bool :=
  forallb (fun c => negb (JS.is_line_end c)) (list_ascii_of_string s).

(** The five categories of the index search. *)
Definition index_types : list string :=
  ["API Reference"; "User Guide"; "Tutorial"; "Core Guide"; "Documentation"].

(** The marker terms of an MCP query. *)
Definition mcp_markers : list string :=
  ["mcp"; "model context protocol"; "autogen_ext"].

(** Samples for the server's module. *)
Definition native_offline : Native.World :=
  Native.mkWorld (fun _ _ => Ret not_found)
                 (fun _ => Ret (Native.mkPageView [] [] "" [] [])).

Definition native_search_world (query version : string) (view : Native.PageView)
  : Native.World :=
  Native.mkWorld (fun _ u => if String.eqb u (searchUrl_of query version)
                             then Ret (mkResponse true (Ret "<html>"))
                             else Ret not_found)
                 (fun _ => Ret view).

Definition native_results_view : Native.PageView :=
  Native.mkPageView
    [ mkResultLink "AssistantAgent" (Some "reference/agent.html")
                   "AssistantAgent (Python class, in autogen_agentchat.agents)" None ]
    [] "" [] [].

(** ** Sanity checks *)

Example run_index :
  searchAutoGenDocs (index_world "stable" (table ["Agent Introduction"; "Other"] ["python/agent-intro"; "misc"]))
                    "agent" 5 "stable" []
  = (Ret [mkResult "Agent Introduction"
                   "https://microsoft.github.io/autogen/stable/python/agent-intro.html"
                   "API Reference" "API Reference"],
     ["https://microsoft.github.io/autogen/stable/searchindex.js"]).
Proof. vm_compute. reflexivity. Qed.

Example run_offline :
  fst (searchAutoGenDocs offline_world "mcp" 5 "stable" []) = Ret [].
Proof. vm_compute. reflexivity. Qed.

(** A transport failure on every request: the index request is the only
    one made before the crawler takes over. *)
Example run_unreachable :
  searchAutoGenDocs unreachable_world "agent" 5 "stable" []
  = (Ret [], index_url "stable" :: map page_url (standard_pages (getVersionUrl "stable"))).
Proof. vm_compute. reflexivity. Qed.

(** A [null] title in the index: the [TypeError] ends the loop, what was
    pushed before stays, the sort is skipped. *)
Example run_malformed_index :
  performIndexSearch offline_world
    (VObj [("titles", VArr [VStr "Release notes"; VStr "Agent Introduction"; VNull; VStr "Agents"]);
           ("docnames", VArr [VStr "agent-changes"; VStr "python/agent-intro"; VStr "x"; VStr "agents"])])
    "agent" (getVersionUrl "stable") 5
  = [index_entry (getVersionUrl "stable") "Release notes" "agent-changes";
     index_entry (getVersionUrl "stable") "Agent Introduction" "python/agent-intro"].
Proof. vm_compute. reflexivity. Qed.

Example run_null_index :
  performIndexSearch offline_world VNull "agent" (getVersionUrl "stable") 5 = [].
Proof. reflexivity. Qed.

Example slice0_negative : slice0 (-1) [1; 2; 3] = [1; 2].
Proof. reflexivity. Qed.

Example split_ws_ex1 : JS.split_ws " a  b " = [""; "a"; "b"; ""].
Proof. reflexivity. Qed.
Example split_ws_ex2 : JS.split_ws "" = [""].
Proof. reflexivity. Qed.
Example match_paren_ex : JS.match_paren "x () (Python module, in core) (z)" = Some "Python module, in core".
Proof. reflexivity. Qed.
Example encode_ex : JS.encodeURIComponent "a b/c" = "a%20b%2Fc".
Proof. reflexivity. Qed.
Example setIndex_ex :
  JS.match_setIndex ("var x;" +++ String (ascii_of_nat 10) "Search.setIndex({});" +++ String (ascii_of_nat 10) "tail")
  = Some "{}".
Proof. reflexivity. Qed.
Example trim_ex : JS.trim "  a b  " = "a b".
Proof. reflexivity. Qed.
Example collapse_ex : JS.collapse_ws "a   b c" = "a b c".
Proof. reflexivity. Qed.
Example lower_ex : JS.toLowerCase "Agent Introduction" = "agent introduction".
Proof. reflexivity. Qed.

Example index_ranking_run :
  performIndexSearch offline_world
    (table ["Release notes"; "Agent Introduction"] ["agent-changes"; "python/agent-intro"])
    "agent" (getVersionUrl "stable") 2
  = [index_entry (getVersionUrl "stable") "Agent Introduction" "python/agent-intro";
     index_entry (getVersionUrl "stable") "Release notes" "agent-changes"].
Proof. vm_compute. reflexivity. Qed.

(** ** Facts about the string primitives *)

Section StringFacts.

Lemma prefix_app (t b : string) : String.prefix t (t +++ b) = true.
Proof.
  induction t as [|c t IH]; simpl.
  - destruct b; reflexivity.
  - destruct (ascii_dec c c) as [_|n]; [exact IH | now elim n].
Qed.

Lemma prefix_app_r (t s x : string) :
  String.prefix t s = true -> String.prefix t (s +++ x) = true.
Proof.
  revert s; induction t as [|c t IH]; intros s H.
  - destruct (s +++ x); reflexivity.
  - destruct s as [|d s]; [discriminate|]. simpl in H |- *. revert H.
    destruct (ascii_dec c d); [apply IH | discriminate].
Qed.

Lemma includes_prefix (s t : string) :
  String.prefix t s = true -> JS.includes s t = true.
Proof.
  destruct s; simpl; intros H; [exact H | now rewrite H].
Qed.

Lemma includes_cons (c : ascii) (s t : string) :
  JS.includes (String c s) t = (String.prefix t (String c s) || JS.includes s t)%bool.
Proof. reflexivity. Qed.

Lemma includes_app (a t b : string) : JS.includes (a +++ t +++ b) t = true.
Proof.
  induction a as [|c a IH].
  - change (EmptyString +++ t +++ b) with (t +++ b).
    apply includes_prefix, prefix_app.
  - change (String c a +++ t +++ b) with (String c (a +++ t +++ b)).
    rewrite includes_cons, IH. apply orb_true_r.
Qed.

Lemma includes_empty (s : string) : JS.includes s EmptyString = true.
Proof. destruct s; reflexivity. Qed.

Lemma includes_app_r (s t x : string) :
  JS.includes s t = true -> JS.includes (s +++ x) t = true.
Proof.
  induction s as [|c s IH]; intros H.
  - destruct t; [apply includes_empty | discriminate].
  - rewrite includes_cons in H.
    change (String c s +++ x) with (String c (s +++ x)). rewrite includes_cons.
    apply orb_true_iff in H. destruct H as [H|H].
    + apply (prefix_app_r _ _ x) in H.
      change (String c s +++ x) with (String c (s +++ x)) in H. now rewrite H.
    + rewrite (IH H). apply orb_true_r.
Qed.

Lemma includes_app_l (a s t : string) :
  JS.includes s t = true -> JS.includes (a +++ s) t = true.
Proof.
  intros H. induction a as [|c a IH]; [exact H|].
  change (String c a +++ s) with (String c (a +++ s)).
  rewrite includes_cons, IH. apply orb_true_r.
Qed.

Lemma substring0_length (n : nat) (s : string) :
  String.length (JS.substring0 n s) = Nat.min n (String.length s).
Proof.
  revert s; induction n as [|n IH]; intros [|c s]; simpl; auto.
Qed.

Lemma truthy_length (s : string) : JS.truthy s = true <-> 0 < String.length s.
Proof. unfold JS.truthy, JS.nonempty. apply Nat.ltb_lt. Qed.

Lemma truthy_nonempty (s : string) : JS.truthy s = true -> s <> EmptyString.
Proof. intros H ->. discriminate. Qed.

Lemma length_pos_nonempty (s : string) : 0 < String.length s -> s <> EmptyString.
Proof. intros H ->. simpl in H. lia. Qed.

Lemma app_nonempty_r (a b : string) : b <> EmptyString -> a +++ b <> EmptyString.
Proof. destruct a; simpl; [auto | discriminate]. Qed.

Lemma match_paren_nonempty (s g : string) :
  JS.match_paren s = Some g -> g <> EmptyString.
Proof.
  induction s as [|c s IH]; simpl; [discriminate|].
  destruct (Ascii.eqb c "("); [|exact IH].
  destruct (JS.until_close s) as [[|a g']|]; try exact IH.
  intros [= <-]. discriminate.
Qed.

End StringFacts.

(** ** Facts about [slice], [each] and the store *)

Section ListFacts.
Context {A : Type}.

Lemma firstn_incl (n : nat) (l : list A) (x : A) : In x (firstn n l) -> In x l.
Proof.
  revert n; induction l as [|y l IH]; intros [|n]; simpl; try tauto.
  intros [H|H]; [now left | right; eauto].
Qed.

Lemma slice0_length (limit : Z) (l : list A) :
  (0 <= limit)%Z -> (Z.of_nat (List.length (slice0 limit l)) <= limit)%Z.
Proof.
  intros H. unfold slice0.
  destruct (Z.leb_spec 0 limit); [|lia].
  rewrite length_firstn. lia.
Qed.

Lemma slice0_incl (limit : Z) (l : list A) (x : A) :
  In x (slice0 limit l) -> In x l.
Proof.
  unfold slice0. destruct (0 <=? limit)%Z; apply firstn_incl.
Qed.

Lemma slice0_all (limit : Z) (l : list A) :
  (Z.of_nat (List.length l) <= limit)%Z -> slice0 limit l = l.
Proof.
  intros H. unfold slice0.
  destruct (Z.leb_spec 0 limit); [|lia].
  apply firstn_all2. lia.
Qed.

Lemma slice0_nil (limit : Z) : slice0 limit (@nil A) = [].
Proof. unfold slice0. destruct (0 <=? limit)%Z; now rewrite firstn_nil. Qed.

Lemma firstn_NoDup {B : Type} (n : nat) (l : list B) : NoDup l -> NoDup (firstn n l).
Proof.
  revert n; induction l as [|x l IH]; intros [|n] H; simpl; try constructor.
  - inversion H as [|? ? Hx Hl]; subst. intros Hin. apply Hx.
    clear -Hin. revert n Hin. induction l as [|y l IHl]; intros [|n]; simpl; try tauto.
    intros [E|Hin]; [now left | right; eauto].
  - inversion H; subst. now apply IH.
Qed.

End ListFacts.

Lemma map_firstn {A B} (f : A -> B) n (l : list A) :
  map f (firstn n l) = firstn n (map f l).
Proof. symmetry. apply firstn_map. Qed.

Lemma slice0_map_NoDup {B} (f : SearchResult -> B) (limit : Z) (l : list SearchResult) :
  NoDup (map f l) -> NoDup (map f (slice0 limit l)).
Proof.
  unfold slice0. destruct (0 <=? limit)%Z; rewrite map_firstn; apply firstn_NoDup.
Qed.

Section EachFacts.
Context {A : Type}.
Variable callback : A -> list SearchResult -> option (list SearchResult).

(** A property of the accumulated array that every callback keeps holds
    at the end of the iteration. *)
Lemma each_invariant (Q : list SearchResult -> Prop) (elements : list A) :
  (forall x rs rs', In x elements -> Q rs -> callback x rs = Some rs' -> Q rs') ->
  forall results, Q results -> Q (each callback elements results).
Proof.
  induction elements as [|x r IH]; intros Hstep results HQ; simpl; auto.
  destruct (callback x results) as [rs'|] eqn:E; auto.
  apply IH; [intros; eapply Hstep; eauto; now right|].
  eapply Hstep; eauto. now left.
Qed.
End EachFacts.

(** ** The sort *)

Section SortFacts.
Variable key : SearchResult -> nat.

Lemma sort_insert_perm a l : Permutation (a :: l) (sort_insert key a l).
Proof.
  induction l as [|b r IH]; simpl; [reflexivity|].
  destruct (key b <=? key a); [reflexivity|].
  rewrite perm_swap. now constructor.
Qed.

Lemma sort_desc_perm l : Permutation l (sort_desc key l).
Proof.
  induction l as [|a r IH]; simpl; [constructor|].
  rewrite <- sort_insert_perm. now constructor.
Qed.

Lemma sort_desc_length l : List.length (sort_desc key l) = List.length l.
Proof. symmetry. apply Permutation_length, sort_desc_perm. Qed.

Lemma sort_insert_sorted a l :
  StronglySorted (desc key) l -> StronglySorted (desc key) (sort_insert key a l).
Proof.
  induction l as [|b r IH]; simpl; intros H.
  - repeat constructor.
  - inversion H as [|? ? Hr Hb]; subst.
    destruct (Nat.leb_spec (key b) (key a)) as [Hle|Hlt].
    + constructor; [exact H|]. constructor; [exact Hle|].
      eapply Forall_impl; [|exact Hb]. unfold desc. intros; lia.
    + constructor; [now apply IH|].
      eapply Permutation_Forall; [apply sort_insert_perm|].
      constructor; [unfold desc; lia | exact Hb].
Qed.

Lemma sort_desc_sorted l : StronglySorted (desc key) (sort_desc key l).
Proof.
  induction l as [|a r IH]; simpl; [constructor | now apply sort_insert_sorted].
Qed.
End SortFacts.

(** ** The search on the index: what the store can hold *)

Section IndexFacts.
Variable w : World.
Variables (titles docnames : value) (queryTerms : list string).
Variables (baseUrl : string) (limit : Z).
Variable P : SearchResult -> Prop.
Hypothesis P_entry : forall t d, P (index_entry baseUrl t d).

Lemma index_body_Forall i rs :
  Forall P rs ->
  Forall P (snd (index_body titles docnames queryTerms baseUrl i rs)).
Proof.
  intros H. unfold index_body, bind, as_string.
  destruct (get_index titles i); simpl; auto.
  destruct (get_index docnames i); simpl; auto.
  destruct (0 <? _); simpl; auto.
  apply Forall_app; split; auto. constructor; [apply P_entry | constructor].
Qed.

Lemma index_loop_Forall remaining : forall i rs,
  Forall P rs ->
  Forall P (snd (index_loop titles docnames queryTerms baseUrl limit remaining i rs)).
Proof.
  induction remaining as [|k IH]; intros i rs H; simpl; auto.
  unfold bind, get_store. destruct (below_limit rs limit); simpl; auto.
  pose proof (index_body_Forall i rs H) as Hb.
  destruct (index_body titles docnames queryTerms baseUrl i rs) as [[[]|e] rs']; simpl in *; auto.
Qed.
End IndexFacts.

Lemma performIndexSearch_Forall (P : SearchResult -> Prop) w searchData query baseUrl limit :
  (forall t d, P (index_entry baseUrl t d)) ->
  Forall P (performIndexSearch w searchData query baseUrl limit).
Proof.
  intros HP. unfold performIndexSearch.
  apply Forall_forall. intros r Hr. apply slice0_incl in Hr. revert r Hr.
  apply Forall_forall.
  unfold try_catch, bind, get_field, modify, ret, throw.
  destruct searchData; simpl; auto.
  destruct (value_truthy (lookup "titles" fields)); simpl; auto.
  destruct (value_truthy (lookup "docnames" fields)); simpl; auto.
  match goal with |- context [index_loop ?a ?b ?c ?d ?e ?f ?g ?h] =>
    pose proof (index_loop_Forall a b c d e P HP f g h (Forall_nil P)) as HL;
    destruct (index_loop a b c d e f g h) as [[[]|ex] rs']
  end; simpl in *; auto.
  eapply Permutation_Forall; [apply sort_desc_perm | exact HL].
Qed.

(** ** The scans: every pushed entry is well formed *)

Lemma or_else_bounded (a b : string) :
  String.length a <= 200 -> b <> EmptyString -> String.length b <= 200 ->
  JS.or_else a b <> EmptyString /\ String.length (JS.or_else a b) <= 200.
Proof.
  intros Ha Hb Hb'. unfold JS.or_else.
  destruct (JS.truthy a) eqn:E; split; auto. now apply truthy_nonempty.
Qed.

Lemma substring0_bounded (s : string) : String.length (JS.substring0 200 s) <= 200.
Proof. rewrite substring0_length. lia. Qed.

Lemma substring0_nonempty (n : nat) (s : string) :
  n < String.length s -> JS.substring0 200 s <> EmptyString.
Proof.
  intros H. apply length_pos_nonempty. rewrite substring0_length. lia.
Qed.

Lemma with_fragment_includes (u : string) (id : option string) (t : string) :
  JS.includes u t = true -> JS.includes (with_fragment u id) t = true.
Proof.
  intros H. unfold with_fragment. destruct (attr_truthy id); auto.
  now apply includes_app_r.
Qed.

Lemma Forall_push {A} (P : A -> Prop) (l : list A) (x : A) :
  Forall P l -> P x -> Forall P (l ++ [x]).
Proof. intros; apply Forall_app; split; auto. Qed.

Lemma result_link_step_ok baseUrl limit a rs rs' :
  Forall entry_ok rs ->
  result_link_step baseUrl limit a rs = Some rs' ->
  Forall entry_ok rs'.
Proof.
  intros H. unfold result_link_step.
  destruct (reached_limit rs limit); [discriminate|].
  destruct (_ || _); [now intros [= <-]|].
  destruct (negb (JS.includes _ DOC_DOMAIN)) eqn:Edom; [now intros [= <-]|].
  apply negb_false_iff in Edom.
  destruct (JS.match_paren (rl_parent_text a)) as [t|] eqn:Em.
  - pose proof (match_paren_nonempty _ _ Em) as Ht.
    assert (Htr : JS.truthy t = true)
      by (destruct t; [now elim Ht | reflexivity]).
    rewrite Htr. simpl negb. cbv iota.
    destruct (_ && _); intros [= <-]; auto.
    apply Forall_push; auto. split; [exact Edom|].
    unfold snippet_ok, JS.or_else; simpl. rewrite Htr. auto.
  - simpl negb. cbv iota.
    destruct (_ && _); intros [= <-]; auto.
    apply Forall_push; auto. split; [exact Edom|].
    unfold snippet_ok; simpl.
    destruct (rl_next a) as [nx|].
    + destruct (or_else_bounded (JS.substring0 200 (JS.trim nx)) "AutoGen documentation")
        as [H1 H2]; [apply substring0_bounded | discriminate | simpl; lia | auto].
    + split; [discriminate | left; simpl; lia].
Qed.

Lemma scan_search_page_ok baseUrl limit doc :
  Forall entry_ok (scan_search_page baseUrl limit doc).
Proof.
  unfold scan_search_page. apply each_invariant with (Q := Forall entry_ok).
  - intros x rs rs' _. apply result_link_step_ok.
  - constructor.
Qed.

Section PageScanFacts.
Variables (queryLower : string) (limit : Z) (page : Page) (linkBase : string).
Hypothesis page_in_domain : JS.includes (page_url page) DOC_DOMAIN = true.

Lemma heading_step_ok h rs rs' :
  Forall entry_ok rs -> heading_step queryLower limit page h rs = Some rs' ->
  Forall entry_ok rs'.
Proof.
  intros H. unfold heading_step.
  destruct (reached_limit rs limit); [discriminate|].
  destruct (JS.includes _ queryLower); intros [= <-]; auto.
  apply Forall_push; auto. split.
  - apply with_fragment_includes, page_in_domain.
  - unfold snippet_ok; cbn [snippet type title]. unfold JS.or_else.
    match goal with |- context [JS.truthy ?x] => destruct (JS.truthy x) eqn:E end.
    + split; [now apply truthy_nonempty | left; apply substring0_bounded].
    + split; [|now right; right].
      apply app_nonempty_r. discriminate.
Qed.

Lemma block_step_ok pageTitle b rs rs' :
  Forall entry_ok rs -> block_step queryLower limit page pageTitle b rs = Some rs' ->
  Forall entry_ok rs'.
Proof.
  intros H. unfold block_step.
  destruct (reached_limit rs limit); [discriminate|].
  destruct (_ && _) eqn:E; [|now intros [= <-]].
  apply andb_true_iff in E. destruct E as [_ E]. apply Nat.ltb_lt in E.
  destruct (negb _); intros [= <-]; auto.
  apply Forall_push; auto. split.
  - apply with_fragment_includes, page_in_domain.
  - split; simpl; [eapply substring0_nonempty; eauto | left; apply substring0_bounded].
Qed.

Lemma related_step_ok term e rs rs' :
  Forall entry_ok rs -> related_step limit page term e rs = Some rs' ->
  Forall entry_ok rs'.
Proof.
  intros H. unfold related_step.
  destruct (reached_limit rs limit); [discriminate|].
  destruct (_ && _) eqn:E; [|now intros [= <-]].
  apply andb_true_iff in E. destruct E as [_ E]. apply Nat.ltb_lt in E.
  destruct (negb (dup_url_and_title _ _ _)); intros [= <-]; auto.
  apply Forall_push; auto. split.
  - apply with_fragment_includes, page_in_domain.
  - split; simpl; [eapply substring0_nonempty; eauto | left; apply substring0_bounded].
Qed.

Lemma link_step_ok a rs rs' :
  Forall entry_ok rs -> link_step queryLower limit page linkBase a rs = Some rs' ->
  Forall entry_ok rs'.
Proof.
  intros H. unfold link_step.
  destruct (reached_limit rs limit); [discriminate|].
  destruct (_ || _ || _); [now intros [= <-]|].
  destruct (negb (JS.includes _ DOC_DOMAIN)) eqn:Edom; [now intros [= <-]|].
  apply negb_false_iff in Edom.
  destruct (_ || _); [|now intros [= <-]].
  destruct (negb (dup_url_or_title _ _ _)); intros [= <-]; auto.
  apply Forall_push; auto. split; [exact Edom|].
  unfold snippet_ok; simpl.
  match goal with |- JS.or_else ?a ?b <> _ /\ _ =>
    destruct (or_else_bounded a b) as [H1 H2];
      [apply substring0_bounded | discriminate | simpl; lia | auto]
  end.
Qed.

Lemma scan_page_ok isMcpQuery doc rs :
  Forall entry_ok rs ->
  Forall entry_ok (scan_page queryLower limit page linkBase isMcpQuery doc rs).
Proof.
  intros H. unfold scan_page.
  apply each_invariant with (Q := Forall entry_ok);
    [intros x r r' _; apply link_step_ok|].
  assert (H1 : Forall entry_ok
                 (if JS.includes (JS.toLowerCase (doc_content doc)) queryLower
                  then each (block_step queryLower limit page
                               (JS.or_else (doc_title doc) (doc_h1 doc)))
                            (doc_blocks doc)
                            (each (heading_step queryLower limit page)
                                  (doc_headings doc) rs)
                  else rs)).
  { destruct (JS.includes _ queryLower); auto.
    apply each_invariant with (Q := Forall entry_ok);
      [intros x r r' _; apply block_step_ok|].
    apply each_invariant with (Q := Forall entry_ok);
      [intros x r r' _; apply heading_step_ok | exact H]. }
  destruct isMcpQuery; auto.
  revert H1. generalize (if JS.includes (JS.toLowerCase (doc_content doc)) queryLower
                  then each (block_step queryLower limit page
                               (JS.or_else (doc_title doc) (doc_h1 doc)))
                            (doc_blocks doc)
                            (each (heading_step queryLower limit page)
                                  (doc_headings doc) rs)
                  else rs).
  generalize mcpRelatedTerms.
  intros terms; induction terms as [|t ts IH]; intros l Hl; simpl; auto.
  apply IH. unfold related_term_pass.
  destruct (reached_limit l limit); auto.
  destruct (JS.includes _ t); auto.
  apply each_invariant with (Q := Forall entry_ok);
    [intros x r r' _; apply related_step_ok | exact Hl].
Qed.
End PageScanFacts.

(** ** Removing duplicate addresses *)

Section FindIndexFacts.
Context {A : Type}.
Variable p : A -> bool.

Lemma findIndex_none (l : list A) : existsb p l = false -> findIndex p l = None.
Proof.
  induction l as [|x r IH]; simpl; auto.
  destruct (p x); simpl; [discriminate|]. intros H. now rewrite IH.
Qed.

Lemma findIndex_bound (l : list A) j : findIndex p l = Some j -> j < List.length l.
Proof.
  revert j; induction l as [|x r IH]; simpl; intros j; [discriminate|].
  destruct (p x); [intros [= <-]; lia|].
  destruct (findIndex p r) as [k|]; simpl; [|discriminate].
  intros [= <-]. specialize (IH k eq_refl). lia.
Qed.

Lemma findIndex_some (l : list A) : existsb p l = true -> exists j, findIndex p l = Some j.
Proof.
  induction l as [|x r IH]; simpl; [discriminate|].
  destruct (p x); simpl; [eauto|]. intros H. destruct (IH H) as [j ->]. simpl; eauto.
Qed.

Lemma findIndex_app (pre suf : list A) :
  findIndex p (pre ++ suf) =
  match findIndex p pre with
  | Some j => Some j
  | None => option_map (Nat.add (List.length pre)) (findIndex p suf)
  end.
Proof.
  induction pre as [|x r IH]; simpl.
  - destruct (findIndex p suf); reflexivity.
  - destruct (p x); auto. rewrite IH.
    destruct (findIndex p r); simpl; auto.
    destruct (findIndex p suf); reflexivity.
Qed.
End FindIndexFacts.

Lemma existsb_urls (u : string) (pre : list SearchResult) :
  existsb (String.eqb u) (map url pre)
  = existsb (fun r => String.eqb (url r) u) pre.
Proof.
  induction pre as [|x r IH]; simpl; auto.
  now rewrite IH, String.eqb_sym.
Qed.

Lemma first_by_url_ext (l : list SearchResult) : forall seen1 seen2,
  (forall u, existsb (String.eqb u) seen1 = existsb (String.eqb u) seen2) ->
  first_by_url seen1 l = first_by_url seen2 l.
Proof.
  induction l as [|x l IH]; intros seen1 seen2 H; simpl; auto.
  rewrite (H (url x)). destruct (existsb _ seen2); [now apply IH|].
  f_equal. apply IH. intros u. now rewrite !existsb_app, H.
Qed.

Lemma filter_indexed_first (self pre suf : list SearchResult) :
  self = pre ++ suf ->
  filter_indexed
    (fun result index =>
       is_index index (findIndex (fun r => String.eqb (url r) (url result)) self))
    (List.length pre) suf
  = first_by_url (map url pre) suf.
Proof.
  revert pre; induction suf as [|x suf IH]; intros pre E; simpl; auto.
  assert (E' : self = (pre ++ [x]) ++ suf) by now rewrite <- app_assoc.
  specialize (IH (pre ++ [x]) E').
  rewrite length_app, Nat.add_1_r, map_app in IH. simpl in IH.
  rewrite existsb_urls, E, findIndex_app.
  destruct (existsb (fun r => String.eqb (url r) (url x)) pre) eqn:Ex.
  - destruct (findIndex_some _ _ Ex) as [j Hj]. rewrite Hj.
    pose proof (findIndex_bound _ _ _ Hj) as Hlt. simpl.
    destruct (Nat.eqb_spec (List.length pre) j); [lia|].
    rewrite <- E, IH. apply first_by_url_ext. intros u.
    rewrite existsb_app. simpl. rewrite orb_false_r.
    destruct (String.eqb_spec u (url x)) as [->|]; [|apply orb_false_r].
    rewrite existsb_urls, Ex. reflexivity.
  - rewrite (findIndex_none _ _ Ex). simpl. rewrite String.eqb_refl. simpl.
    rewrite Nat.add_0_r, Nat.eqb_refl. now rewrite <- E, IH.
Qed.

(** The filter of the source is the first-occurrence filter. *)
Lemma uniqueResults_first (results : list SearchResult) :
  uniqueResults_of results = first_by_url [] results.
Proof. apply (filter_indexed_first results [] results eq_refl). Qed.

Lemma first_by_url_spec (l : list SearchResult) : forall seen,
  NoDup (map url (first_by_url seen l))
  /\ (forall r, In r (first_by_url seen l) -> In r l /\ ~ In (url r) seen).
Proof.
  induction l as [|x l IH]; intros seen; simpl.
  - split; [constructor | tauto].
  - destruct (existsb (String.eqb (url x)) seen) eqn:E.
    + destruct (IH seen) as [H1 H2]. split; auto.
      intros r Hr. destruct (H2 r Hr). auto.
    + destruct (IH (seen ++ [url x])) as [H1 H2]. split.
      * simpl. constructor; auto. intros Hin.
        apply in_map_iff in Hin. destruct Hin as [r [Hu Hr]].
        destruct (H2 r Hr) as [_ Hn]. apply Hn. rewrite Hu.
        apply in_or_app. right. now left.
      * intros r [<-|Hr].
        -- split; auto. intros Hin.
           assert (existsb (String.eqb (url x)) seen = true); [|congruence].
           apply existsb_exists. exists (url x). split; auto. apply String.eqb_refl.
        -- destruct (H2 r Hr) as [Ha Hb]. split; auto.
           intros Hin. apply Hb. apply in_or_app. now left.
Qed.

Lemma uniqueResults_incl (results : list SearchResult) r :
  In r (uniqueResults_of results) -> In r results.
Proof.
  rewrite uniqueResults_first. intros H.
  now destruct (first_by_url_spec results []) as [_ H2]; destruct (H2 r H).
Qed.

Lemma uniqueResults_NoDup (results : list SearchResult) :
  NoDup (map url (uniqueResults_of results)).
Proof. rewrite uniqueResults_first. apply first_by_url_spec. Qed.

(** ** The crawler and the entry point: shape of a run *)

Lemma page_urls_in_domain isMcpQuery version page :
  In page (pagesToSearch_of isMcpQuery (getVersionUrl version)) ->
  JS.includes (page_url page) DOC_DOMAIN = true.
Proof.
  destruct isMcpQuery; unfold pagesToSearch_of, mcp_pages, standard_pages; intros H.
  - repeat (destruct H as [<-|H]; [reflexivity|]). destruct H.
  - repeat (destruct H as [<-|H];
            [apply includes_app_r;
             apply (includes_app "https://" DOC_DOMAIN ("/" +++ version))|]).
    destruct H.
Qed.

Section CrawlFacts.
Variables (w : World) (queryLower : string) (limit : Z).
Variables (isMcpQuery : bool) (baseUrl : string).

Lemma visit_page_run page results log :
  exists results',
    visit_page w queryLower limit isMcpQuery baseUrl page results log
    = (Ret results', log ++ [page_url page])
    /\ (results' = results
        \/ exists doc, results' = scan_page queryLower limit page
                 (if isMcpQuery then mcpBaseUrl else baseUrl) isMcpQuery doc results).
Proof.
  unfold visit_page, try_catch, bind, fetch, lift_outcome, ret.
  destruct (http w log (page_url page)) as [resp|e]; [|eauto].
  destruct (ok resp); simpl; [|eauto].
  destruct (text resp) as [html|e]; [|eauto].
  destruct (cheerio_load w html) as [doc|e]; eauto 6.
Qed.

Lemma crawl_run (Q : list SearchResult -> Prop) (pages : list Page) :
  (forall page doc rs, In page pages -> Q rs ->
      Q (scan_page queryLower limit page
                 (if isMcpQuery then mcpBaseUrl else baseUrl) isMcpQuery doc rs)) ->
  forall results log, Q results ->
  exists rs log', crawl w queryLower limit isMcpQuery baseUrl pages results log
                  = (Ret rs, log') /\ Q rs.
Proof.
  induction pages as [|page rest IH]; intros Hstep results log HQ; simpl.
  - unfold ret; eauto.
  - destruct (reached_limit results limit); [unfold ret; eauto|].
    unfold bind.
    destruct (visit_page_run page results log) as [results' [-> Hres]].
    apply IH; [intros; apply Hstep; auto; now right|].
    destruct Hres as [->|[doc ->]]; auto. apply Hstep; auto. now left.
Qed.
End CrawlFacts.

Lemma fallbackSearch_run (Q : list SearchResult -> Prop) w query limit version :
  (forall page doc rs,
      In page (pagesToSearch_of (isMcpQuery_of (JS.toLowerCase query)) (getVersionUrl version)) ->
      Q rs ->
      Q (scan_page (JS.toLowerCase query) limit page
           (if isMcpQuery_of (JS.toLowerCase query) then mcpBaseUrl else getVersionUrl version)
           (isMcpQuery_of (JS.toLowerCase query)) doc rs)) ->
  Q [] ->
  forall log, exists collected log',
    fallbackSearch w query limit version log
    = (Ret (slice0 limit (uniqueResults_of collected)), log')
    /\ Q collected.
Proof.
  intros Hstep Hnil log. unfold fallbackSearch, bind.
  destruct (crawl_run w (JS.toLowerCase query) limit _ _ Q _ Hstep [] log Hnil)
    as [rs [log' [-> HQ]]].
  unfold ret. eauto.
Qed.

(** Every run of the entry point returns, and what it returns comes from one
    of the three strategies. *)
Lemma searchAutoGenDocs_run w query limit version log :
  exists rs log',
    searchAutoGenDocs w query limit version log = (Ret rs, log')
    /\ ((exists searchData,
            rs = performIndexSearch w searchData query (getVersionUrl version) limit)
        \/ (exists doc,
               rs = slice0 limit (scan_search_page (getVersionUrl version) limit doc))
        \/ (exists log0, fallbackSearch w query limit version log0 = (Ret rs, log'))).
Proof.
  assert (FB : forall log0, exists rs log',
             fallbackSearch w query limit version log0 = (Ret rs, log')).
  { intros log0.
    destruct (fallbackSearch_run (fun _ => True) w query limit version
                (fun _ _ _ _ _ => I) I log0) as [c [log' [E _]]]. eauto. }
  unfold searchAutoGenDocs, try_catch, enhanced_search, bind.
  unfold index_strategy, bind, fetch, lift_outcome, ret.
  destruct (http w log _) as [resp|e];
    [|destruct (FB (log ++ [index_url version]))
        as [rs [log' E]]; rewrite E; eauto 8].
  set (log1 := log ++ [index_url version]).
  assert (LATER : exists rs log',
             match later_strategies w query limit version log1 with
             | (Ret a, s') => (Ret a, s')
             | (Throw e, s') => fallbackSearch w query limit version s'
             end = (Ret rs, log')
             /\ ((exists doc,
                    rs = slice0 limit (scan_search_page (getVersionUrl version) limit doc))
                 \/ (exists log0, fallbackSearch w query limit version log0 = (Ret rs, log')))).
  { unfold later_strategies, page_strategy, bind, fetch, lift_outcome, ret.
    destruct (http w log1 _) as [resp'|e];
      [|destruct (FB (log1 ++ [searchUrl_of query version])) as [rs [log' E]];
        rewrite E; eauto 8].
    destruct (ok resp').
    - destruct (text resp') as [html|e];
        [|destruct (FB (log1 ++ [searchUrl_of query version])) as [rs [log' E]];
          rewrite E; eauto 8].
      destruct (cheerio_load w html) as [doc|e];
        [|destruct (FB (log1 ++ [searchUrl_of query version])) as [rs [log' E]];
          rewrite E; eauto 8].
      destruct (0 <? _); [eauto 8|].
      destruct (FB (log1 ++ [searchUrl_of query version])) as [rs [log' E]];
        rewrite E; eauto 8.
    - destruct (FB (log1 ++ [searchUrl_of query version])) as [rs [log' E]];
        rewrite E; eauto 8. }
  destruct (ok resp).
  - destruct (text resp) as [content|e];
      [|destruct (FB log1) as [rs [log' E]]; rewrite E; eauto 8].
    unfold try_index, try_catch, bind, lift_outcome, ret.
    destruct (JS.match_setIndex content) as [g|].
    + destruct (JSON_parse w g) as [sd|e].
      * destruct (0 <? _); [eauto 8|].
        destruct LATER as [rs [log' [E H]]]. exists rs, log'. split; auto.
      * destruct LATER as [rs [log' [E H]]]. exists rs, log'. split; auto.
    + destruct LATER as [rs [log' [E H]]]. exists rs, log'. split; auto.
  - destruct LATER as [rs [log' [E H]]]. exists rs, log'. split; auto.
Qed.

Lemma visit_page_unavailable w queryLower limit isMcpQuery baseUrl page results log :
  unavailable (http w log (page_url page)) = true ->
  visit_page w queryLower limit isMcpQuery baseUrl page results log
  = (Ret results, log ++ [page_url page]).
Proof.
  unfold visit_page, try_catch, bind, fetch, unavailable, ret.
  destruct (http w log (page_url page)) as [resp|e]; auto.
  destruct (ok resp); simpl; [discriminate | auto].
Qed.

Lemma crawl_unavailable w queryLower limit isMcpQuery baseUrl pages :
  (forall h page, In page pages -> unavailable (http w h (page_url page)) = true) ->
  forall results log, exists log',
    crawl w queryLower limit isMcpQuery baseUrl pages results log = (Ret results, log').
Proof.
  induction pages as [|page rest IH]; intros H results log; simpl.
  - unfold ret; eauto.
  - destruct (reached_limit results limit); [unfold ret; eauto|].
    unfold bind. rewrite visit_page_unavailable by (apply H; now left).
    apply IH. intros; apply H; now right.
Qed.

Lemma fallbackSearch_unavailable w query limit version :
  (forall h page,
      In page (pagesToSearch_of (isMcpQuery_of (JS.toLowerCase query)) (getVersionUrl version)) ->
      unavailable (http w h (page_url page)) = true) ->
  forall log, fst (fallbackSearch w query limit version log) = Ret [].
Proof.
  intros H log. unfold fallbackSearch, bind.
  destruct (crawl_unavailable w (JS.toLowerCase query) limit
              (isMcpQuery_of (JS.toLowerCase query)) (getVersionUrl version) _ H [] log)
    as [log' ->].
  unfold ret, uniqueResults_of; simpl. now rewrite slice0_nil.
Qed.

(** Every entry of every returned sequence is well formed. *)
Lemma searchAutoGenDocs_entries_ok w query limit version log rs :
  fst (searchAutoGenDocs w query limit version log) = Ret rs ->
  Forall entry_ok rs.
Proof.
  intros E.
  destruct (searchAutoGenDocs_run w query limit version log) as [rs' [log' [R H]]].
  rewrite R in E. simpl in E. injection E as <-.
  destruct H as [[sd ->]|[[doc ->]|[log0 F]]].
  - apply performIndexSearch_Forall. intros t d. split.
    + unfold url_ok, index_entry, getVersionUrl, AUTOGEN_BASE_URL; simpl url.
      apply (includes_app "https://" DOC_DOMAIN).
    + unfold snippet_ok, index_entry, type_of_docname; simpl.
      repeat destruct (JS.includes d _); (split; [discriminate | now right; left]).
  - apply Forall_forall. intros r Hr. apply slice0_incl in Hr. revert r Hr.
    apply Forall_forall, scan_search_page_ok.
  - destruct (fallbackSearch_run (Forall entry_ok) w query limit version) with (log := log0)
      as [c [log'' [F' Hc]]].
    + intros page doc rs Hin Hrs. apply scan_page_ok; auto.
      eapply page_urls_in_domain; eauto.
    + constructor.
    + rewrite F in F'. injection F' as -> _.
      apply Forall_forall. intros r Hr. apply slice0_incl, uniqueResults_incl in Hr.
      revert r Hr. now apply Forall_forall.
Qed.

(** ** Properties of the resolution engine *)

(** C3. For a limit L >= 0 a returned sequence has at most L entries, on
    every strategy path; L = 0 gives the empty sequence. *)
Theorem C3_length_bound (w : World) (query : string) (limit : Z) (version : string)
    (log : list string) (rs : list SearchResult) :
  (0 <= limit)%Z ->
  fst (searchAutoGenDocs w query limit version log) = Ret rs ->
  (Z.of_nat (List.length rs) <= limit)%Z /\ (limit = 0%Z -> rs = []).
Proof.
  intros Hl E.
  assert (B : (Z.of_nat (List.length rs) <= limit)%Z).
  { destruct (searchAutoGenDocs_run w query limit version log) as [rs' [log' [R H]]].
    rewrite R in E. simpl in E. injection E as <-.
    destruct H as [[sd ->]|[[doc ->]|[log0 F]]].
    - unfold performIndexSearch. now apply slice0_length.
    - now apply slice0_length.
    - destruct (fallbackSearch_run (fun _ => True) w query limit version
                  (fun _ _ _ _ _ => I) I log0) as [c [log'' [F' _]]].
      rewrite F in F'. injection F' as -> _. now apply slice0_length. }
  split; [exact B|]. intros ->. destruct rs; [reflexivity | simpl in B; lia].
Qed.

(** Two documents match, the limit is 1, one entry is returned. *)
Lemma C3_witness :
  (Z.of_nat (List.length
     [index_entry (getVersionUrl "stable") "Agent Introduction" "python/agent-intro"]) <= 1)%Z.
Proof.
  apply (C3_length_bound
           (index_world "stable"
              (table ["Agent Introduction"; "Agents"] ["python/agent-intro"; "agents"]))
           "agent" 1 "stable" []); [lia | vm_compute; reflexivity].
Defined.

(** C2, as stated, fails: neither the native search page path nor the search
    index path removes duplicate addresses.  The first run returns two
    entries for [reference/agent.html]; the second returns two entries for a
    document name listed twice in the index. *)
Lemma C2_counterexample :
  (exists rs,
      fst (searchAutoGenDocs (search_page_world "agent" "stable" twin_links_document)
                             "agent" 5 "stable" []) = Ret rs
      /\ ~ NoDup (map url rs))
  /\ (exists rs,
      fst (searchAutoGenDocs
             (index_world "stable" (table ["Agents"; "Agents (old)"] ["agents"; "agents"]))
             "agent" 5 "stable" []) = Ret rs
      /\ ~ NoDup (map url rs)).
Proof.
  split; eexists; (split; [vm_compute; reflexivity|]);
    intros H; inversion H as [|? ? Hn _]; subst; apply Hn; now left.
Qed.

Lemma first_by_url_first (l : list SearchResult) : forall seen r,
  In r (first_by_url seen l) ->
  exists before after,
    l = before ++ r :: after
    /\ ~ In (url r) (map url before) /\ ~ In (url r) seen.
Proof.
  induction l as [|x l IH]; intros seen r; simpl; [tauto|].
  destruct (existsb (String.eqb (url x)) seen) eqn:E.
  - intros H. destruct (IH _ _ H) as [b [a [-> [Hb Hs]]]].
    exists (x :: b), a. repeat split; auto.
    simpl. intros [Hx|Hx]; [|auto]. apply Hs. rewrite <- Hx.
    apply existsb_exists in E. destruct E as [u [Hu Eu]].
    apply String.eqb_eq in Eu. now subst.
  - assert (Hn : ~ In (url x) seen).
    { intros H. assert (existsb (String.eqb (url x)) seen = true); [|congruence].
      apply existsb_exists. exists (url x). split; auto. apply String.eqb_refl. }
    intros [<-|H].
    + exists [], l. repeat split; auto.
    + destruct (IH _ _ H) as [b [a [-> [Hb Hs]]]].
      exists (x :: b), a. repeat split; auto.
      * simpl. intros [Hx|Hx]; [|auto]. apply Hs, in_or_app. right. now left.
      * intros Hx. apply Hs, in_or_app. now left.
Qed.

Lemma first_by_url_order (l : list SearchResult) : forall seen pre r1 mid r2 suf,
  first_by_url seen l = pre ++ r1 :: mid ++ r2 :: suf ->
  exists a b c, l = a ++ r1 :: b ++ r2 :: c.
Proof.
  induction l as [|x l IH]; intros seen pre r1 mid r2 suf; simpl.
  - intros H. now destruct pre.
  - destruct (existsb (String.eqb (url x)) seen).
    + intros H. destruct (IH _ _ _ _ _ _ H) as [a [b [c ->]]].
      now exists (x :: a), b, c.
    + destruct pre as [|p pre]; simpl; intros [= -> H].
      * assert (Hin : In r2 (first_by_url (seen ++ [url r1]) l))
          by (rewrite H; apply in_or_app; right; now left).
        destruct (first_by_url_spec l (seen ++ [url r1])) as [_ S].
        destruct (in_split _ _ (proj1 (S _ Hin))) as [b [c ->]].
        now exists [], b, c.
      * destruct (IH _ _ _ _ _ _ H) as [a [b [c ->]]].
        now exists (p :: a), b, c.
Qed.

(** C2, amended. The crawler removes duplicate addresses from the array
    [collected] that its loop over the pages leaves, and truncates after
    that: the sequence it returns has no two entries with the same address,
    every entry kept is the first entry of [collected] with its address, and
    the kept entries stand in the order they have in [collected]. *)
Theorem C2_crawler_dedup (w : World) (query : string) (limit : Z) (version : string)
    (log : list string) :
  let queryLower := JS.toLowerCase query in
  let isMcpQuery := isMcpQuery_of queryLower in
  let baseUrl := getVersionUrl version in
  exists collected log',
    crawl w queryLower limit isMcpQuery baseUrl
          (pagesToSearch_of isMcpQuery baseUrl) [] log = (Ret collected, log')
    /\ fallbackSearch w query limit version log
       = (Ret (slice0 limit (first_by_url [] collected)), log')
    /\ NoDup (map url (slice0 limit (first_by_url [] collected)))
    /\ (forall r, In r (first_by_url [] collected) ->
          exists before after,
            collected = before ++ r :: after /\ ~ In (url r) (map url before))
    /\ (forall pre r1 mid r2 suf,
          first_by_url [] collected = pre ++ r1 :: mid ++ r2 :: suf ->
          exists a b c, collected = a ++ r1 :: b ++ r2 :: c).
Proof.
  cbv zeta.
  destruct (crawl_run w (JS.toLowerCase query) limit
              (isMcpQuery_of (JS.toLowerCase query)) (getVersionUrl version)
              (fun _ => True)
              (pagesToSearch_of (isMcpQuery_of (JS.toLowerCase query))
                                (getVersionUrl version))
              (fun _ _ _ _ _ => I) [] log I)
    as [collected [log' [E _]]].
  exists collected, log'. split; [exact E|]. split; [|split; [|split]].
  - unfold fallbackSearch, bind. rewrite E. unfold ret.
    now rewrite uniqueResults_first.
  - rewrite <- uniqueResults_first. apply slice0_map_NoDup, uniqueResults_NoDup.
  - intros r Hr. destruct (first_by_url_first _ _ _ Hr) as [b [a [H1 [H2 _]]]]. eauto.
  - apply first_by_url_order.
Qed.

(** C5, as stated, fails on the two paths it names: a parenthetical
    annotation of 201 characters becomes the snippet as it is, and so does
    the line synthesized from the category and a heading of 256 characters. *)
Lemma C5_counterexample :
  (exists rs r,
      fst (searchAutoGenDocs (search_page_world "agent" "stable" annotated_document)
                             "agent" 5 "stable" []) = Ret rs
      /\ In r rs /\ 200 < String.length (snippet r))
  /\ (exists rs r,
      fst (searchAutoGenDocs (one_page_world user_guide_url long_heading_document)
                             "agent" 5 "stable" []) = Ret rs
      /\ In r rs /\ 200 < String.length (snippet r)).
Proof.
  split; do 2 eexists; (split; [vm_compute; reflexivity|]);
    (split; [now left|]); vm_compute; lia.
Qed.

(** C5, amended. No entry of a returned sequence has an empty snippet, and a
    snippet is at most 200 characters long unless it is the entry's category
    (on the native search page path: the parenthetical annotation) or the
    line made of the category, a colon and the title (heading scan of the
    crawler). *)
Theorem C5_snippets (w : World) (query : string) (limit : Z) (version : string)
    (log : list string) (rs : list SearchResult) (r : SearchResult) :
  fst (searchAutoGenDocs w query limit version log) = Ret rs ->
  In r rs ->
  snippet r <> EmptyString
  /\ (String.length (snippet r) <= 200
      \/ snippet r = type r
      \/ snippet r = type r +++ ": " +++ title r).
Proof.
  intros E Hr. apply searchAutoGenDocs_entries_ok in E.
  rewrite Forall_forall in E. now destruct (E r Hr).
Qed.

(** The over-long annotation is kept as it is, and it is not empty. *)
Lemma C5_witness :
  snippet (mkResult "AssistantAgent"
                    (getVersionUrl "stable" +++ "/reference/agent.html")
                    long_annotation long_annotation) <> EmptyString.
Proof.
  refine (proj1 (C5_snippets
           (search_page_world "agent" "stable" annotated_document)
           "agent" 5 "stable" [] _ _ _ _)); [vm_compute; reflexivity | now left].
Defined.

(** ** The order of the strategies *)

Lemma index_strategy_log w query limit version log :
  snd (index_strategy w query limit version log) = log ++ [index_url version].
Proof.
  unfold index_strategy, bind, fetch, lift_outcome, ret, index_url.
  destruct (http w log _) as [resp|e]; auto.
  destruct (ok resp); auto.
  destruct (text resp) as [content|e]; auto.
  unfold try_index, try_catch, bind, lift_outcome, ret.
  destruct (JS.match_setIndex content) as [g|]; auto.
  destruct (JSON_parse w g) as [sd|e]; auto.
  destruct (0 <? _); auto.
Qed.

Lemma index_strategy_some w query limit version log rs lg :
  index_strategy w query limit version log = (Ret (Some rs), lg) ->
  rs <> [] /\ exists searchData,
    rs = performIndexSearch w searchData query (getVersionUrl version) limit.
Proof.
  unfold index_strategy, bind, fetch, lift_outcome, ret.
  destruct (http w log _) as [resp|e]; [|discriminate].
  destruct (ok resp); [|discriminate].
  destruct (text resp) as [content|e]; [|discriminate].
  unfold try_index, try_catch, bind, lift_outcome, ret.
  destruct (JS.match_setIndex content) as [g|]; [|discriminate].
  destruct (JSON_parse w g) as [sd|e]; [|discriminate].
  destruct (Nat.ltb_spec 0 (List.length (performIndexSearch w sd query (getVersionUrl version) limit)))
    as [Hpos|]; [|discriminate].
  intros [= <- _]. split; [|eauto].
  intros E. rewrite E in Hpos. simpl in Hpos. lia.
Qed.

Lemma result_link_step_length baseUrl limit a rs rs' :
  result_link_step baseUrl limit a rs = Some rs' ->
  rs' = rs \/ (List.length rs' = S (List.length rs)
               /\ (Z.of_nat (List.length rs) < limit)%Z).
Proof.
  unfold result_link_step, reached_limit.
  destruct (Z.leb_spec limit (Z.of_nat (List.length rs))); [discriminate|].
  destruct (_ || _); [intros [= <-]; now left|].
  destruct (negb (JS.includes _ DOC_DOMAIN)); [intros [= <-]; now left|].
  destruct (JS.match_paren _); cbv zeta;
    (destruct (_ && _); intros [= <-]; [right | now left]);
    rewrite length_app; simpl; split; lia.
Qed.

Lemma scan_search_page_length baseUrl limit doc :
  scan_search_page baseUrl limit doc = []
  \/ (Z.of_nat (List.length (scan_search_page baseUrl limit doc)) <= limit)%Z.
Proof.
  unfold scan_search_page.
  apply each_invariant
    with (Q := fun rs => rs = [] \/ (Z.of_nat (List.length rs) <= limit)%Z);
    [|now left].
  intros x rs rs' _ HQ Hs.
  destruct (result_link_step_length _ _ _ _ _ Hs) as [->|[Hl Hlt]]; auto.
  right. rewrite Hl. lia.
Qed.

Lemma page_strategy_log w query limit version log :
  snd (page_strategy w query limit version log) = log ++ [searchUrl_of query version].
Proof.
  unfold page_strategy, bind, fetch, lift_outcome, ret.
  destruct (http w log _) as [resp|e]; auto.
  destruct (ok resp); auto.
  destruct (text resp) as [html|e]; auto.
  destruct (cheerio_load w html) as [doc|e]; auto.
  destruct (0 <? _); auto.
Qed.

Lemma page_strategy_some w query limit version log rs lg :
  page_strategy w query limit version log = (Ret (Some rs), lg) ->
  rs <> [] /\ exists doc, rs = scan_search_page (getVersionUrl version) limit doc.
Proof.
  unfold page_strategy, bind, fetch, lift_outcome, ret.
  destruct (http w log _) as [resp|e]; [|discriminate].
  destruct (ok resp); [|discriminate].
  destruct (text resp) as [html|e]; [|discriminate].
  destruct (cheerio_load w html) as [doc|e]; [|discriminate].
  destruct (Nat.ltb_spec 0 (List.length
              (scan_search_page (getVersionUrl version) limit doc)))
    as [Hpos|]; [|discriminate].
  intros [= <- _].
  destruct (scan_search_page_length (getVersionUrl version) limit doc)
    as [E|Hle]; [rewrite E in Hpos; simpl in Hpos; lia|].
  rewrite slice0_all by exact Hle. split; [|eauto].
  intros E. rewrite E in Hpos. simpl in Hpos. lia.
Qed.

Lemma fallbackSearch_returns w query limit version log :
  exists rs log', fallbackSearch w query limit version log = (Ret rs, log').
Proof.
  destruct (fallbackSearch_run (fun _ => True) w query limit version
              (fun _ _ _ _ _ => I) I log) as [c [log' [E _]]]. eauto.
Qed.

(** ** The cascade, read off the answers of the world *)

(** What the crawler adds to the requests: the addresses of the first pages
    of its list. *)
Lemma crawl_log w queryLower limit isMcpQuery baseUrl pages : forall results log,
  exists k,
    snd (crawl w queryLower limit isMcpQuery baseUrl pages results log)
    = log ++ map page_url (firstn k pages).
Proof.
  induction pages as [|page rest IH]; intros results log; simpl.
  - exists 0. now rewrite app_nil_r.
  - destruct (reached_limit results limit).
    + exists 0. simpl. now rewrite app_nil_r.
    + unfold bind.
      destruct (visit_page_run w queryLower limit isMcpQuery baseUrl page results log)
        as [results' [-> _]].
      destruct (IH results' (log ++ [page_url page])) as [k Hk].
      exists (S k). rewrite Hk. simpl. now rewrite <- app_assoc.
Qed.

Lemma fallbackSearch_log w query limit version log :
  exists k,
    snd (fallbackSearch w query limit version log)
    = log ++ map page_url
               (firstn k (pagesToSearch_of (isMcpQuery_of (JS.toLowerCase query))
                                           (getVersionUrl version))).
Proof.
  unfold fallbackSearch, bind.
  destruct (crawl_log w (JS.toLowerCase query) limit
              (isMcpQuery_of (JS.toLowerCase query)) (getVersionUrl version)
              (pagesToSearch_of (isMcpQuery_of (JS.toLowerCase query))
                                (getVersionUrl version)) [] log) as [k Hk].
  exists k.
  destruct (crawl w (JS.toLowerCase query) limit _ _ _ [] log) as [[rs|e] lg];
    simpl in *; exact Hk.
Qed.

(** Which strategy decides a run, by what the world answers to the request
    for the index file and, when it comes to that, for the native search
    page. *)
Lemma searchAutoGenDocs_tree w query limit version log :
  let baseUrl := getVersionUrl version in
  let log1 := log ++ [index_url version] in
  let log2 := log1 ++ [searchUrl_of query version] in
  let run := searchAutoGenDocs w query limit version log in
  let crawler lg := run = fallbackSearch w query limit version lg in
  let search_page :=
    match http w log1 (searchUrl_of query version) with
    | Ret response =>
        if ok response then
          match text response with
          | Ret html =>
              match cheerio_load w html with
              | Ret doc =>
                  match scan_search_page baseUrl limit doc with
                  | [] => crawler log2
                  | results => run = (Ret (slice0 limit results), log2)
                  end
              | Throw _ => crawler log2
              end
          | Throw _ => crawler log2
          end
        else crawler log2
    | Throw _ => crawler log2
    end in
  match http w log (index_url version) with
  | Ret response =>
      if ok response then
        match text response with
        | Ret content =>
            match JS.match_setIndex content with
            | Some group =>
                match JSON_parse w group with
                | Ret searchData =>
                    match performIndexSearch w searchData query baseUrl limit with
                    | [] => search_page
                    | indexResults => run = (Ret indexResults, log1)
                    end
                | Throw _ => search_page
                end
            | None => search_page
            end
        | Throw _ => crawler log1
        end
      else search_page
  | Throw _ => crawler log1
  end.
Proof.
  cbv zeta.
  assert (FB : forall lg,
             match fallbackSearch w query limit version lg with
             | (Ret a, s') => (Ret a, s')
             | (Throw e, s') => fallbackSearch w query limit version s'
             end = fallbackSearch w query limit version lg).
  { intros lg. destruct (fallbackSearch_returns w query limit version lg) as [rs [lg' ->]].
    reflexivity. }
  unfold searchAutoGenDocs, try_catch, enhanced_search, bind.
  unfold index_strategy, bind, fetch, lift_outcome, ret.
  destruct (http w log (index_url version)) as [resp|e]; [|reflexivity].
  destruct (ok resp);
    [destruct (text resp) as [content|e]; [|reflexivity];
     unfold try_index, try_catch, bind, lift_outcome, ret;
     destruct (JS.match_setIndex content) as [g|];
     [destruct (JSON_parse w g) as [sd|e];
      [destruct (performIndexSearch w sd query (getVersionUrl version) limit)
         as [|r rs]; cbn [List.length Nat.ltb Nat.leb]; [|reflexivity]|]|]|].
  all: unfold later_strategies, page_strategy, bind, fetch, lift_outcome, ret.
  all: destruct (http w _ (searchUrl_of query version)) as [resp'|e']; [|reflexivity].
  all: destruct (ok resp'); [|apply FB].
  all: destruct (text resp') as [html|e']; [|reflexivity].
  all: destruct (cheerio_load w html) as [doc|e']; [|reflexivity].
  all: destruct (scan_search_page (getVersionUrl version) limit doc) as [|r' rs'];
    cbn [List.length Nat.ltb Nat.leb]; [apply FB | reflexivity].
Qed.

(** A page whose request fails leaves the array of the crawler as it is. *)
Lemma visit_page_fails w queryLower limit isMcpQuery baseUrl page results log :
  request_fails w log (page_url page) ->
  visit_page w queryLower limit isMcpQuery baseUrl page results log
  = (Ret results, log ++ [page_url page]).
Proof.
  unfold request_fails, visit_page, try_catch, bind, fetch, lift_outcome, ret.
  destruct (http w log (page_url page)) as [resp|e]; [|reflexivity].
  intros [H|[[e H]|[html [e [H1 H2]]]]].
  - now rewrite H.
  - rewrite H. now destruct (ok resp).
  - rewrite H1, H2. now destruct (ok resp).
Qed.

(** C1, as stated, fails for a fetch error of the first strategy: the run
    does not fall through to the next strategy.  In the first world the
    request for the index file raises, in the second the body of the index
    file cannot be read; in both the native search page is served and would
    give two entries, yet the run goes to the crawler, requests the index
    file and the seven pages of the crawl only, and returns nothing. *)
Lemma C1_counterexample :
  let requests :=
    index_url "stable" :: map page_url (standard_pages (getVersionUrl "stable")) in
  let skipped (w : World) :=
    index_raises w "stable" []
    /\ (exists rs, page_finds w "agent" 5 "stable" [index_url "stable"] rs /\ rs <> [])
    /\ searchAutoGenDocs w "agent" 5 "stable" [] = (Ret [], requests) in
  skipped (index_down_world "agent" "stable" twin_links_document)
  /\ skipped (index_body_down_world "agent" "stable" twin_links_document)
  /\ ~ In (searchUrl_of "agent" "stable") requests.
Proof.
  cbv zeta. split; [|split].
  - split; [exact I|]. split; [|vm_compute; reflexivity].
    eexists. split.
    + unfold page_finds. do 3 eexists.
      repeat (split; [vm_compute; reflexivity|]).
      split; [vm_compute; discriminate | reflexivity].
    + vm_compute. discriminate.
  - split; [unfold index_raises; simpl; split; [reflexivity | eauto]|].
    split; [|vm_compute; reflexivity].
    eexists. split.
    + unfold page_finds. do 3 eexists.
      repeat (split; [vm_compute; reflexivity|]).
      split; [vm_compute; discriminate | reflexivity].
    + vm_compute. discriminate.
  - vm_compute. intros H.
    repeat (destruct H as [H|H]; [discriminate H|]). exact H.
Qed.

(** C1, amended. A run never throws: it returns a sequence.  A fetch error of
    the index file (the request or the reading of the body raises) sends the
    run to the crawler.  When the search on the index file ends with nothing
    (status not ok, no index in the file, parse error, no candidate), the
    native search page decides next: its result set is returned when it is
    not empty, and when the page gives nothing (its request fails, or its
    results section yields no entry) the crawler runs.  The crawler skips a
    page whose request fails.  When every page of the crawl is unavailable
    the crawler returns the empty sequence, and when every request is
    unavailable so does the run, for the queries classified as MCP queries
    like for the others. *)
Theorem C1_never_throws (w : World) (query : string) (limit : Z) (version : string)
    (log : list string) :
  let log1 := log ++ [index_url version] in
  let log2 := log1 ++ [searchUrl_of query version] in
  let run := searchAutoGenDocs w query limit version log in
  (exists rs log', run = (Ret rs, log'))
  /\ (index_raises w version log ->
      run = fallbackSearch w query limit version log1)
  /\ (index_gives_nothing w query limit version log ->
      (forall rs, page_finds w query limit version log1 rs -> run = (Ret rs, log2))
      /\ (page_gives_nothing w query limit version log1 ->
          run = fallbackSearch w query limit version log2))
  /\ (forall queryLower isMcpQuery baseUrl page rest results lg,
         reached_limit results limit = false ->
         request_fails w lg (page_url page) ->
         crawl w queryLower limit isMcpQuery baseUrl (page :: rest) results lg
         = crawl w queryLower limit isMcpQuery baseUrl rest results
                 (lg ++ [page_url page]))
  /\ ((forall h page,
          In page (pagesToSearch_of (isMcpQuery_of (JS.toLowerCase query))
                                    (getVersionUrl version)) ->
          unavailable (http w h (page_url page)) = true) ->
      forall log0, fst (fallbackSearch w query limit version log0) = Ret [])
  /\ ((forall h u, unavailable (http w h u) = true) -> fst run = Ret []).
Proof.
  cbv zeta.
  pose proof (searchAutoGenDocs_tree w query limit version log) as T. cbv zeta in T.
  split; [|split; [|split; [|split; [|split]]]].
  - destruct (searchAutoGenDocs_run w query limit version log) as [rs [log' [E _]]].
    eauto.
  - unfold index_raises. intros H.
    destruct (http w log (index_url version)) as [resp|e]; [|exact T].
    destruct H as [Hok [e He]]. rewrite Hok, He in T. exact T.
  - unfold index_gives_nothing. intros [resp [Hr H]]. rewrite Hr in T.
    assert (T' :
      match http w (log ++ [index_url version]) (searchUrl_of query version) with
      | Ret response =>
          if ok response then
            match text response with
            | Ret html =>
                match cheerio_load w html with
                | Ret doc =>
                    match scan_search_page (getVersionUrl version) limit doc with
                    | [] => searchAutoGenDocs w query limit version log
                            = fallbackSearch w query limit version
                                ((log ++ [index_url version]) ++ [searchUrl_of query version])
                    | r :: l => searchAutoGenDocs w query limit version log
                            = (Ret (slice0 limit (r :: l)),
                               (log ++ [index_url version]) ++ [searchUrl_of query version])
                    end
                | Throw _ => searchAutoGenDocs w query limit version log
                            = fallbackSearch w query limit version
                                ((log ++ [index_url version]) ++ [searchUrl_of query version])
                end
            | Throw _ => searchAutoGenDocs w query limit version log
                            = fallbackSearch w query limit version
                                ((log ++ [index_url version]) ++ [searchUrl_of query version])
            end
          else searchAutoGenDocs w query limit version log
                            = fallbackSearch w query limit version
                                ((log ++ [index_url version]) ++ [searchUrl_of query version])
      | Throw _ => searchAutoGenDocs w query limit version log
                            = fallbackSearch w query limit version
                                ((log ++ [index_url version]) ++ [searchUrl_of query version])
      end).
    { destruct H as [Hok|[Hok [content [Hc H]]]]; rewrite Hok in T; [exact T|].
      rewrite Hc in T. destruct (JS.match_setIndex content) as [g|]; [|exact T].
      destruct (JSON_parse w g) as [sd|e]; [|exact T]. now rewrite H in T. }
    clear T H Hr. split.
    + intros rs [resp' [html [doc [H1 [H2 [H3 [H4 [H5 ->]]]]]]]].
      rewrite H1, H2, H3, H4 in T'.
      destruct (scan_search_page (getVersionUrl version) limit doc);
        [now elim H5 | exact T'].
    + unfold page_gives_nothing, request_fails.
      intros [H|[resp' [html [doc [H1 [H3 [H4 H5]]]]]]].
      * destruct (http w _ (searchUrl_of query version)) as [resp'|e]; [|exact T'].
        destruct (ok resp'); [|exact T'].
        destruct H as [H|[[e H]|[html [e [H1 H2]]]]]; [discriminate| |].
        -- now rewrite H in T'.
        -- now rewrite H1, H2 in T'.
      * rewrite H1, H3, H4, H5 in T'. now destruct (ok resp').
  - intros queryLower isMcpQuery baseUrl page rest results lg Hlim Hf.
    cbn [crawl]. rewrite Hlim. unfold bind.
    now rewrite visit_page_fails.
  - apply fallbackSearch_unavailable.
  - intros H.
    assert (FB : forall log0, fst (fallbackSearch w query limit version log0) = Ret [])
      by (apply fallbackSearch_unavailable; intros; apply H).
    pose proof (H log (index_url version)) as H1. unfold unavailable in H1.
    destruct (http w log (index_url version)) as [resp|e]; [|rewrite T; apply FB].
    destruct (ok resp); [discriminate|].
    pose proof (H (log ++ [index_url version]) (searchUrl_of query version)) as H2.
    unfold unavailable in H2.
    destruct (http w _ (searchUrl_of query version)) as [resp'|e]; [|rewrite T; apply FB].
    destruct (ok resp'); [discriminate|]. rewrite T. apply FB.
Qed.

(** Three runs.  The query "mcp" is an MCP query; with every request
    answered by a status that is not ok the run returns the empty sequence.
    When the request for the index file raises, the run is the crawler's.
    When the index file is answered with a status that is not ok and the
    native search page holds entries, these are returned. *)
Lemma C1_witness :
  (fst (searchAutoGenDocs offline_world "mcp" 10 "stable" []) = Ret []
   /\ isMcpQuery_of (JS.toLowerCase "mcp") = true)
  /\ (let w := index_down_world "agent" "stable" twin_links_document in
      searchAutoGenDocs w "agent" 5 "stable" []
      = fallbackSearch w "agent" 5 "stable" ([] ++ [index_url "stable"]))
  /\ (let w := search_page_world "agent" "stable" twin_links_document in
      searchAutoGenDocs w "agent" 5 "stable" []
      = (Ret (slice0 5 (scan_search_page (getVersionUrl "stable") 5 twin_links_document)),
         ([] ++ [index_url "stable"]) ++ [searchUrl_of "agent" "stable"])).
Proof.
  split; [|split].
  - split; [|reflexivity].
    apply (proj2 (proj2 (proj2 (proj2 (proj2
             (C1_never_throws offline_world "mcp" 10 "stable" [])))))).
    intros h u. reflexivity.
  - apply (proj1 (proj2 (C1_never_throws
             (index_down_world "agent" "stable" twin_links_document)
             "agent" 5 "stable" []))).
    exact I.
  - apply (proj1 (proj2 (proj2 (C1_never_throws
             (search_page_world "agent" "stable" twin_links_document)
             "agent" 5 "stable" [])))).
    + exists not_found. split; [vm_compute; reflexivity | now left].
    + exists (mkResponse true (Ret "<html>")), "<html>", twin_links_document.
      repeat (split; [vm_compute; reflexivity|]).
      split; [vm_compute; discriminate | reflexivity].
Defined.

(** C4, as stated, fails when the index request itself fails: the handler
    of the outer [try] goes straight to the crawler.  Here the native search
    page is served and would give two results, yet it is never requested and
    the run returns what the crawler found, nothing. *)
Lemma C4_counterexample :
  let w := index_down_world "agent" "stable" twin_links_document in
  fst (index_strategy w "agent" 5 "stable" []) = Throw (FetchError "socket hang up")
  /\ (exists rs, fst (page_strategy w "agent" 5 "stable" [index_url "stable"])
                 = Ret (Some rs) /\ rs <> [])
  /\ fst (searchAutoGenDocs w "agent" 5 "stable" []) = Ret []
  /\ ~ In (searchUrl_of "agent" "stable")
          (snd (searchAutoGenDocs w "agent" 5 "stable" [])).
Proof.
  cbv zeta. split; [reflexivity|]. split; [|split].
  - eexists. split; [vm_compute; reflexivity | discriminate].
  - vm_compute. reflexivity.
  - vm_compute. intros H.
    repeat (destruct H as [H|H]; [discriminate H|]). exact H.
Qed.

(** C4, amended. The index file is requested first.  A result set of the
    search on the index that is not empty is returned, and nothing else is
    requested.  When that search ends with nothing (status not ok, no index
    in the file, parse error, no candidate) the native search page is
    requested next; a result set of that page that is not empty is returned
    without crawling, and in every other case (no entry, status not ok, or
    an exception while requesting, reading or loading the page) the crawler
    runs after the page was requested.  When the request for the index file
    or the reading of its body raises, the native search page is not
    requested and the crawler runs at once.  Where the crawler runs, the
    rest of the run is the crawler's and nothing but pages of its list is
    requested from there on.  (The address of the search page is built from
    a query of the model, which holds no lone surrogate.) *)
Theorem C4_cascade (w : World) (query : string) (limit : Z) (version : string)
    (log : list string) :
  let baseUrl := getVersionUrl version in
  let pagesToSearch :=
    pagesToSearch_of (isMcpQuery_of (JS.toLowerCase query)) baseUrl in
  let log1 := log ++ [index_url version] in
  let log2 := log1 ++ [searchUrl_of query version] in
  let run := searchAutoGenDocs w query limit version log in
  let crawler lg :=
    run = fallbackSearch w query limit version lg
    /\ exists k, snd run = lg ++ map page_url (firstn k pagesToSearch) in
  let search_page :=
    match http w log1 (searchUrl_of query version) with
    | Ret response =>
        if ok response then
          match text response with
          | Ret html =>
              match cheerio_load w html with
              | Ret doc =>
                  match scan_search_page baseUrl limit doc with
                  | [] => crawler log2
                  | results => run = (Ret (slice0 limit results), log2)
                  end
              | Throw _ => crawler log2
              end
          | Throw _ => crawler log2
          end
        else crawler log2
    | Throw _ => crawler log2
    end in
  match http w log (index_url version) with
  | Ret response =>
      if ok response then
        match text response with
        | Ret content =>
            match JS.match_setIndex content with
            | Some group =>
                match JSON_parse w group with
                | Ret searchData =>
                    match performIndexSearch w searchData query baseUrl limit with
                    | [] => search_page
                    | indexResults => run = (Ret indexResults, log1)
                    end
                | Throw _ => search_page
                end
            | None => search_page
            end
        | Throw _ => crawler log1
        end
      else search_page
  | Throw _ => crawler log1
  end.
Proof.
  cbv zeta.
  pose proof (searchAutoGenDocs_tree w query limit version log) as T. cbv zeta in T.
  assert (L : forall lg,
             searchAutoGenDocs w query limit version log
             = fallbackSearch w query limit version lg ->
             searchAutoGenDocs w query limit version log
             = fallbackSearch w query limit version lg
             /\ exists k,
                  snd (searchAutoGenDocs w query limit version log)
                  = lg ++ map page_url
                            (firstn k (pagesToSearch_of
                                         (isMcpQuery_of (JS.toLowerCase query))
                                         (getVersionUrl version)))).
  { intros lg E. split; [exact E|]. rewrite E. apply fallbackSearch_log. }
  destruct (http w log (index_url version)) as [resp|e]; [|now apply L].
  destruct (ok resp);
    [destruct (text resp) as [content|e]; [|now apply L];
     destruct (JS.match_setIndex content) as [g|];
     [destruct (JSON_parse w g) as [sd|e];
      [destruct (performIndexSearch w sd query (getVersionUrl version) limit)
         as [|r rs]; [|exact T]|]|]|].
  all: destruct (http w _ (searchUrl_of query version)) as [resp'|e']; [|now apply L].
  all: destruct (ok resp'); [|now apply L].
  all: destruct (text resp') as [html|e']; [|now apply L].
  all: destruct (cheerio_load w html) as [doc|e']; [|now apply L].
  all: destruct (scan_search_page (getVersionUrl version) limit doc) as [|r' rs'];
    [now apply L | exact T].
Qed.

(** ** The search on a well-formed index table *)

Lemma index_candidates_cons queryTerms baseUrl t d rest :
  index_candidates queryTerms baseUrl ((t, d) :: rest)
  = (if 0 <? score_of queryTerms (JS.toLowerCase t) (JS.toLowerCase d)
     then [index_entry baseUrl t d] else [])
    ++ index_candidates queryTerms baseUrl rest.
Proof. reflexivity. Qed.

Lemma index_candidates_app queryTerms baseUrl l1 l2 :
  index_candidates queryTerms baseUrl (l1 ++ l2)
  = index_candidates queryTerms baseUrl l1 ++ index_candidates queryTerms baseUrl l2.
Proof. apply flat_map_app. Qed.

Lemma skipn_nth_cons {A} (d : A) (l : list A) : forall i,
  i < List.length l -> skipn i l = nth i l d :: skipn (S i) l.
Proof.
  induction l as [|x l IH]; intros [|i] H; simpl in *; try lia; auto.
  apply IH. lia.
Qed.

Lemma nth_map_VStr (l : list string) (i : nat) :
  i < List.length l -> nth i (map VStr l) VUndefined = VStr (nth i l EmptyString).
Proof.
  intros H. rewrite (nth_indep _ VUndefined (VStr EmptyString))
    by (now rewrite length_map).
  apply map_nth.
Qed.

Section TableFacts.
Variables (ts ds : list string) (queryTerms : list string).
Variables (baseUrl : string) (limit : Z).
Hypothesis same_length : List.length ts = List.length ds.

Lemma index_loop_table remaining : forall i rs,
  remaining + i = List.length ts ->
  index_loop (VArr (map VStr ts)) (VArr (map VStr ds)) queryTerms baseUrl limit
             remaining i rs
  = (Ret tt,
     rs ++ firstn (Z.to_nat (limit - Z.of_nat (List.length rs)))
                  (index_candidates queryTerms baseUrl (skipn i (combine ts ds)))).
Proof.
  induction remaining as [|k IH]; intros i rs Hi; simpl.
  - rewrite skipn_all2 by (rewrite length_combine; lia).
    simpl. rewrite firstn_nil, app_nil_r. reflexivity.
  - unfold bind, get_store, below_limit.
    destruct (Z.ltb_spec (Z.of_nat (List.length rs)) limit) as [Hlt|Hge].
    + rewrite (skipn_nth_cons (EmptyString, EmptyString)) by (rewrite length_combine; lia).
      rewrite combine_nth by exact same_length.
      unfold index_body, bind, get_index.
      rewrite !nth_map_VStr by lia. simpl as_string. unfold ret at 1 2.
      rewrite index_candidates_cons.
      destruct (0 <? score_of queryTerms _ _).
      * unfold modify. rewrite IH by lia.
        rewrite length_app. simpl List.length.
        replace (Z.to_nat (limit - Z.of_nat (List.length rs)))
          with (S (Z.to_nat (limit - Z.of_nat (List.length rs + 1)))) by lia.
        rewrite <- app_assoc. reflexivity.
      * unfold ret. rewrite IH by lia. reflexivity.
    + replace (Z.to_nat (limit - Z.of_nat (List.length rs))) with 0 by lia.
      rewrite app_nil_r. reflexivity.
Qed.
End TableFacts.

(** On a table of titles and document names of the same length, the search
    sorts the first [limit] candidates of the index. *)
Lemma performIndexSearch_table w fields ts ds query baseUrl limit :
  lookup "titles" fields = VArr (map VStr ts) ->
  lookup "docnames" fields = VArr (map VStr ds) ->
  List.length ts = List.length ds ->
  performIndexSearch w (VObj fields) query baseUrl limit
  = sort_desc (title_matches (queryTerms_of query))
      (firstn (Z.to_nat limit)
              (index_candidates (queryTerms_of query) baseUrl (combine ts ds))).
Proof.
  intros Ht Hd Hlen. unfold performIndexSearch, try_catch, bind, get_field.
  unfold ret at 1. rewrite Ht. cbn [value_truthy].
  unfold ret at 1. rewrite Hd. cbn [value_truthy].
  unfold loop_bound. cbn [to_number get_length]. rewrite length_map, Nat2Z.id.
  rewrite (index_loop_table ts ds _ _ _ Hlen) by lia.
  unfold modify. simpl snd. simpl List.length. rewrite Z.sub_0_r. simpl app.
  simpl skipn.
  destruct (Z.leb_spec 0 limit).
  - apply slice0_all. rewrite sort_desc_length, length_firstn. lia.
  - replace (Z.to_nat limit) with 0 by lia. simpl. apply slice0_nil.
Qed.

(** C6, as stated, fails: the candidates are not all the documents that
    pass the score filter.  With limit 1 the loop stops at the first
    document with a positive score, here one matched through its document
    name only, so the document whose title contains the term is never
    ranked. *)
Lemma C6_counterexample :
  let titles := ["Release notes"; "Agent Introduction"] in
  let docnames := ["agent-changes"; "python/agent-intro"] in
  let baseUrl := getVersionUrl "stable" in
  performIndexSearch offline_world (table titles docnames) "agent" baseUrl 1
  = [index_entry baseUrl "Release notes" "agent-changes"]
  /\ rank_then_truncate "agent" baseUrl 1 titles docnames
     = [index_entry baseUrl "Agent Introduction" "python/agent-intro"]
  /\ performIndexSearch offline_world (table titles docnames) "agent" baseUrl 1
     <> rank_then_truncate "agent" baseUrl 1 titles docnames.
Proof.
  cbv zeta. split; [vm_compute; reflexivity|]. split; [vm_compute; reflexivity|].
  vm_compute. discriminate.
Qed.

Lemma pushed_below_firstn {A} (limit : Z) (l : list A) : forall held,
  pushed_below limit held l = firstn (Z.to_nat (limit - Z.of_nat held)) l.
Proof.
  induction l as [|x l IH]; intros held; simpl.
  - now rewrite firstn_nil.
  - destruct (Z.ltb_spec (Z.of_nat held) limit) as [H|H].
    + replace (Z.to_nat (limit - Z.of_nat held))
        with (S (Z.to_nat (limit - Z.of_nat (S held)))) by lia.
      simpl. now rewrite IH.
    + replace (Z.to_nat (limit - Z.of_nat held)) with 0 by lia. reflexivity.
Qed.

(** C6, amended. On a well-formed index table the candidates are the
    documents that pass the score filter, in index order, pushed only while
    fewer than [limit] candidates are held: the documents that come after
    are no candidates.  These candidates are sorted by descending count of
    query terms found in the lowered title, the score being ignored, and the
    sorted sequence is truncated to [limit]. *)
Theorem C6_index_ranking (w : World) (fields : list (string * value))
    (ts ds : list string) (query baseUrl : string) (limit : Z) :
  lookup "titles" fields = VArr (map VStr ts) ->
  lookup "docnames" fields = VArr (map VStr ds) ->
  List.length ts = List.length ds ->
  let queryTerms := queryTerms_of query in
  let passing := index_candidates queryTerms baseUrl (combine ts ds) in
  let candidates := pushed_below limit 0 passing in
  let result := performIndexSearch w (VObj fields) query baseUrl limit in
  result = slice0 limit (sort_desc (title_matches queryTerms) candidates)
  /\ (exists left_out, passing = candidates ++ left_out)
  /\ Permutation candidates (sort_desc (title_matches queryTerms) candidates)
  /\ StronglySorted (fun a b => title_matches queryTerms b <= title_matches queryTerms a)
                    result.
Proof.
  intros Ht Hd Hlen. cbv zeta.
  rewrite (performIndexSearch_table w fields ts ds query baseUrl limit Ht Hd Hlen).
  rewrite pushed_below_firstn. change (Z.of_nat 0) with 0%Z. rewrite Z.sub_0_r.
  split; [|split; [|split]].
  - destruct (Z.leb_spec 0 limit).
    + symmetry. apply slice0_all. rewrite sort_desc_length, length_firstn. lia.
    + replace (Z.to_nat limit) with 0 by lia. simpl. now rewrite slice0_nil.
  - eexists. symmetry. apply firstn_skipn.
  - apply sort_desc_perm.
  - apply sort_desc_sorted.
Qed.

(** With limit 2 both documents are candidates and the title match comes first. *)
Lemma C6_witness :
  StronglySorted
    (fun a b => title_matches (queryTerms_of "agent") b
                <= title_matches (queryTerms_of "agent") a)
    (performIndexSearch offline_world
       (table ["Release notes"; "Agent Introduction"]
              ["agent-changes"; "python/agent-intro"])
       "agent" (getVersionUrl "stable") 2).
Proof.
  exact (proj2 (proj2 (proj2 (C6_index_ranking offline_world
                  [("titles", VArr (map VStr ["Release notes"; "Agent Introduction"]));
                   ("docnames", VArr (map VStr ["agent-changes"; "python/agent-intro"]))]
                  ["Release notes"; "Agent Introduction"]
                  ["agent-changes"; "python/agent-intro"]
                  "agent" (getVersionUrl "stable") 2
                  eq_refl eq_refl eq_refl)))).
Defined.

(** C7, as stated, fails: the index below contains the document titled
    "Agent Introduction" with document name "python/agent-intro", but five
    matching documents come first, the loop stops at the limit and the
    entry is not returned. *)
Lemma C7_counterexample :
  In ("Agent Introduction", "python/agent-intro") (combine crowded_titles crowded_docnames)
  /\ exists rs,
       fst (searchAutoGenDocs (index_world "stable" (table crowded_titles crowded_docnames))
                              "agent" 5 "stable" []) = Ret rs
       /\ ~ In agent_intro_entry rs.
Proof.
  split; [simpl; tauto|].
  eexists. split; [vm_compute; reflexivity|].
  intros H. repeat (destruct H as [H|H]; [discriminate H|]). exact H.
Qed.

Lemma firstn_app_In {A} (n : nat) (l1 l2 : list A) (x : A) :
  List.length l1 < n -> In x (firstn n (l1 ++ x :: l2)).
Proof.
  intros H. rewrite firstn_app. apply in_or_app. right.
  destruct (n - List.length l1) as [|m] eqn:E; [lia|]. now left.
Qed.

Lemma nth_error_combine {A B} (l1 : list A) (l2 : list B) : forall i a b,
  nth_error l1 i = Some a -> nth_error l2 i = Some b ->
  combine l1 l2 = firstn i (combine l1 l2) ++ (a, b) :: skipn (S i) (combine l1 l2).
Proof.
  revert l2; induction l1 as [|x l1 IH]; intros [|y l2] [|i] a b H1 H2;
    simpl in *; try discriminate.
  - now injection H1 as ->; injection H2 as ->.
  - f_equal. now apply IH.
Qed.

(** C7, amended. For the query "agent" with limit 5 and version "stable":
    when the search index file is served and parses to a table that holds a
    document titled "Agent Introduction" with document name
    "python/agent-intro", and fewer than five documents that match the query
    come before it in the table, the returned sequence includes the entry with
    that title, the address [.../stable/python/agent-intro.html] and the
    category "API Reference". *)
Theorem C7_agent_scenario (w : World) (log : list string) (response : Response)
    (content group : string) (fields : list (string * value))
    (ts ds : list string) (i : nat) :
  http w log (index_url "stable") = Ret response ->
  ok response = true ->
  text response = Ret content ->
  JS.match_setIndex content = Some group ->
  JSON_parse w group = Ret (VObj fields) ->
  lookup "titles" fields = VArr (map VStr ts) ->
  lookup "docnames" fields = VArr (map VStr ds) ->
  List.length ts = List.length ds ->
  nth_error ts i = Some "Agent Introduction" ->
  nth_error ds i = Some "python/agent-intro" ->
  List.length (index_candidates (queryTerms_of "agent") (getVersionUrl "stable")
                                (firstn i (combine ts ds))) < 5 ->
  exists rs,
    searchAutoGenDocs w "agent" 5 "stable" log = (Ret rs, log ++ [index_url "stable"])
    /\ In agent_intro_entry rs.
Proof.
  intros Hhttp Hok Htext Hmatch Hparse Ht Hd Hlen Hti Hdi Hbefore.
  assert (Hin : In agent_intro_entry
                   (performIndexSearch w (VObj fields) "agent" (getVersionUrl "stable") 5)).
  { rewrite (performIndexSearch_table w fields ts ds _ _ _ Ht Hd Hlen).
    eapply Permutation_in; [apply sort_desc_perm|].
    rewrite (nth_error_combine ts ds i _ _ Hti Hdi), index_candidates_app,
            index_candidates_cons.
    change (0 <? score_of (queryTerms_of "agent")
                          (JS.toLowerCase "Agent Introduction")
                          (JS.toLowerCase "python/agent-intro")) with true.
    cbv iota. simpl app.
    change (index_entry (getVersionUrl "stable") "Agent Introduction" "python/agent-intro")
      with agent_intro_entry.
    apply firstn_app_In. exact Hbefore. }
  exists (performIndexSearch w (VObj fields) "agent" (getVersionUrl "stable") 5).
  split; [|exact Hin].
  unfold searchAutoGenDocs, try_catch, enhanced_search, bind.
  unfold index_strategy, bind, fetch, lift_outcome.
  rewrite Hhttp, Hok, Htext.
  unfold try_index, try_catch, bind, lift_outcome.
  rewrite Hmatch, Hparse.
  destruct (Nat.ltb_spec 0 (List.length
              (performIndexSearch w (VObj fields) "agent" (getVersionUrl "stable") 5)))
    as [_|Hz]; [reflexivity|].
  destruct (performIndexSearch w (VObj fields) "agent" (getVersionUrl "stable") 5);
    [destruct Hin | simpl in Hz; lia].
Qed.

(** One matching document comes before the document of the scenario. *)
Lemma C7_witness :
  exists rs,
    searchAutoGenDocs
      (index_world "stable"
         (table ["AgentChat"; "Agent Introduction"] ["user-guide/agentchat"; "python/agent-intro"]))
      "agent" 5 "stable" []
    = (Ret rs, [] ++ [index_url "stable"])
    /\ In agent_intro_entry rs.
Proof.
  apply (C7_agent_scenario
           (index_world "stable"
              (table ["AgentChat"; "Agent Introduction"]
                     ["user-guide/agentchat"; "python/agent-intro"]))
           [] (mkResponse true (Ret "Search.setIndex({})")) "Search.setIndex({})" "{}"
           [("titles", VArr (map VStr ["AgentChat"; "Agent Introduction"]));
            ("docnames", VArr (map VStr ["user-guide/agentchat"; "python/agent-intro"]))]
           ["AgentChat"; "Agent Introduction"]
           ["user-guide/agentchat"; "python/agent-intro"] 1);
    try reflexivity.
  vm_compute. lia.
Defined.

(** ** Duplicates within a page scan *)

(** C9, as stated, fails for two of the scans.  The heading scan tests
    nothing: the second of two equal headings is pushed although an entry
    with its address and title is already there.  The link scan discards a
    candidate whose title alone is already there: the link to [b.html] is
    dropped although no entry has both its address and its title. *)
Lemma C9_counterexample :
  let scan := scan_page "agents" 10 user_guide_page (getVersionUrl "stable") false
                        twin_document [] in
  let heading_entry := mkResult "Agents" user_guide_url "User Guide: Agents" "User Guide" in
  let link_a := mkResult "Agents guide" (getVersionUrl "stable" +++ "/a.html")
                         "AgentsAgentsAgents guide" "User Guide" in
  let link_b := mkResult "Agents guide" (getVersionUrl "stable" +++ "/b.html")
                         "AgentsAgentsAgents guide" "User Guide" in
  scan = [heading_entry; heading_entry; link_a]
  /\ dup_url_and_title [heading_entry] (url heading_entry) (title heading_entry) = true
  /\ link_candidate "agents" user_guide_page (getVersionUrl "stable")
                    (mkPageLink "Agents guide" (Some "b.html") "Agents guide"
                                "AgentsAgentsAgents guide")
     = Some link_b
  /\ dup_url_and_title [heading_entry; heading_entry; link_a] (url link_b) (title link_b)
     = false
  /\ ~ In link_b scan.
Proof.
  cbv zeta. repeat split; try (vm_compute; reflexivity).
  vm_compute. intros H. repeat (destruct H as [H|H]; [discriminate H|]). exact H.
Qed.

(** C9, amended. While the limit is not reached, within a page scan: the
    heading scan pushes every candidate without a duplicate test; the
    paragraph and div scan and the related-term scan discard a candidate
    exactly when the accumulated results hold an entry with both the same
    address and the same title; the link scan discards a candidate exactly
    when the accumulated results hold an entry with the same address or the
    same title. *)
Theorem C9_page_dedup (queryLower : string) (limit : Z) (page : Page)
    (linkBase pageTitle term : string) (results : list SearchResult) :
  reached_limit results limit = false ->
  (forall h,
      heading_step queryLower limit page h results
      = Some match heading_candidate queryLower page h with
             | Some c => results ++ [c]
             | None => results
             end)
  /\ (forall b,
      block_step queryLower limit page pageTitle b results
      = Some match block_candidate queryLower page pageTitle b with
             | Some c => if dup_url_and_title results (url c) (title c)
                         then results else results ++ [c]
             | None => results
             end)
  /\ (forall e,
      related_step limit page term e results
      = Some match related_candidate page term e with
             | Some c => if dup_url_and_title results (url c) (title c)
                         then results else results ++ [c]
             | None => results
             end)
  /\ (forall a,
      link_step queryLower limit page linkBase a results
      = Some match link_candidate queryLower page linkBase a with
             | Some c => if dup_url_or_title results (url c) (title c)
                         then results else results ++ [c]
             | None => results
             end).
Proof.
  intros Hlim. repeat split.
  - intros h. unfold heading_step, heading_candidate. rewrite Hlim.
    destruct (JS.includes _ queryLower); reflexivity.
  - intros b. unfold block_step, block_candidate. rewrite Hlim.
    destruct (_ && _); [|reflexivity]. cbn [url title].
    destruct (dup_url_and_title _ _ _); reflexivity.
  - intros e. unfold related_step, related_candidate. rewrite Hlim.
    destruct (_ && _); [|reflexivity]. cbn [url title].
    destruct (dup_url_and_title _ _ _); reflexivity.
  - intros a. unfold link_step, link_candidate. rewrite Hlim.
    destruct (_ || _ || _); [reflexivity|].
    destruct (negb (JS.includes _ DOC_DOMAIN)); [reflexivity|].
    destruct (_ || _); [|reflexivity]. cbn [url title].
    destruct (dup_url_or_title _ _ _); reflexivity.
Qed.

(** The heading scan pushes a heading whose entry is already there. *)
Lemma C9_witness :
  heading_step "agents" 10 user_guide_page twin_heading
               [mkResult "Agents" user_guide_url "User Guide: Agents" "User Guide"]
  = Some [mkResult "Agents" user_guide_url "User Guide: Agents" "User Guide";
          mkResult "Agents" user_guide_url "User Guide: Agents" "User Guide"].
Proof.
  rewrite (proj1 (C9_page_dedup "agents" 10 user_guide_page (getVersionUrl "stable")
                    "" "tools"
                    [mkResult "Agents" user_guide_url "User Guide: Agents" "User Guide"]
                    eq_refl) twin_heading).
  reflexivity.
Defined.

(** ** Queries made of white space *)

Lemma lower_char_ws (c : ascii) : JS.is_ws c = true -> JS.lower_char c = c.
Proof.
  unfold JS.is_ws, JS.lower_char. cbv zeta. intros H.
  match goal with |- (if ?b then _ else _) = _ => destruct b eqn:E end;
    [|reflexivity]. exfalso.
  repeat match goal with
         | H : (_ || _) = true |- _ => apply orb_true_iff in H; destruct H
         | H : (_ && _) = true |- _ => apply andb_true_iff in H; destruct H
         | H : (_ <=? _) = true |- _ => apply Nat.leb_le in H
         | H : (_ =? _) = true |- _ => apply Nat.eqb_eq in H
         | H : negb _ = true |- _ => apply negb_true_iff in H
         end; lia.
Qed.

Lemma toLowerCase_ws (s : string) : all_ws s = true -> JS.toLowerCase s = s.
Proof.
  unfold all_ws. induction s as [|c s IH]; simpl; auto.
  intros H. apply andb_true_iff in H. destruct H as [Hc Hs].
  now rewrite lower_char_ws, IH.
Qed.

Lemma split_ws_all_ws (s : string) :
  all_ws s = true -> Forall (fun piece => piece = EmptyString) (JS.split_ws s).
Proof.
  unfold all_ws. induction s as [|c s IH]; intros H.
  - repeat constructor.
  - simpl in H. apply andb_true_iff in H. destruct H as [Hc Hs].
    specialize (IH Hs). cbn [JS.split_ws]. rewrite Hc.
    destruct s as [|c' s']; [repeat constructor|].
    simpl in Hs. apply andb_true_iff in Hs. destruct Hs as [Hc' _].
    now rewrite Hc'.
Qed.

Lemma queryTerms_of_ws (query : string) :
  all_ws query = true -> queryTerms_of query = [].
Proof.
  intros H. unfold queryTerms_of. rewrite toLowerCase_ws by exact H.
  pose proof (split_ws_all_ws query H) as F.
  induction F as [|p l -> _ IH]; simpl; auto.
Qed.

Lemma index_loop_no_terms titles docnames baseUrl limit remaining : forall i rs,
  snd (index_loop titles docnames [] baseUrl limit remaining i rs) = rs.
Proof.
  induction remaining as [|k IH]; intros i rs; simpl; auto.
  unfold bind, get_store. destruct (below_limit rs limit); auto.
  assert (B : snd (index_body titles docnames [] baseUrl i rs) = rs).
  { unfold index_body, bind, as_string.
    destruct (get_index titles i); simpl; auto.
    destruct (get_index docnames i); simpl; auto. }
  destruct (index_body titles docnames [] baseUrl i rs) as [[[]|e] rs'];
    simpl in B; subst rs'; [apply IH | reflexivity].
Qed.

Lemma performIndexSearch_no_terms w searchData query baseUrl limit :
  queryTerms_of query = [] ->
  performIndexSearch w searchData query baseUrl limit = [].
Proof.
  intros Hq. unfold performIndexSearch. rewrite Hq.
  unfold try_catch, bind, get_field, modify, ret, throw.
  destruct searchData; simpl; try apply slice0_nil.
  destruct (value_truthy (lookup "titles" fields)); simpl; try apply slice0_nil.
  destruct (value_truthy (lookup "docnames" fields)); simpl; try apply slice0_nil.
  match goal with |- context [index_loop ?a ?b [] ?d ?e ?f ?g ?h] =>
    pose proof (index_loop_no_terms a b d e f g h) as HL;
    destruct (index_loop a b [] d e f g h) as [[[]|ex] rs']
  end; simpl in *; subst; apply slice0_nil.
Qed.

(** C10. A query made of white space only (the empty query included) has no
    query term, so the search on the index returns nothing whatever the index
    holds; the search-index strategy then never returns a result set, and the
    run continues with the later strategies: the native search page and the
    crawler when the strategy ended normally, the crawler when it raised. *)
Theorem C10_blank_query (query : string) :
  all_ws query = true ->
  queryTerms_of query = []
  /\ (forall w searchData baseUrl limit,
         performIndexSearch w searchData query baseUrl limit = [])
  /\ (forall w limit version log,
         let log1 := log ++ [index_url version] in
         (index_strategy w query limit version log = (Ret None, log1)
          /\ searchAutoGenDocs w query limit version log
             = try_catch (later_strategies w query limit version)
                         (fun _ => fallbackSearch w query limit version) log1)
         \/ (exists e,
                index_strategy w query limit version log = (Throw e, log1)
                /\ searchAutoGenDocs w query limit version log
                   = fallbackSearch w query limit version log1)).
Proof.
  intros H. pose proof (queryTerms_of_ws query H) as Hq.
  split; [exact Hq|]. split.
  - intros. now apply performIndexSearch_no_terms.
  - intros w limit version log. cbv zeta.
    pose proof (index_strategy_log w query limit version log) as L1.
    pose proof (index_strategy_some w query limit version log) as S1.
    unfold searchAutoGenDocs, try_catch, enhanced_search, bind.
    destruct (index_strategy w query limit version log) as [[[rs|]|e] lg];
      simpl in L1; subst lg.
    + exfalso. destruct (S1 rs _ eq_refl) as [Hne [sd Hrs]].
      apply Hne. rewrite Hrs. now apply performIndexSearch_no_terms.
    + left. split; reflexivity.
    + right. exists e. split; reflexivity.
Qed.

(** A space and a tab. *)
Lemma C10_witness :
  performIndexSearch offline_world
    (table ["Agent Introduction"] ["python/agent-intro"])
    (String " " (String (ascii_of_nat 9) EmptyString)) (getVersionUrl "stable") 5 = [].
Proof.
  apply (proj1 (proj2 (C10_blank_query (String " " (String (ascii_of_nat 9) EmptyString))
                                       eq_refl))).
Defined.

(** ** Further properties of the search on the index *)

Lemma score_of_acc (queryTerms : list string) (tl dl : string) : forall acc,
  fold_left (fun score term =>
               (score + (if JS.includes tl term then 3 else 0))
               + (if JS.includes dl term then 2 else 0))
            queryTerms acc
  = acc + score_of queryTerms tl dl.
Proof.
  unfold score_of. induction queryTerms as [|t ts IH]; intros acc; simpl; [lia|].
  rewrite IH. rewrite (IH (_ + _)). lia.
Qed.

(** A document has a positive score exactly when some query term occurs in
    its lowered title or in its lowered name. *)
Lemma score_of_positive (queryTerms : list string) (tl dl : string) :
  0 < score_of queryTerms tl dl
  <-> exists term, In term queryTerms
                   /\ (JS.includes tl term = true \/ JS.includes dl term = true).
Proof.
  induction queryTerms as [|t ts IH].
  - split; [unfold score_of; simpl; lia | intros [term [[] _]]].
  - unfold score_of in *. simpl. rewrite score_of_acc. unfold score_of. split.
    + intros H.
      destruct (JS.includes tl t) eqn:E1; [exists t; split; [now left | now left]|].
      destruct (JS.includes dl t) eqn:E2; [exists t; split; [now left | now right]|].
      simpl in H. destruct (proj1 IH H) as [term [Hin Hm]].
      exists term. split; [now right | exact Hm].
    + intros [term [[<-|Hin] Hm]].
      * destruct Hm as [-> | ->]; destruct (JS.includes _ _); lia.
      * assert (0 < fold_left
                      (fun score term0 =>
                         score + (if JS.includes tl term0 then 3 else 0)
                         + (if JS.includes dl term0 then 2 else 0)) ts 0)
          by (apply IH; eauto).
        lia.
Qed.

Lemma type_of_docname_range (docname : string) :
  In (type_of_docname docname) index_types.
Proof.
  unfold type_of_docname, index_types.
  repeat (destruct (JS.includes docname _); [simpl; tauto|]). simpl; tauto.
Qed.

Section IndexMatched.
Variable w : World.
Variables (titles docnames : value) (queryTerms : list string).
Variables (baseUrl : string) (limit : Z).
Variable P : SearchResult -> Prop.
Hypothesis P_entry : forall t d,
  0 < score_of queryTerms (JS.toLowerCase t) (JS.toLowerCase d) ->
  P (index_entry baseUrl t d).

Lemma index_body_matched i rs :
  Forall P rs ->
  Forall P (snd (index_body titles docnames queryTerms baseUrl i rs)).
Proof.
  intros H. unfold index_body, bind, as_string.
  destruct (get_index titles i); simpl; auto.
  destruct (get_index docnames i); simpl; auto.
  destruct (Nat.ltb_spec 0 (score_of queryTerms (JS.toLowerCase s) (JS.toLowerCase s0)));
    simpl; auto.
  apply Forall_push; auto. now apply P_entry.
Qed.

Lemma index_loop_matched remaining : forall i rs,
  Forall P rs ->
  Forall P (snd (index_loop titles docnames queryTerms baseUrl limit remaining i rs)).
Proof.
  induction remaining as [|k IH]; intros i rs H; simpl; auto.
  unfold bind, get_store. destruct (below_limit rs limit); simpl; auto.
  pose proof (index_body_matched i rs H) as Hb.
  destruct (index_body titles docnames queryTerms baseUrl i rs) as [[[]|e] rs'];
    simpl in *; auto.
Qed.
End IndexMatched.

Lemma performIndexSearch_matched (P : SearchResult -> Prop) w searchData query baseUrl limit :
  (forall t d,
      0 < score_of (queryTerms_of query) (JS.toLowerCase t) (JS.toLowerCase d) ->
      P (index_entry baseUrl t d)) ->
  Forall P (performIndexSearch w searchData query baseUrl limit).
Proof.
  intros HP. unfold performIndexSearch.
  apply Forall_forall. intros r Hr. apply slice0_incl in Hr. revert r Hr.
  apply Forall_forall.
  unfold try_catch, bind, get_field, modify, ret, throw.
  destruct searchData; simpl; auto.
  destruct (value_truthy (lookup "titles" fields)); simpl; auto.
  destruct (value_truthy (lookup "docnames" fields)); simpl; auto.
  match goal with |- context [index_loop ?a ?b ?c ?d ?e ?f ?g ?h] =>
    pose proof (index_loop_matched a b c d e P HP f g h (Forall_nil P)) as HL;
    destruct (index_loop a b c d e f g h) as [[[]|ex] rs']
  end; simpl in *; auto.
  eapply Permutation_Forall; [apply sort_desc_perm | exact HL].
Qed.

(** X1. Whatever the parsed index holds, every entry returned by the search
    on the index stands for a title and a document name of which one, once
    lowered, contains a query term; its address is the base, the document
    name and [.html], and its snippet and category are the same one of the
    five index categories. *)
Theorem X1_index_entries_match (w : World) (searchData : value)
    (query baseUrl : string) (limit : Z) (r : SearchResult) :
  In r (performIndexSearch w searchData query baseUrl limit) ->
  exists t d term,
    r = mkResult t (baseUrl +++ "/" +++ d +++ ".html")
                 (type_of_docname d) (type_of_docname d)
    /\ In term (queryTerms_of query)
    /\ (JS.includes (JS.toLowerCase t) term = true
        \/ JS.includes (JS.toLowerCase d) term = true)
    /\ In (type r) index_types.
Proof.
  revert r. apply Forall_forall. apply performIndexSearch_matched.
  intros t d Hs. apply score_of_positive in Hs. destruct Hs as [term [Hin Hm]].
  exists t, d, term. repeat split; auto. apply type_of_docname_range.
Qed.

(** The entry of "Agent Introduction" is returned for the query "agent". *)
Lemma X1_witness :
  exists t d term,
    agent_intro_entry
    = mkResult t (getVersionUrl "stable" +++ "/" +++ d +++ ".html")
               (type_of_docname d) (type_of_docname d)
    /\ In term (queryTerms_of "agent")
    /\ (JS.includes (JS.toLowerCase t) term = true
        \/ JS.includes (JS.toLowerCase d) term = true)
    /\ In (type agent_intro_entry) index_types.
Proof.
  apply (X1_index_entries_match offline_world
           (table ["Agent Introduction"] ["python/agent-intro"])
           "agent" (getVersionUrl "stable") 5).
  vm_compute. now left.
Defined.

(** X2. When the parsed index is not an object whose [titles] and [docnames]
    are both truthy ([null], a number, an array, an object without one of the
    two keys, an empty [titles] string), the search on the index returns the
    empty sequence; the [TypeError] of a [null] index does not escape. *)
Theorem X2_index_wrong_shape (w : World) (searchData : value)
    (query baseUrl : string) (limit : Z) :
  (forall fields,
      searchData = VObj fields ->
      value_truthy (lookup "titles" fields)
      && value_truthy (lookup "docnames" fields) = false) ->
  performIndexSearch w searchData query baseUrl limit = [].
Proof.
  intros H. unfold performIndexSearch, try_catch, bind, get_field, modify, ret, throw.
  destruct searchData; simpl; try apply slice0_nil.
  specialize (H fields eq_refl).
  destruct (value_truthy (lookup "titles" fields)); simpl in *; [|apply slice0_nil].
  rewrite H. simpl. apply slice0_nil.
Qed.

(** An index that has titles but no document names. *)
Lemma X2_witness :
  performIndexSearch offline_world (VObj [("titles", VArr [VStr "Agents"])])
                     "agent" (getVersionUrl "stable") 5 = [].
Proof.
  apply (X2_index_wrong_shape offline_world (VObj [("titles", VArr [VStr "Agents"])])).
  intros fields E. injection E as <-. reflexivity.
Defined.

(** ** The sort is stable *)

Lemma sort_insert_stable (key : SearchResult -> nat) (k : nat) a l :
  filter (fun r => key r =? k) (sort_insert key a l)
  = filter (fun r => key r =? k) (a :: l).
Proof.
  induction l as [|b r IH]; [reflexivity|].
  cbn [sort_insert]. destruct (Nat.leb_spec (key b) (key a)) as [Hle|Hlt]; [reflexivity|].
  cbn [filter] in *. rewrite IH.
  destruct (Nat.eqb_spec (key a) k) as [Ea|Na];
    destruct (Nat.eqb_spec (key b) k) as [Eb|Nb]; try reflexivity.
  lia.
Qed.

Lemma sort_desc_stable (key : SearchResult -> nat) (k : nat) l :
  filter (fun r => key r =? k) (sort_desc key l) = filter (fun r => key r =? k) l.
Proof.
  induction l as [|a r IH]; [reflexivity|].
  cbn [sort_desc]. rewrite sort_insert_stable. cbn [filter]. now rewrite IH.
Qed.

(** X3. On a well-formed index table, entries whose titles contain the same
    number of query terms are returned in the order of the index: the sort
    never swaps two of them. *)
Theorem X3_index_sort_stable (w : World) (fields : list (string * value))
    (ts ds : list string) (query baseUrl : string) (limit : Z) (k : nat) :
  lookup "titles" fields = VArr (map VStr ts) ->
  lookup "docnames" fields = VArr (map VStr ds) ->
  List.length ts = List.length ds ->
  let same_count := fun r => title_matches (queryTerms_of query) r =? k in
  filter same_count (performIndexSearch w (VObj fields) query baseUrl limit)
  = filter same_count
      (firstn (Z.to_nat limit)
              (index_candidates (queryTerms_of query) baseUrl (combine ts ds))).
Proof.
  intros Ht Hd Hlen. cbv zeta.
  rewrite (performIndexSearch_table w fields ts ds query baseUrl limit Ht Hd Hlen).
  apply sort_desc_stable.
Qed.

(** Two titles with one match each stay in index order, behind nothing. *)
Lemma X3_witness :
  filter (fun r => title_matches (queryTerms_of "agent") r =? 1)
         (performIndexSearch offline_world
            (table ["Agents"; "Release notes"; "Agent Introduction"]
                   ["agents"; "agent-changes"; "python/agent-intro"])
            "agent" (getVersionUrl "stable") 5)
  = [index_entry (getVersionUrl "stable") "Agents" "agents";
     index_entry (getVersionUrl "stable") "Agent Introduction" "python/agent-intro"].
Proof.
  eapply eq_trans; [exact (X3_index_sort_stable offline_world
             [("titles", VArr (map VStr ["Agents"; "Release notes"; "Agent Introduction"]));
              ("docnames", VArr (map VStr ["agents"; "agent-changes"; "python/agent-intro"]))]
             ["Agents"; "Release notes"; "Agent Introduction"]
             ["agents"; "agent-changes"; "python/agent-intro"]
             "agent" (getVersionUrl "stable") 5 1 eq_refl eq_refl eq_refl)|].
  vm_compute. reflexivity.
Defined.

(** ** An index with fewer document names than titles *)

Section ShortTable.
Variables (ts ds : list string) (queryTerms : list string).
Variables (baseUrl : string) (limit : Z).
Hypothesis fewer_names : List.length ds < List.length ts.

End ShortTable.



(** ** The case of the query *)

Lemma lower_char_idem (c : ascii) : JS.lower_char (JS.lower_char c) = JS.lower_char c.
Proof.
  unfold JS.lower_char at 2. cbv zeta.
  match goal with
  | |- JS.lower_char (if ?b then _ else _) = _ => destruct b eqn:E
  end; [|unfold JS.lower_char; cbv zeta; now rewrite E].
  assert (Hn : (65 <= nat_of_ascii c /\ nat_of_ascii c <= 90)
               \/ (192 <= nat_of_ascii c /\ nat_of_ascii c <= 222)).
  { apply orb_true_iff in E. destruct E as [E|E].
    - apply andb_true_iff in E. destruct E as [E1 E2].
      apply Nat.leb_le in E1. apply Nat.leb_le in E2. lia.
    - apply andb_true_iff in E. destruct E as [E _].
      apply andb_true_iff in E. destruct E as [E1 E2].
      apply Nat.leb_le in E1. apply Nat.leb_le in E2. lia. }
  unfold JS.lower_char. cbv zeta. rewrite nat_ascii_embedding by lia.
  match goal with
  | |- (if ?b then _ else _) = _ => destruct b eqn:E'
  end; [|now rewrite E]. exfalso.
  apply orb_true_iff in E'. destruct E' as [E'|E'].
  - apply andb_true_iff in E'. destruct E' as [E1 E2].
    apply Nat.leb_le in E1. apply Nat.leb_le in E2. lia.
  - apply andb_true_iff in E'. destruct E' as [E' _].
    apply andb_true_iff in E'. destruct E' as [E1 E2].
    apply Nat.leb_le in E1. apply Nat.leb_le in E2. lia.
Qed.

Lemma toLowerCase_idem (s : string) : JS.toLowerCase (JS.toLowerCase s) = JS.toLowerCase s.
Proof.
  induction s as [|c s IH]; simpl; [reflexivity|]. now rewrite lower_char_idem, IH.
Qed.

Lemma toLowerCase_app (a b : string) :
  JS.toLowerCase (a +++ b) = JS.toLowerCase a +++ JS.toLowerCase b.
Proof. induction a as [|c a IH]; simpl; [reflexivity | now rewrite IH]. Qed.

(** X5. The search on the index and the crawler see the query through its
    lowered form only: lowering the query, or replacing it by any query with
    the same lowered form, changes neither the entries they return nor the
    pages the crawler requests. *)
Theorem X5_query_case (query : string) :
  (forall w searchData baseUrl limit,
      performIndexSearch w searchData (JS.toLowerCase query) baseUrl limit
      = performIndexSearch w searchData query baseUrl limit)
  /\ (forall w limit version log,
         fallbackSearch w (JS.toLowerCase query) limit version log
         = fallbackSearch w query limit version log)
  /\ (forall query',
         JS.toLowerCase query' = JS.toLowerCase query ->
         (forall w searchData baseUrl limit,
             performIndexSearch w searchData query' baseUrl limit
             = performIndexSearch w searchData query baseUrl limit)
         /\ (forall w limit version log,
                fallbackSearch w query' limit version log
                = fallbackSearch w query limit version log)).
Proof.
  assert (G : forall query',
             JS.toLowerCase query' = JS.toLowerCase query ->
             (forall w searchData baseUrl limit,
                 performIndexSearch w searchData query' baseUrl limit
                 = performIndexSearch w searchData query baseUrl limit)
             /\ (forall w limit version log,
                    fallbackSearch w query' limit version log
                    = fallbackSearch w query limit version log)).
  { intros query' H. split; intros.
    - unfold performIndexSearch, queryTerms_of. now rewrite H.
    - unfold fallbackSearch. now rewrite H. }
  destruct (G (JS.toLowerCase query) (toLowerCase_idem query)) as [G1 G2].
  repeat split; auto; intros; now apply G.
Qed.

(** ** The query terms *)

Lemma split_ws_chars (P : ascii -> Prop) (s : string) :
  chars_all P s ->
  Forall (chars_all (fun c => P c /\ JS.is_ws c = false)) (JS.split_ws s).
Proof.
  unfold chars_all. induction s as [|c s IH]; intros H.
  - repeat constructor.
  - simpl in H. inversion H as [|? ? Hc Hs]; subst. specialize (IH Hs).
    cbn [JS.split_ws]. destruct (JS.is_ws c) eqn:Ec.
    + destruct s as [|c' s']; [repeat constructor|].
      destruct (JS.is_ws c'); [exact IH|]. constructor; [constructor | exact IH].
    + destruct (JS.split_ws s) as [|p ps].
      * repeat constructor; auto.
      * inversion IH; subst. constructor; auto.
        simpl. constructor; auto.
Qed.

Lemma toLowerCase_chars (s : string) :
  chars_all (fun c => JS.lower_char c = c) (JS.toLowerCase s).
Proof.
  unfold chars_all. induction s as [|c s IH]; simpl; constructor; auto.
  apply lower_char_idem.
Qed.

Lemma last_char_some (s : string) : forall c,
  exists x, last_char (String c s) = Some x.
Proof.
  induction s as [|c' s IH]; intros c; [now exists c|].
  destruct (IH c') as [x Hx]. exists x. exact Hx.
Qed.

Lemma last_char_cons (c : ascii) (s : string) :
  last_char (String c s)
  = match last_char s with Some x => Some x | None => Some c end.
Proof.
  destruct s as [|c' s']; [reflexivity|].
  change (last_char (String c (String c' s'))) with (last_char (String c' s')).
  now destruct (last_char_some s' c') as [x ->].
Qed.

Lemma split_ws_cons (c : ascii) (s : string) :
  JS.split_ws (String c s)
  = if JS.is_ws c then
      match s with
      | String c' _ => if JS.is_ws c' then JS.split_ws s
                       else EmptyString :: JS.split_ws s
      | EmptyString => EmptyString :: JS.split_ws s
      end
    else
      match JS.split_ws s with
      | p :: ps => String c p :: ps
      | [] => [String c EmptyString]
      end.
Proof. reflexivity. Qed.

Lemma split_ws_head_ws (s : string) : forall c,
  JS.is_ws c = true -> exists ps, JS.split_ws (String c s) = EmptyString :: ps.
Proof.
  induction s as [|c' s IH]; intros c Hc; rewrite split_ws_cons, Hc.
  - eauto.
  - destruct (JS.is_ws c') eqn:Ec'; [|eauto].
    exact (IH c' Ec').
Qed.

(** The pieces of [split_ws]: the first piece starts the string; every other
    piece comes after a white space character; every piece is followed by a
    white space character or by the end. *)
Lemma split_ws_pieces (s : string) :
  exists p ps,
    JS.split_ws s = p :: ps
    /\ (exists after, s = p +++ after /\ word_end after = true)
    /\ (forall piece, In piece ps ->
          exists before after c,
            s = before +++ piece +++ after
            /\ last_char before = Some c /\ JS.is_ws c = true
            /\ word_end after = true).
Proof.
  induction s as [|c s IH].
  - exists EmptyString, []. split; [reflexivity|]. split; [|intros ? []].
    exists EmptyString. split; reflexivity.
  - destruct IH as [p [ps [E [[a [Ea Ha]] Ht]]]].
    assert (Tail : forall piece, In piece ps ->
              exists before after c0,
                String c s = before +++ piece +++ after
                /\ last_char before = Some c0 /\ JS.is_ws c0 = true
                /\ word_end after = true).
    { intros piece Hin. destruct (Ht piece Hin) as [b [a' [c0 [Hs [Hl [Hw He]]]]]].
      exists (String c b), a', c0. repeat split; auto.
      - simpl. now rewrite <- Hs.
      - rewrite last_char_cons. now rewrite Hl. }
    destruct (JS.is_ws c) eqn:Ec.
    + assert (Head : exists after, String c s = EmptyString +++ after
                                   /\ word_end after = true)
        by (exists (String c s); split; [reflexivity | exact Ec]).
      assert (First : exists before after c0,
                String c s = before +++ p +++ after
                /\ last_char before = Some c0 /\ JS.is_ws c0 = true
                /\ word_end after = true).
      { exists (String c EmptyString), a, c. repeat split; auto.
        simpl. now rewrite <- Ea. }
      destruct s as [|c' s'].
      * rewrite split_ws_cons, Ec. cbn [JS.split_ws] in E. injection E as <- <-.
        exists EmptyString, [EmptyString]. split; [reflexivity|]. split; [exact Head|].
        intros piece [<-|[]]. exact First.
      * destruct (JS.is_ws c') eqn:Ec'.
        -- destruct (split_ws_head_ws s' c' Ec') as [ps' E'].
           rewrite E' in E. injection E as <- <-.
           exists EmptyString, ps'. split.
           { rewrite split_ws_cons, Ec, Ec'. exact E'. }
           split; [exact Head | exact Tail].
        -- exists EmptyString, (p :: ps). split.
           { rewrite split_ws_cons, Ec, Ec'. now rewrite <- E. }
           split; [exact Head|]. intros piece [<-|Hin]; [exact First | now apply Tail].
    + exists (String c p), ps. split.
      { rewrite split_ws_cons, Ec. now rewrite E. }
      split; [|exact Tail].
      exists a. split; [simpl; now rewrite <- Ea | exact Ha].
Qed.

Lemma word_start_last (before : string) (c : ascii) :
  last_char before = Some c -> JS.is_ws c = true -> word_start before = true.
Proof. unfold word_start. now intros -> ->. Qed.

(** X6. Every query term is a non-empty word of the lowered query: the
    lowered query is [before], the term, [after], where [before] is empty or
    ends with white space and [after] is empty or starts with white space;
    the term holds no white space and no character that lowering would
    change. *)
Theorem X6_query_terms (query term : string) :
  In term (queryTerms_of query) ->
  term <> EmptyString
  /\ chars_all (fun c => JS.lower_char c = c /\ JS.is_ws c = false) term
  /\ exists before after,
       JS.toLowerCase query = before +++ term +++ after
       /\ word_start before = true /\ word_end after = true.
Proof.
  unfold queryTerms_of. intros H. apply filter_In in H. destruct H as [Hin Hne].
  split; [|split].
  - intros ->. discriminate.
  - pose proof (split_ws_chars _ _ (toLowerCase_chars query)) as F.
    rewrite Forall_forall in F. exact (F term Hin).
  - destruct (split_ws_pieces (JS.toLowerCase query))
      as [p [ps [E [[a [Ea Ha]] Ht]]]].
    rewrite E in Hin. destruct Hin as [<-|Hin].
    + exists EmptyString, a. repeat split; auto.
    + destruct (Ht term Hin) as [b [a' [c [Hs [Hl [Hw He]]]]]].
      exists b, a'. repeat split; auto. eapply word_start_last; eauto.
Qed.

(** The second term of a query with a tab and capitals. *)
Lemma X6_witness :
  "chat" <> EmptyString
  /\ chars_all (fun c => JS.lower_char c = c /\ JS.is_ws c = false) "chat"
  /\ exists before after,
       JS.toLowerCase (" Agent" +++ String "009" " CHAT ") = before +++ "chat" +++ after
       /\ word_start before = true /\ word_end after = true.
Proof.
  apply (X6_query_terms (" Agent" +++ String "009" " CHAT ") "chat").
  vm_compute. tauto.
Defined.

(** ** The requests of a run *)

(** X7. The crawler requests nothing but pages of its list, in the order of
    the list, each at most once, without skipping one: what it adds to the
    requests is the addresses of the first [k] pages, for some [k]. *)
Theorem X7_crawler_requests (w : World) (query : string) (limit : Z) (version : string)
    (log : list string) :
  exists k,
    snd (fallbackSearch w query limit version log)
    = log ++ map page_url
               (firstn k (pagesToSearch_of (isMcpQuery_of (JS.toLowerCase query))
                                           (getVersionUrl version))).
Proof. apply fallbackSearch_log. Qed.

(** X8. A run of the entry point requests the index file first, then the
    native search page at most once, then pages of the crawler's list in
    order; nothing else is requested and no request is repeated by the
    module. *)
Theorem X8_run_requests (w : World) (query : string) (limit : Z) (version : string)
    (log : list string) :
  let pages := pagesToSearch_of (isMcpQuery_of (JS.toLowerCase query))
                                (getVersionUrl version) in
  exists k,
    snd (searchAutoGenDocs w query limit version log)
    = log ++ index_url version :: map page_url (firstn k pages)
    \/ snd (searchAutoGenDocs w query limit version log)
       = log ++ index_url version :: searchUrl_of query version
                :: map page_url (firstn k pages).
Proof.
  cbv zeta.
  pose proof (index_strategy_log w query limit version log) as L1.
  unfold searchAutoGenDocs, try_catch, enhanced_search, bind.
  destruct (index_strategy w query limit version log) as [[[rs|]|e] lg];
    simpl in L1; subst lg.
  - exists 0. left. reflexivity.
  - pose proof (page_strategy_log w query limit version (log ++ [index_url version])) as L2.
    unfold later_strategies, bind.
    destruct (page_strategy w query limit version (log ++ [index_url version]))
      as [[[rs|]|e] lg]; simpl in L2; subst lg.
    + exists 0. right. simpl. now rewrite <- app_assoc.
    + destruct (fallbackSearch_log w query limit version
                  ((log ++ [index_url version]) ++ [searchUrl_of query version]))
        as [k Hk].
      destruct (fallbackSearch_returns w query limit version
                  ((log ++ [index_url version]) ++ [searchUrl_of query version]))
        as [rs [lg E]].
      rewrite E in *. simpl in *. exists k. right. rewrite Hk.
      now rewrite <- !app_assoc.
    + destruct (fallbackSearch_log w query limit version
                  ((log ++ [index_url version]) ++ [searchUrl_of query version]))
        as [k Hk].
      exists k. right. rewrite Hk. now rewrite <- !app_assoc.
  - destruct (fallbackSearch_log w query limit version (log ++ [index_url version]))
      as [k Hk].
    exists k. left. rewrite Hk. now rewrite <- app_assoc.
Qed.

(** ** A limit that is not positive *)

Lemma each_reached {A} (callback : A -> list SearchResult -> option (list SearchResult))
    (elements : list A) (results : list SearchResult) :
  (forall x, callback x results = None) ->
  each callback elements results = results.
Proof. intros H. destruct elements as [|x r]; simpl; [reflexivity | now rewrite H]. Qed.

Lemma performIndexSearch_no_room w searchData query baseUrl limit :
  (limit <= 0)%Z -> performIndexSearch w searchData query baseUrl limit = [].
Proof.
  intros Hl. unfold performIndexSearch, try_catch, bind, get_field, modify, ret, throw.
  destruct searchData; simpl; try apply slice0_nil.
  destruct (value_truthy (lookup "titles" fields)); simpl; try apply slice0_nil.
  destruct (value_truthy (lookup "docnames" fields)); simpl; try apply slice0_nil.
  assert (L : forall remaining i,
             index_loop (lookup "titles" fields) (lookup "docnames" fields)
                        (queryTerms_of query) baseUrl limit remaining i []
             = (Ret tt, [])).
  { intros [|k] i; simpl; [reflexivity|].
    unfold bind, get_store, below_limit.
    change (Z.of_nat (List.length (@nil SearchResult))) with 0%Z.
    destruct (Z.ltb_spec 0 limit); [lia | reflexivity]. }
  rewrite L. simpl. apply slice0_nil.
Qed.

Lemma crawl_no_room w queryLower limit isMcpQuery baseUrl pages log :
  (limit <= 0)%Z ->
  crawl w queryLower limit isMcpQuery baseUrl pages [] log = (Ret [], log).
Proof.
  intros Hl. destruct pages as [|page rest]; simpl; [reflexivity|].
  unfold reached_limit.
  change (Z.of_nat (List.length (@nil SearchResult))) with 0%Z.
  destruct (Z.leb_spec limit 0); [reflexivity | lia].
Qed.

Lemma fallbackSearch_no_room w query limit version log :
  (limit <= 0)%Z -> fallbackSearch w query limit version log = (Ret [], log).
Proof.
  intros Hl. unfold fallbackSearch, bind. rewrite crawl_no_room by exact Hl.
  unfold ret, uniqueResults_of. simpl. now rewrite slice0_nil.
Qed.

(** X9. With a limit that is zero or negative the run returns the empty
    sequence, and the crawler requests no page at all: the index file and
    the native search page are the only addresses that can be requested. *)
Theorem X9_no_room (w : World) (query : string) (limit : Z) (version : string)
    (log : list string) :
  (limit <= 0)%Z ->
  fst (searchAutoGenDocs w query limit version log) = Ret []
  /\ (forall log0, fallbackSearch w query limit version log0 = (Ret [], log0))
  /\ (snd (searchAutoGenDocs w query limit version log) = log ++ [index_url version]
      \/ snd (searchAutoGenDocs w query limit version log)
         = log ++ [index_url version; searchUrl_of query version]).
Proof.
  intros Hl.
  assert (FB : forall log0, fallbackSearch w query limit version log0 = (Ret [], log0))
    by (intros; now apply fallbackSearch_no_room).
  split; [|split; [exact FB|]].
  - destruct (searchAutoGenDocs_run w query limit version log) as [rs [log' [R H]]].
    rewrite R. simpl. f_equal.
    destruct H as [[sd ->]|[[doc ->]|[log0 F]]].
    + now apply performIndexSearch_no_room.
    + unfold scan_search_page. rewrite each_reached; [apply slice0_nil|].
      intros x. unfold result_link_step, reached_limit.
      change (Z.of_nat (List.length (@nil SearchResult))) with 0%Z.
      destruct (Z.leb_spec limit 0); [reflexivity | lia].
    + rewrite FB in F. now injection F as <- _.
  - pose proof (index_strategy_log w query limit version log) as L1.
    unfold searchAutoGenDocs, try_catch, enhanced_search, bind.
    destruct (index_strategy w query limit version log) as [[[rs|]|e] lg];
      simpl in L1; subst lg.
    + now left.
    + pose proof (page_strategy_log w query limit version (log ++ [index_url version])) as L2.
      unfold later_strategies, bind.
      destruct (page_strategy w query limit version (log ++ [index_url version]))
        as [[[rs|]|e] lg]; simpl in L2; subst lg; right;
        rewrite ?FB; simpl; now rewrite <- app_assoc.
    + rewrite FB. now left.
Qed.

(** Limit 0 against an index that holds a matching document. *)
Lemma X9_witness :
  fst (searchAutoGenDocs
         (index_world "stable" (table ["Agent Introduction"] ["python/agent-intro"]))
         "agent" 0 "stable" []) = Ret [].
Proof.
  apply (X9_no_room (index_world "stable"
                       (table ["Agent Introduction"] ["python/agent-intro"]))
                    "agent" 0 "stable" []).
  lia.
Defined.

(** ** MCP queries *)

Lemma crawl_mcp_base w queryLower limit baseUrl baseUrl' pages : forall results log,
  crawl w queryLower limit true baseUrl pages results log
  = crawl w queryLower limit true baseUrl' pages results log.
Proof.
  induction pages as [|page rest IH]; intros results log; simpl; [reflexivity|].
  destruct (reached_limit results limit); [reflexivity|].
  unfold bind.
  change (visit_page w queryLower limit true baseUrl' page results log)
    with (visit_page w queryLower limit true baseUrl page results log).
  destruct (visit_page w queryLower limit true baseUrl page results log) as [[rs|e] lg];
    [apply IH | reflexivity].
Qed.

(** X10. For a query classified as an MCP query the crawler ignores the
    version: it requests the same pages and returns the same entries whatever
    version is asked for. *)
Theorem X10_mcp_ignores_version (w : World) (query : string) (limit : Z)
    (version version' : string) (log : list string) :
  isMcpQuery_of (JS.toLowerCase query) = true ->
  fallbackSearch w query limit version log
  = fallbackSearch w query limit version' log.
Proof.
  intros H. unfold fallbackSearch. rewrite H. unfold pagesToSearch_of, bind.
  now rewrite (crawl_mcp_base w (JS.toLowerCase query) limit
                 (getVersionUrl version) (getVersionUrl version')).
Qed.

(** The page of the MCP list that is served is read for both versions. *)
Lemma X10_witness :
  fallbackSearch (one_page_world (mcpBaseUrl +++ "/docs/FAQ") twin_document)
                 "mcp agents" 5 "stable" []
  = fallbackSearch (one_page_world (mcpBaseUrl +++ "/docs/FAQ") twin_document)
                   "mcp agents" 5 "dev" [].
Proof.
  apply (X10_mcp_ignores_version
           (one_page_world (mcpBaseUrl +++ "/docs/FAQ") twin_document)
           "mcp agents" 5 "stable" "dev" []).
  reflexivity.
Defined.

(** X11. The classification does not depend on case or position: a query
    that holds, anywhere and in any mix of cases, one of the marker terms
    "mcp", "model context protocol" or "autogen_ext" is an MCP query and is
    searched in the MCP page list. *)
Theorem X11_mcp_markers (before marker after baseUrl : string) :
  In (JS.toLowerCase marker) mcp_markers ->
  isMcpQuery_of (JS.toLowerCase (before +++ marker +++ after)) = true
  /\ pagesToSearch_of (isMcpQuery_of (JS.toLowerCase (before +++ marker +++ after)))
                      baseUrl = mcp_pages.
Proof.
  intros H.
  assert (E : isMcpQuery_of (JS.toLowerCase (before +++ marker +++ after)) = true).
  { unfold isMcpQuery_of. rewrite !toLowerCase_app.
    destruct H as [<-|[<-|[<-|[]]]]; rewrite includes_app;
      rewrite ?orb_true_r; reflexivity. }
  split; [exact E | now rewrite E].
Qed.

Lemma X11_witness :
  isMcpQuery_of (JS.toLowerCase ("How to use " +++ "MCP" +++ " servers")) = true
  /\ pagesToSearch_of
       (isMcpQuery_of (JS.toLowerCase ("How to use " +++ "MCP" +++ " servers")))
       (getVersionUrl "stable") = mcp_pages.
Proof.
  apply (X11_mcp_markers "How to use " "MCP" " servers" (getVersionUrl "stable")).
  now left.
Defined.

(** ** What the scans push *)

(** An entry made from an element of the page: its address is the page's,
    with or without a fragment, and its category is the page's. *)
Lemma heading_step_cases queryLower limit page h rs rs' :
  heading_step queryLower limit page h rs = Some rs' ->
  reached_limit rs limit = false
  /\ (rs' = rs
      \/ exists c, rs' = rs ++ [c]
                   /\ url c = with_fragment (page_url page) (hd_id h)
                   /\ type c = page_type page).
Proof.
  unfold heading_step. destruct (reached_limit rs limit); [discriminate|].
  destruct (JS.includes _ queryLower); intros [= <-]; split; auto.
  right. eexists. split; [reflexivity|]. split; reflexivity.
Qed.

Lemma block_step_cases queryLower limit page pageTitle b rs rs' :
  block_step queryLower limit page pageTitle b rs = Some rs' ->
  reached_limit rs limit = false
  /\ (rs' = rs
      \/ exists c id, rs' = rs ++ [c]
                      /\ url c = with_fragment (page_url page) id
                      /\ type c = page_type page).
Proof.
  unfold block_step. destruct (reached_limit rs limit); [discriminate|].
  destruct (_ && _); [|intros [= <-]; auto].
  destruct (negb _); intros [= <-]; split; auto.
  right. do 2 eexists. split; [reflexivity|]. split; reflexivity.
Qed.

Lemma related_step_cases limit page term e rs rs' :
  related_step limit page term e rs = Some rs' ->
  reached_limit rs limit = false
  /\ (rs' = rs
      \/ exists c, rs' = rs ++ [c]
                   /\ url c = with_fragment (page_url page) (el_id e)
                   /\ type c = page_type page).
Proof.
  unfold related_step. destruct (reached_limit rs limit); [discriminate|].
  destruct (_ && _); [|intros [= <-]; auto].
  destruct (negb (dup_url_and_title _ _ _)); intros [= <-]; split; auto.
  right. eexists. split; [reflexivity|]. split; reflexivity.
Qed.

(** An entry made from a link: its address is the link's, made absolute. *)
Lemma link_step_cases queryLower limit page linkBase a rs rs' :
  link_step queryLower limit page linkBase a rs = Some rs' ->
  reached_limit rs limit = false
  /\ (rs' = rs
      \/ exists c, rs' = rs ++ [c]
                   /\ url c = absolutize linkBase (attr_or_empty (pl_href a))
                   /\ JS.includes (url c) DOC_DOMAIN = true
                   /\ dup_url_or_title rs (url c) (title c) = false).
Proof.
  unfold link_step. destruct (reached_limit rs limit); [discriminate|].
  destruct (_ || _ || _); [intros [= <-]; auto|].
  destruct (negb (JS.includes _ DOC_DOMAIN)) eqn:Ed; [intros [= <-]; auto|].
  apply negb_false_iff in Ed.
  destruct (_ || _); [|intros [= <-]; auto].
  destruct (dup_url_or_title _ _ _) eqn:E; intros [= <-]; split; auto.
  right. eexists. split; [reflexivity|]. split; [reflexivity|].
  split; [exact Ed | exact E].
Qed.

Lemma result_link_step_cases baseUrl limit a rs rs' :
  result_link_step baseUrl limit a rs = Some rs' ->
  reached_limit rs limit = false
  /\ (rs' = rs
      \/ exists c, rs' = rs ++ [c]
                   /\ url c = absolutize baseUrl (attr_or_empty (rl_href a))
                   /\ JS.includes (url c) DOC_DOMAIN = true).
Proof.
  unfold result_link_step. destruct (reached_limit rs limit); [discriminate|].
  destruct (_ || _); [intros [= <-]; auto|].
  destruct (negb (JS.includes _ DOC_DOMAIN)) eqn:Ed; [intros [= <-]; auto|].
  apply negb_false_iff in Ed.
  destruct (JS.match_paren _); cbv zeta;
    (destruct (_ && _); intros [= <-]; split; auto);
    right; eexists; (split; [reflexivity|]); (split; [reflexivity | exact Ed]).
Qed.

(** A scan of a page keeps a property of the accumulated array that every
    push permitted by the limit keeps. *)
Lemma scan_page_invariant (Q : list SearchResult -> Prop)
    queryLower limit page linkBase isMcpQuery doc :
  (forall rs c, Q rs -> reached_limit rs limit = false ->
                (exists id, url c = with_fragment (page_url page) id)
                \/ (exists href, url c = absolutize linkBase href) ->
                Q (rs ++ [c])) ->
  forall rs, Q rs -> Q (scan_page queryLower limit page linkBase isMcpQuery doc rs).
Proof.
  intros Hpush rs HQ. unfold scan_page.
  apply each_invariant with (Q := Q).
  { intros x r r' _ Hr Hs. apply link_step_cases in Hs.
    destruct Hs as [Hlim [->|[c [-> [Hu _]]]]]; eauto. }
  assert (H1 : Q (if JS.includes (JS.toLowerCase (doc_content doc)) queryLower
                  then each (block_step queryLower limit page
                               (JS.or_else (doc_title doc) (doc_h1 doc)))
                            (doc_blocks doc)
                            (each (heading_step queryLower limit page)
                                  (doc_headings doc) rs)
                  else rs)).
  { destruct (JS.includes _ queryLower); auto.
    apply each_invariant with (Q := Q).
    { intros x r r' _ Hr Hs. apply block_step_cases in Hs.
      destruct Hs as [Hlim [->|[c [id [-> [Hu _]]]]]]; eauto. }
    apply each_invariant with (Q := Q); [|exact HQ].
    intros x r r' _ Hr Hs. apply heading_step_cases in Hs.
    destruct Hs as [Hlim [->|[c [-> [Hu _]]]]]; eauto. }
  destruct isMcpQuery; auto.
  revert H1. generalize (if JS.includes (JS.toLowerCase (doc_content doc)) queryLower
                  then each (block_step queryLower limit page
                               (JS.or_else (doc_title doc) (doc_h1 doc)))
                            (doc_blocks doc)
                            (each (heading_step queryLower limit page)
                                  (doc_headings doc) rs)
                  else rs).
  generalize mcpRelatedTerms.
  intros terms; induction terms as [|t ts IH]; intros l Hl; simpl; auto.
  apply IH. unfold related_term_pass.
  destruct (reached_limit l limit); auto.
  destruct (JS.includes _ t); auto.
  apply each_invariant with (Q := Q); [|exact Hl].
  intros x r r' _ Hr Hs. apply related_step_cases in Hs.
  destruct Hs as [Hlim [->|[c [-> [Hu _]]]]]; eauto.
Qed.

Lemma filter_indexed_length {A} (keep : A -> nat -> bool) (l : list A) : forall n,
  List.length (filter_indexed keep n l) <= List.length l.
Proof.
  induction l as [|x l IH]; intros n; simpl; [lia|].
  destruct (keep x n); simpl; specialize (IH (S n)); lia.
Qed.

Lemma crawl_budget w queryLower limit isMcpQuery baseUrl pages :
  forall results log collected log',
  crawl w queryLower limit isMcpQuery baseUrl pages results log = (Ret collected, log') ->
  List.length results <= List.length collected
  /\ ((Z.of_nat (List.length collected) < limit)%Z ->
      log' = log ++ map page_url pages).
Proof.
  induction pages as [|page rest IH]; intros results log collected log'; simpl.
  - unfold ret. intros [= <- <-]. split; [lia|]. now rewrite app_nil_r.
  - destruct (reached_limit results limit) eqn:Hlim.
    + unfold ret. intros [= <- <-]. split; [lia|].
      unfold reached_limit in Hlim. apply Z.leb_le in Hlim. lia.
    + unfold bind.
      destruct (visit_page_run w queryLower limit isMcpQuery baseUrl page results log)
        as [results' [-> Hres]].
      intros E. destruct (IH _ _ _ _ E) as [H1 H2].
      assert (Hle : List.length results <= List.length results').
      { destruct Hres as [->|[doc ->]]; [lia|].
        apply scan_page_invariant
          with (Q := fun rs => List.length results <= List.length rs); [|lia].
        intros rs c Hrs _ _. rewrite length_app. simpl. lia. }
      split; [lia|]. intros Hlt. rewrite (H2 Hlt). simpl. now rewrite <- app_assoc.
Qed.

(** X12. The crawler pushes an entry only while fewer than [limit] entries
    are held, duplicates included: the array [collected] that its loop over
    the pages leaves is empty or held fewer than [limit] entries before the
    last push.  When it ends with fewer than [limit] entries, every page of
    the list was requested.  Duplicate addresses are removed from
    [collected] afterwards, so an entry removed as a duplicate has counted
    against the limit. *)
Theorem X12_crawler_budget (w : World) (query : string) (limit : Z) (version : string)
    (log : list string) :
  let queryLower := JS.toLowerCase query in
  let isMcpQuery := isMcpQuery_of queryLower in
  let baseUrl := getVersionUrl version in
  let pagesToSearch := pagesToSearch_of isMcpQuery baseUrl in
  exists collected log',
    crawl w queryLower limit isMcpQuery baseUrl pagesToSearch [] log
    = (Ret collected, log')
    /\ fallbackSearch w query limit version log
       = (Ret (slice0 limit (first_by_url [] collected)), log')
    /\ (collected = [] \/ (Z.of_nat (List.length collected) - 1 < limit)%Z)
    /\ ((Z.of_nat (List.length collected) < limit)%Z ->
        log' = log ++ map page_url pagesToSearch).
Proof.
  cbv zeta.
  destruct (crawl_run w (JS.toLowerCase query) limit
              (isMcpQuery_of (JS.toLowerCase query)) (getVersionUrl version)
              (fun rs => rs = [] \/ (Z.of_nat (List.length rs) - 1 < limit)%Z)
              (pagesToSearch_of (isMcpQuery_of (JS.toLowerCase query))
                                (getVersionUrl version)))
    with (results := @nil SearchResult) (log := log) as [collected [log' [E HQ]]].
  - intros page doc rs _ Hrs. apply scan_page_invariant; [|exact Hrs].
    intros rs0 c0 _ Hlim _. right. unfold reached_limit in Hlim.
    apply Z.leb_gt in Hlim. rewrite length_app. simpl. lia.
  - now left.
  - exists collected, log'. split; [exact E|]. split; [|split; [exact HQ|]].
    + unfold fallbackSearch, bind. rewrite E. unfold ret.
      now rewrite uniqueResults_first.
    + exact (proj2 (crawl_budget _ _ _ _ _ _ _ _ _ _ E)).
Qed.

(** Limit 2 and a page with the same heading twice: both slots go to the
    heading, one entry is returned and the links are never reached. *)
Lemma X12_witness :
  exists collected log',
    crawl (one_page_world user_guide_url twin_document) "agents" 2 false
          (getVersionUrl "stable") (standard_pages (getVersionUrl "stable")) [] []
    = (Ret collected, log')
    /\ fallbackSearch (one_page_world user_guide_url twin_document) "agents" 2 "stable" []
       = (Ret (slice0 2 (first_by_url [] collected)), log')
    /\ (collected = [] \/ (Z.of_nat (List.length collected) - 1 < 2)%Z)
    /\ ((Z.of_nat (List.length collected) < 2)%Z ->
        log' = [] ++ map page_url (standard_pages (getVersionUrl "stable"))).
Proof.
  exact (X12_crawler_budget (one_page_world user_guide_url twin_document)
           "agents" 2 "stable" []).
Defined.

Example crawler_budget_run :
  fst (fallbackSearch (one_page_world user_guide_url twin_document) "agents" 2 "stable" [])
  = Ret [mkResult "Agents" user_guide_url "User Guide: Agents" "User Guide"].
Proof. vm_compute. reflexivity. Qed.

(** ** More on the removal of duplicate addresses *)

Lemma existsb_eqb_In (u : string) (seen : list string) :
  existsb (String.eqb u) seen = true <-> In u seen.
Proof.
  rewrite existsb_exists. split.
  - intros [x [Hx E]]. apply String.eqb_eq in E. now subst.
  - intros H. exists u. split; [exact H | apply String.eqb_refl].
Qed.

Lemma first_by_url_urls (l : list SearchResult) : forall seen u,
  In u (map url (first_by_url seen l)) <-> In u (map url l) /\ ~ In u seen.
Proof.
  induction l as [|x l IH]; intros seen u; simpl; [tauto|].
  destruct (existsb (String.eqb (url x)) seen) eqn:E.
  - apply existsb_eqb_In in E. rewrite IH. split.
    + intros [H1 H2]. auto.
    + intros [[<-|H1] H2]; [contradiction | auto].
  - assert (Hn : ~ In (url x) seen)
      by (intros H; apply existsb_eqb_In in H; congruence).
    simpl. rewrite IH. split.
    + intros [<-|[H1 H2]]; [auto|]. split; auto.
      intros H. apply H2. apply in_or_app. now left.
    + intros [[<-|H1] H2]; [now left|].
      destruct (string_dec (url x) u) as [->|Hd]; [now left|].
      right. split; auto. intros H. apply in_app_or in H.
      destruct H as [H|[H|[]]]; auto.
Qed.

Lemma first_by_url_idem (l : list SearchResult) : forall seen,
  first_by_url seen (first_by_url seen l) = first_by_url seen l.
Proof.
  induction l as [|x l IH]; intros seen; simpl; [reflexivity|].
  destruct (existsb (String.eqb (url x)) seen) eqn:E; [apply IH|].
  simpl. rewrite E. f_equal. apply IH.
Qed.

(** X13. The removal of duplicates loses no address and is idempotent: the
    addresses of the kept entries are exactly the addresses of the collected
    ones, each once, and filtering again changes nothing. *)
Theorem X13_unique_addresses (results : list SearchResult) :
  (forall u, In u (map url (uniqueResults_of results)) <-> In u (map url results))
  /\ NoDup (map url (uniqueResults_of results))
  /\ uniqueResults_of (uniqueResults_of results) = uniqueResults_of results.
Proof.
  split; [|split].
  - intros u. rewrite uniqueResults_first, first_by_url_urls. simpl. tauto.
  - apply uniqueResults_NoDup.
  - rewrite !uniqueResults_first. apply first_by_url_idem.
Qed.

(** ** Extracting the index from the file *)

Lemma length_append (a b : string) :
  String.length (a +++ b) = String.length a + String.length b.
Proof. induction a as [|c a IH]; simpl; [reflexivity | now rewrite IH]. Qed.

Lemma substring_all (s : string) : String.substring 0 (String.length s) s = s.
Proof. induction s as [|c s IH]; simpl; [reflexivity | now rewrite IH]. Qed.

Lemma substring_skip (a b : string) (m : nat) :
  String.substring (String.length a) m (a +++ b) = String.substring 0 m b.
Proof. induction a as [|c a IH]; simpl; [reflexivity | exact IH]. Qed.

Lemma substring0_app (a b : string) : JS.substring0 (String.length a) (a +++ b) = a.
Proof. induction a as [|c a IH]; simpl; [now destruct b | now rewrite IH]. Qed.

Lemma strip_suffix_app (g suf : string) : JS.strip_suffix suf (g +++ suf) = Some g.
Proof.
  unfold JS.strip_suffix. rewrite length_append.
  replace (String.length g + String.length suf - String.length suf)
    with (String.length g) by lia.
  rewrite substring_skip, substring_all, String.eqb_refl, substring0_app.
  destruct (Nat.leb_spec (String.length suf) (String.length g + String.length suf));
    [reflexivity | lia].
Qed.

Lemma strip_suffix_semicolon (g : string) : JS.strip_suffix ")" (g +++ ");") = None.
Proof.
  unfold JS.strip_suffix. rewrite length_append. simpl String.length.
  replace (String.length g + 2 - 1) with (String.length (g +++ ")"))
    by (rewrite length_append; simpl; lia).
  change (g +++ ");") with (g +++ ")" +++ ";").
  replace (g +++ ")" +++ ";") with ((g +++ ")") +++ ";")
    by (induction g as [|c g IH]; simpl; [reflexivity | now rewrite IH]).
  rewrite substring_skip. reflexivity.
Qed.

Lemma line_rest_app (g t : string) :
  no_line_end g = true -> JS.line_rest (g +++ t) = g +++ JS.line_rest t.
Proof.
  unfold no_line_end. induction g as [|c g IH]; simpl; intros H; [reflexivity|].
  apply andb_true_iff in H. destruct H as [Hc Hg].
  apply negb_true_iff in Hc. rewrite Hc. now rewrite IH.
Qed.

Lemma append_assoc (a b c : string) : (a +++ b) +++ c = a +++ b +++ c.
Proof. induction a as [|x a IH]; simpl; [reflexivity | now rewrite IH]. Qed.

Lemma append_empty_r (a : string) : a +++ EmptyString = a.
Proof. induction a as [|x a IH]; simpl; [reflexivity | now rewrite IH]. Qed.

(** X14. A file that starts with [Search.setIndex(], goes on with a payload
    free of line breaks and closes the line with [)] or [);] gives back
    exactly the payload, whatever follows on later lines: the text handed to
    the JSON parser is the payload, without the closing parenthesis or the
    semicolon. *)
Theorem X14_setIndex_payload (payload tail : string) :
  no_line_end payload = true ->
  JS.line_rest tail = EmptyString ->
  JS.match_setIndex ("Search.setIndex(" +++ payload +++ ")" +++ tail) = Some payload
  /\ JS.match_setIndex ("Search.setIndex(" +++ payload +++ ");" +++ tail) = Some payload.
Proof.
  intros Hp Ht. split.
  - change ("Search.setIndex(" +++ payload +++ ")" +++ tail)
      with (String "S" ("earch.setIndex(" +++ payload +++ ")" +++ tail)).
    cbn [JS.match_setIndex].
    change (String "S" ("earch.setIndex(" +++ payload +++ ")" +++ tail))
      with ("Search.setIndex(" +++ payload +++ ")" +++ tail).
    rewrite (prefix_app "Search.setIndex(").
    change (JS.drop 16 ("Search.setIndex(" +++ payload +++ ")" +++ tail))
      with (payload +++ ")" +++ tail).
    rewrite line_rest_app by exact Hp.
    change (JS.line_rest (")" +++ tail)) with (String ")" (JS.line_rest tail)).
    rewrite Ht, strip_suffix_app. reflexivity.
  - change ("Search.setIndex(" +++ payload +++ ");" +++ tail)
      with (String "S" ("earch.setIndex(" +++ payload +++ ");" +++ tail)).
    cbn [JS.match_setIndex].
    change (String "S" ("earch.setIndex(" +++ payload +++ ");" +++ tail))
      with ("Search.setIndex(" +++ payload +++ ");" +++ tail).
    rewrite (prefix_app "Search.setIndex(").
    change (JS.drop 16 ("Search.setIndex(" +++ payload +++ ");" +++ tail))
      with (payload +++ ");" +++ tail).
    rewrite line_rest_app by exact Hp.
    change (JS.line_rest (");" +++ tail)) with (String ")" (String ";" (JS.line_rest tail))).
    rewrite Ht, strip_suffix_semicolon, strip_suffix_app. reflexivity.
Qed.

(** The index file as the documentation generator writes it, followed by a
    line break. *)
Lemma X14_witness :
  JS.match_setIndex ("Search.setIndex(" +++ "{}" +++ ");" +++ newline)
  = Some "{}".
Proof.
  apply (proj2 (X14_setIndex_payload "{}" newline eq_refl eq_refl)).
Defined.

(** ** Addresses that start with [http] *)

Lemma absolutize_http (base href : string) :
  JS.startsWith base "http" = true ->
  JS.startsWith (absolutize base href) "http" = true.
Proof.
  unfold absolutize, JS.startsWith. intros H.
  destruct (String.prefix "/" href); [now apply prefix_app_r|].
  destruct (String.prefix "http" href) eqn:E; simpl; [exact E | now apply prefix_app_r].
Qed.

Lemma with_fragment_http (u : string) (id : option string) :
  JS.startsWith u "http" = true -> JS.startsWith (with_fragment u id) "http" = true.
Proof.
  unfold with_fragment, JS.startsWith. intros H.
  destruct (attr_truthy id); [now apply prefix_app_r | exact H].
Qed.

Lemma page_urls_http isMcpQuery version page :
  In page (pagesToSearch_of isMcpQuery (getVersionUrl version)) ->
  JS.startsWith (page_url page) "http" = true.
Proof.
  destruct isMcpQuery; unfold pagesToSearch_of, mcp_pages, standard_pages; intros H;
    repeat (destruct H as [<-|H]; [reflexivity|]); destruct H.
Qed.

(** What a run returns, strategy by strategy. *)
Lemma searchAutoGenDocs_Forall (P : SearchResult -> Prop) w query limit version log rs :
  (forall searchData,
      Forall P (performIndexSearch w searchData query (getVersionUrl version) limit)) ->
  (forall doc, Forall P (scan_search_page (getVersionUrl version) limit doc)) ->
  (forall page doc rs0,
      In page (pagesToSearch_of (isMcpQuery_of (JS.toLowerCase query))
                                (getVersionUrl version)) ->
      Forall P rs0 ->
      Forall P (scan_page (JS.toLowerCase query) limit page
                  (if isMcpQuery_of (JS.toLowerCase query)
                   then mcpBaseUrl else getVersionUrl version)
                  (isMcpQuery_of (JS.toLowerCase query)) doc rs0)) ->
  fst (searchAutoGenDocs w query limit version log) = Ret rs ->
  Forall P rs.
Proof.
  intros Hi Hp Hc E.
  destruct (searchAutoGenDocs_run w query limit version log) as [rs' [log' [R H]]].
  rewrite R in E. simpl in E. injection E as <-.
  destruct H as [[sd ->]|[[doc ->]|[log0 F]]].
  - apply Hi.
  - apply Forall_forall. intros r Hr. apply slice0_incl in Hr. revert r Hr.
    apply Forall_forall, Hp.
  - destruct (fallbackSearch_run (Forall P) w query limit version Hc (Forall_nil P) log0)
      as [c [log'' [F' Hc']]].
    rewrite F in F'. injection F' as -> _.
    apply Forall_forall. intros r Hr. apply slice0_incl, uniqueResults_incl in Hr.
    revert r Hr. now apply Forall_forall.
Qed.

(** ** Links that leave the documentation *)

(** C8. The test that should discard the links leaving the documentation
    ([url.includes('microsoft.github.io/autogen')], under the comments "Skip
    if not an AutoGen documentation URL" and "Skip external links") looks for
    the host anywhere in the address.  A link to another host that mentions
    the documentation host in its query string passes it: both the native
    search page scan and the link scan of the crawler return the entry. *)
Theorem C8_external_link_returned :
  JS.startsWith external_url "https://example.com/" = true
  /\ JS.startsWith external_url AUTOGEN_BASE_URL = false
  /\ fst (searchAutoGenDocs (search_page_world "agent" "stable" external_results_document)
                            "agent" 5 "stable" [])
     = Ret [mkResult "Agent mirror" external_url "AutoGen documentation" ""]
  /\ fst (searchAutoGenDocs (one_page_world user_guide_url external_link_document)
                            "agent" 5 "stable" [])
     = Ret [mkResult "Agent mirror" external_url "AutoGen documentation" "User Guide"].
Proof. repeat split; vm_compute; reflexivity. Qed.

(** X22. Every entry of a returned sequence has an address that contains
    the string [microsoft.github.io/autogen] somewhere; this is all the test
    of the links checks. *)
Theorem X22_urls_contain_domain (w : World) (query : string) (limit : Z)
    (version : string) (log : list string) (rs : list SearchResult) (r : SearchResult) :
  fst (searchAutoGenDocs w query limit version log) = Ret rs ->
  In r rs ->
  JS.includes (url r) DOC_DOMAIN = true.
Proof.
  intros E Hr. apply searchAutoGenDocs_entries_ok in E.
  rewrite Forall_forall in E. now destruct (E r Hr).
Qed.

(** The address that leaves the documentation contains the string. *)
Lemma X22_witness :
  JS.includes external_url DOC_DOMAIN = true.
Proof.
  apply (X22_urls_contain_domain
           (search_page_world "agent" "stable" external_results_document)
           "agent" 5 "stable" []
           [mkResult "Agent mirror" external_url "AutoGen documentation" ""]
           (mkResult "Agent mirror" external_url "AutoGen documentation" ""));
    [vm_compute; reflexivity | now left].
Defined.

(** X15. The address of every entry of a returned sequence starts with the
    four characters [http]: it is built on the version's base or on the
    address of a crawled page, or it is the [href] of a link, which is put
    after the base unless it starts with [http] already.  An [href] that
    starts with these characters is kept as it is, a relative one like
    [https-notes/page.html] included. *)
Theorem X15_addresses_start_with_http (w : World) (query : string) (limit : Z)
    (version : string) (log : list string) (rs : list SearchResult) (r : SearchResult) :
  fst (searchAutoGenDocs w query limit version log) = Ret rs ->
  In r rs ->
  JS.startsWith (url r) "http" = true.
Proof.
  intros E. revert r. apply Forall_forall.
  apply (searchAutoGenDocs_Forall _ w query limit version log rs); [| | |exact E].
  - intros sd. apply performIndexSearch_Forall. intros t d. reflexivity.
  - intros doc. unfold scan_search_page.
    apply each_invariant with (Q := Forall (fun r => JS.startsWith (url r) "http" = true));
      [|constructor].
    intros x r0 r' _ Hr Hs. apply result_link_step_cases in Hs.
    destruct Hs as [_ [->|[c [-> [Hu _]]]]]; auto.
    apply Forall_push; auto. rewrite Hu. now apply absolutize_http.
  - intros page doc rs0 Hin Hrs. apply scan_page_invariant; [|exact Hrs].
    intros rs1 c H1 _ [[id Hu]|[href Hu]]; apply Forall_push; auto; rewrite Hu.
    + apply with_fragment_http. eapply page_urls_http; eauto.
    + apply absolutize_http. now destruct (isMcpQuery_of (JS.toLowerCase query)).
Qed.

(** The relative link of the results section comes back on the base. *)
Lemma X15_witness :
  JS.startsWith (getVersionUrl "stable" +++ "/reference/agent.html") "http" = true.
Proof.
  apply (X15_addresses_start_with_http
           (search_page_world "agent" "stable" twin_links_document)
           "agent" 1 "stable" []
           [mkResult "AssistantAgent" (getVersionUrl "stable" +++ "/reference/agent.html")
                     "AutoGen documentation" ""]
           (mkResult "AssistantAgent" (getVersionUrl "stable" +++ "/reference/agent.html")
                     "AutoGen documentation" ""));
    [vm_compute; reflexivity | now left].
Defined.

(** ** The address of the native search page *)

Lemma hex_digit_unreserved (n : nat) :
  n < 16 -> JS.uri_unreserved (JS.hex_digit n) = true.
Proof.
  intros H. do 16 (destruct n as [|n]; [reflexivity|]). lia.
Qed.

Lemma percent_safe (n : nat) :
  n < 256 ->
  chars_all (fun c => JS.uri_unreserved c = true \/ c = "%"%char) (JS.percent n).
Proof.
  intros H. unfold chars_all, JS.percent. cbn [list_ascii_of_string].
  constructor; [now right|].
  constructor; [left; apply hex_digit_unreserved, Nat.Div0.div_lt_upper_bound; lia|].
  constructor; [left; apply hex_digit_unreserved, Nat.mod_upper_bound; lia|].
  constructor.
Qed.

Lemma chars_all_app (P : ascii -> Prop) (a b : string) :
  chars_all P a -> chars_all P b -> chars_all P (a +++ b).
Proof.
  unfold chars_all. induction a as [|c a IH]; simpl; intros Ha Hb; [exact Hb|].
  inversion Ha; subst. constructor; auto.
Qed.

(** X16. The query is percent-encoded into the address of the native search
    page: after [?q=] the address holds only letters, digits, the marks
    [- _ . ! ~ * ' ( )] and [%], so no character of the query can end the
    parameter, add another one or start a fragment. *)
Theorem X16_search_address (query version : string) :
  searchUrl_of query version
  = getVersionUrl version +++ "/search.html?q=" +++ JS.encodeURIComponent query
  /\ chars_all (fun c => JS.uri_unreserved c = true \/ c = "%"%char)
               (JS.encodeURIComponent query).
Proof.
  split; [reflexivity|].
  induction query as [|c q IH]; [constructor|].
  cbn [JS.encodeURIComponent]. cbv zeta. apply chars_all_app; [|exact IH].
  pose proof (nat_ascii_bounded c) as Hb.
  destruct (JS.uri_unreserved c) eqn:E.
  - constructor; [now left | constructor].
  - destruct (nat_of_ascii c <? 128); [apply percent_safe; lia|].
    apply chars_all_app; apply percent_safe.
    + assert (nat_of_ascii c / 64 < 4)
        by (apply Nat.Div0.div_lt_upper_bound; lia). lia.
    + pose proof (Nat.mod_upper_bound (nat_of_ascii c) 64). lia.
Qed.

(** ** The module used by the server *)

Lemma content_link_step_cases query baseUrl limit a rs rs' :
  Native.content_link_step query baseUrl limit a rs = Some rs' ->
  reached_limit rs limit = false
  /\ (rs' = rs
      \/ exists c, rs' = rs ++ [c]
                   /\ url c = absolutize baseUrl (attr_or_empty (Native.cl_href a))
                   /\ JS.includes (url c) DOC_DOMAIN = true
                   /\ (JS.includes (JS.toLowerCase (title c)) (JS.toLowerCase query) = true
                       \/ JS.includes (JS.toLowerCase (url c)) (JS.toLowerCase query) = true)
                   /\ snippet c = "AutoGen documentation"
                   /\ type c = "Documentation").
Proof.
  unfold Native.content_link_step. destruct (reached_limit rs limit); [discriminate|].
  destruct (_ || _ || _); [intros [= <-]; auto|].
  destruct (JS.includes _ DOC_DOMAIN) eqn:Ed; simpl; [|intros [= <-]; auto].
  destruct (_ || _) eqn:Eq; intros [= <-]; split; auto.
  right. eexists. split; [reflexivity|]. simpl.
  apply orb_true_iff in Eq. auto.
Qed.

Lemma native_visit_page_run w queryLower limit baseUrl page results log :
  exists results',
    Native.visit_page w queryLower limit baseUrl page results log
    = (Ret results', log ++ [page_url page])
    /\ (results' = results
        \/ exists view,
             results' = Native.scan_page queryLower limit page baseUrl view results).
Proof.
  unfold Native.visit_page, try_catch, bind, Native.fetch, lift_outcome, ret.
  destruct (Native.http w log (page_url page)) as [resp|e]; [|eauto].
  destruct (ok resp); simpl; [|eauto].
  destruct (text resp) as [html|e]; [|eauto].
  destruct (Native.cheerio_load w html) as [view|e]; eauto 6.
Qed.

Lemma native_crawl_run (Q : list SearchResult -> Prop) w queryLower limit baseUrl pages :
  (forall page view rs, In page pages -> Q rs ->
      Q (Native.scan_page queryLower limit page baseUrl view rs)) ->
  forall results log, Q results ->
  exists rs log', Native.crawl w queryLower limit baseUrl pages results log
                  = (Ret rs, log') /\ Q rs.
Proof.
  induction pages as [|page rest IH]; intros Hstep results log HQ; simpl.
  - unfold ret; eauto.
  - destruct (reached_limit results limit); [unfold ret; eauto|].
    unfold bind.
    destruct (native_visit_page_run w queryLower limit baseUrl page results log)
      as [results' [-> Hres]].
    apply IH; [intros; apply Hstep; auto; now right|].
    destruct Hres as [->|[view ->]]; auto. apply Hstep; auto. now left.
Qed.

Lemma native_fallbackSearch_run (Q : list SearchResult -> Prop) w query limit version :
  (forall page view rs,
      In page (standard_pages (getVersionUrl version)) -> Q rs ->
      Q (Native.scan_page (JS.toLowerCase query) limit page (getVersionUrl version)
                          view rs)) ->
  Q [] ->
  forall log, exists collected log',
    Native.fallbackSearch w query limit version log
    = (Ret (slice0 limit (uniqueResults_of collected)), log')
    /\ Q collected.
Proof.
  intros Hstep Hnil log. unfold Native.fallbackSearch, bind.
  destruct (native_crawl_run Q w (JS.toLowerCase query) limit (getVersionUrl version)
              _ Hstep [] log Hnil) as [rs [log' [-> HQ]]].
  unfold ret. eauto.
Qed.

Lemma native_scan_page_invariant (Q : list SearchResult -> Prop)
    queryLower limit page baseUrl view :
  (forall rs c, Q rs -> reached_limit rs limit = false ->
                (exists id, url c = with_fragment (page_url page) id)
                \/ JS.includes (url c) DOC_DOMAIN = true ->
                Q (rs ++ [c])) ->
  forall rs, Q rs -> Q (Native.scan_page queryLower limit page baseUrl view rs).
Proof.
  intros Hpush rs HQ. unfold Native.scan_page.
  apply each_invariant with (Q := Q).
  { intros x r r' _ Hr Hs. apply link_step_cases in Hs.
    destruct Hs as [Hlim [->|[c [-> [_ [Hd _]]]]]]; eauto. }
  destruct (JS.includes _ queryLower); auto.
  apply each_invariant with (Q := Q); [|exact HQ].
  intros x r r' _ Hr Hs. apply heading_step_cases in Hs.
  destruct Hs as [Hlim [->|[c [-> [Hu _]]]]]; eauto.
Qed.

Lemma native_scan_search_page_invariant (Q : list SearchResult -> Prop)
    query baseUrl limit view :
  (forall rs c, Q rs -> reached_limit rs limit = false ->
                JS.includes (url c) DOC_DOMAIN = true -> Q (rs ++ [c])) ->
  Q [] -> Q (Native.scan_search_page query baseUrl limit view).
Proof.
  intros Hpush Hnil. unfold Native.scan_search_page.
  assert (H1 : Q (each (result_link_step baseUrl limit) (Native.pv_result_links view) [])).
  { apply each_invariant with (Q := Q); [|exact Hnil].
    intros x r r' _ Hr Hs. apply result_link_step_cases in Hs.
    destruct Hs as [Hlim [->|[c [-> [_ Hd]]]]]; eauto. }
  destruct (List.length _ =? 0); auto.
  apply each_invariant with (Q := Q); [|exact H1].
  intros x r r' _ Hr Hs. apply content_link_step_cases in Hs.
  destruct Hs as [Hlim [->|[c [-> [_ [Hd _]]]]]]; eauto.
Qed.

Lemma native_fallbackSearch_returns w query limit version log :
  exists rs log', Native.fallbackSearch w query limit version log = (Ret rs, log').
Proof.
  destruct (native_fallbackSearch_run (fun _ => True) w query limit version
              (fun _ _ _ _ _ => I) I log) as [c [log' [E _]]]. eauto.
Qed.

(** A run of the server's search returns, and what it returns comes from
    the native search page or from the crawler. *)
Lemma native_searchAutoGenDocs_run w query limit version log :
  exists rs log',
    Native.searchAutoGenDocs w query limit version log = (Ret rs, log')
    /\ ((exists view,
            rs = slice0 limit
                   (Native.scan_search_page query (getVersionUrl version) limit view))
        \/ (exists log0,
               Native.fallbackSearch w query limit version log0 = (Ret rs, log'))).
Proof.
  assert (FB := native_fallbackSearch_returns w query limit version).
  unfold Native.searchAutoGenDocs, try_catch, Native.native_search, bind,
    Native.fetch, lift_outcome, throw, ret.
  destruct (Native.http w log _) as [resp|e];
    [|destruct (FB (log ++ [searchUrl_of query version])) as [rs [lg E]];
      rewrite E; eauto 8].
  destruct (ok resp); simpl;
    [|destruct (FB (log ++ [searchUrl_of query version])) as [rs [lg E]];
      rewrite E; eauto 8].
  destruct (text resp) as [html|e];
    [|destruct (FB (log ++ [searchUrl_of query version])) as [rs [lg E]];
      rewrite E; eauto 8].
  destruct (Native.cheerio_load w html) as [view|e];
    [|destruct (FB (log ++ [searchUrl_of query version])) as [rs [lg E]];
      rewrite E; eauto 8].
  destruct (List.length _ =? 0); [|eauto 8].
  destruct (FB (log ++ [searchUrl_of query version])) as [rs [lg E]];
    rewrite E; eauto 8.
Qed.

Lemma standard_pages_in_domain version page :
  In page (standard_pages (getVersionUrl version)) ->
  JS.includes (page_url page) DOC_DOMAIN = true.
Proof. apply (page_urls_in_domain false version page). Qed.

(** X17. The search used by the server never throws: every run returns a
    sequence.  For a limit that is not negative the sequence has at most
    [limit] entries, and the address of every entry contains the
    documentation domain. *)
Theorem X17_server_search_returns (w : Native.World) (query : string) (limit : Z)
    (version : string) (log : list string) :
  exists rs log',
    Native.searchAutoGenDocs w query limit version log = (Ret rs, log')
    /\ ((0 <= limit)%Z -> (Z.of_nat (List.length rs) <= limit)%Z)
    /\ Forall (fun r => JS.includes (url r) DOC_DOMAIN = true) rs.
Proof.
  destruct (native_searchAutoGenDocs_run w query limit version log)
    as [rs [log' [R H]]].
  exists rs, log'. split; [exact R|].
  set (P := fun r : SearchResult => JS.includes (url r) DOC_DOMAIN = true).
  destruct H as [[view ->]|[log0 F]].
  - split; [intros; now apply slice0_length|].
    apply Forall_forall. intros r Hr. apply slice0_incl in Hr. revert r Hr.
    apply Forall_forall.
    apply (native_scan_search_page_invariant (Forall P)); [|constructor].
    intros rs0 c H0 _ Hd. now apply Forall_push.
  - destruct (native_fallbackSearch_run (Forall P) w query limit version)
      with (log := log0) as [c [log'' [F' Hc]]].
    + intros page view rs0 Hin Hrs. apply native_scan_page_invariant; [|exact Hrs].
      intros rs1 c H1 _ [[id Hu]|Hd]; apply Forall_push; auto.
      unfold P. rewrite Hu. apply with_fragment_includes.
      now apply (standard_pages_in_domain version).
    + constructor.
    + rewrite F in F'. injection F' as -> _.
      split; [intros; now apply slice0_length|].
      apply Forall_forall. intros r Hr. apply slice0_incl, uniqueResults_incl in Hr.
      revert r Hr. now apply Forall_forall.
Qed.

(** X18. When the request for the native search page fails, by a status
    that is not ok or at the transport level, the server's search returns
    what its crawler returns, the crawler starting right after that one
    request. *)
Theorem X18_server_search_unavailable (w : Native.World) (query : string) (limit : Z)
    (version : string) (log : list string) :
  unavailable (Native.http w log (searchUrl_of query version)) = true ->
  Native.searchAutoGenDocs w query limit version log
  = Native.fallbackSearch w query limit version (log ++ [searchUrl_of query version]).
Proof.
  intros H.
  unfold Native.searchAutoGenDocs, try_catch, Native.native_search, bind,
    Native.fetch, throw.
  unfold unavailable in H.
  destruct (Native.http w log _) as [resp|e]; [|reflexivity].
  destruct (ok resp); [discriminate | reflexivity].
Qed.

Lemma X18_witness :
  Native.searchAutoGenDocs native_offline "agent" 5 "stable" []
  = Native.fallbackSearch native_offline "agent" 5 "stable"
                          ([] ++ [searchUrl_of "agent" "stable"]).
Proof.
  apply (X18_server_search_unavailable native_offline "agent" 5 "stable" []).
  reflexivity.
Defined.

(** X19. On the native search page the content links are looked at only
    when the results section gives no entry.  An entry that comes from a
    content link has an address that contains the string
    [microsoft.github.io/autogen] (anywhere: the test is the substring test
    of the other module), a title or an address that contains the query
    whatever the case, the placeholder snippet and the category
    "Documentation". *)
Theorem X19_alternative_parsing (query baseUrl : string) (limit : Z)
    (view : Native.PageView) :
  let section_entries :=
    each (result_link_step baseUrl limit) (Native.pv_result_links view) [] in
  (section_entries <> [] ->
   Native.scan_search_page query baseUrl limit view = section_entries)
  /\ (section_entries = [] ->
      Forall (fun c =>
                JS.includes (url c) DOC_DOMAIN = true
                /\ (JS.includes (JS.toLowerCase (title c)) (JS.toLowerCase query) = true
                    \/ JS.includes (JS.toLowerCase (url c)) (JS.toLowerCase query) = true)
                /\ snippet c = "AutoGen documentation"
                /\ type c = "Documentation")
             (Native.scan_search_page query baseUrl limit view)).
Proof.
  cbv zeta. unfold Native.scan_search_page. split.
  - intros Hne. destruct (each _ _ _) as [|x l]; [now elim Hne | reflexivity].
  - intros ->. simpl.
    apply each_invariant with
      (Q := Forall (fun c =>
                JS.includes (url c) DOC_DOMAIN = true
                /\ (JS.includes (JS.toLowerCase (title c)) (JS.toLowerCase query) = true
                    \/ JS.includes (JS.toLowerCase (url c)) (JS.toLowerCase query) = true)
                /\ snippet c = "AutoGen documentation"
                /\ type c = "Documentation")); [|constructor].
    intros x r r' _ Hr Hs. apply content_link_step_cases in Hs.
    destruct Hs as [_ [->|[c [-> [_ H]]]]]; auto.
    apply Forall_push; auto.
Qed.

(** ** The tool of the server *)

Lemma prefix_split (t s : string) :
  String.prefix t s = true -> exists b, s = t +++ b.
Proof.
  revert s; induction t as [|c t IH]; intros s H.
  - exists s. reflexivity.
  - destruct s as [|d s]; [discriminate|]. simpl in H.
    destruct (ascii_dec c d) as [->|]; [|discriminate].
    destruct (IH s H) as [b ->]. exists b. reflexivity.
Qed.

Lemma includes_split (s t : string) :
  JS.includes s t = true -> exists a b, s = a +++ t +++ b.
Proof.
  induction s as [|c s IH]; intros H.
  - change (String.prefix t EmptyString = true) in H.
    destruct (prefix_split _ _ H) as [b Hb]. exists EmptyString, b. exact Hb.
  - rewrite includes_cons in H. apply orb_true_iff in H. destruct H as [H|H].
    + destruct (prefix_split _ _ H) as [b Hb]. exists EmptyString, b. exact Hb.
    + destruct (IH H) as [a [b ->]]. exists (String c a), b. reflexivity.
Qed.

Lemma includes_trans (s x y : string) :
  JS.includes s x = true -> JS.includes x y = true -> JS.includes s y = true.
Proof.
  intros H1 H2.
  destruct (includes_split _ _ H1) as [a [b ->]].
  destruct (includes_split _ _ H2) as [c [d ->]].
  replace (a +++ (c +++ y +++ d) +++ b) with ((a +++ c) +++ y +++ (d +++ b))
    by (rewrite !append_assoc; reflexivity).
  apply includes_app.
Qed.

Lemma includes_self (s : string) : JS.includes s s = true.
Proof.
  rewrite <- (append_empty_r s) at 1.
  apply (includes_app EmptyString s EmptyString).
Qed.

Lemma join_includes (sep : string) (l : list string) (x : string) :
  In x l -> JS.includes (join sep l) x = true.
Proof.
  induction l as [|y l IH]; intros H; [destruct H|].
  destruct H as [->|H].
  - destruct l as [|z l']; [apply includes_self|].
    cbn [join]. apply (includes_app EmptyString x).
  - destruct l as [|z l']; [destruct H|].
    cbn [join]. apply includes_app_l, includes_app_l. now apply IH.
Qed.

Lemma map_indexed_nth {A B} (f : A -> nat -> B) (l : list A) : forall n i x,
  nth_error l i = Some x -> In (f x (n + i)) (map_indexed f n l).
Proof.
  induction l as [|y l IH]; intros n [|i] x H; simpl in *; try discriminate.
  - injection H as ->. left. now rewrite Nat.add_0_r.
  - right. replace (n + S i) with (S n + i) by lia. now apply IH.
Qed.

(** X20. The tool never answers with its error flag and never throws: the
    search it calls always returns, so the handler of the [catch] is never
    reached.  It answers with the "No results found" sentence exactly when
    the search returned the empty sequence, and with the numbered list
    otherwise; it makes no request of its own. *)
Theorem X20_tool_answers (w : Native.World) (query : string) (limit : Z)
    (version : string) (log : list string) :
  exists rs log',
    Native.searchAutoGenDocs w query limit version log = (Ret rs, log')
    /\ search_autogen_docs w query limit version log
       = (Ret (mkToolResponse
                 match rs with
                 | [] => no_results_text query version
                 | _ :: _ => found_text rs query version
                 end
                 false),
          log').
Proof.
  destruct (native_searchAutoGenDocs_run w query limit version log)
    as [rs [log' [R _]]].
  exists rs, log'. split; [exact R|].
  unfold search_autogen_docs, try_catch, bind. rewrite R.
  destruct rs; reflexivity.
Qed.

(** X21. When the search returns entries, the text of the tool announces
    their number and holds, for the entry at each position, its numbered
    block, hence its title, its address and its snippet. *)
Theorem X21_tool_lists_entries (w : Native.World) (query : string) (limit : Z)
    (version : string) (log : list string) (rs : list SearchResult)
    (i : nat) (r : SearchResult) :
  fst (Native.searchAutoGenDocs w query limit version log) = Ret rs ->
  nth_error rs i = Some r ->
  exists answer,
    fst (search_autogen_docs w query limit version log)
    = Ret (mkToolResponse answer false)
    /\ JS.startsWith answer ("Found " +++ decimal (List.length rs) +++ " result(s) for ")
       = true
    /\ JS.includes answer (format_result r i) = true
    /\ JS.includes answer (decimal (i + 1) +++ ". **" +++ title r +++ "**") = true
    /\ JS.includes answer ("URL: " +++ url r +++ newline) = true
    /\ JS.includes answer (snippet r) = true.
Proof.
  intros E Hi.
  destruct (native_searchAutoGenDocs_run w query limit version log)
    as [rs' [log' [R _]]].
  rewrite R in E. simpl in E. injection E as ->.
  exists (found_text rs query version).
  assert (Hne : (List.length rs =? 0) = false)
    by (destruct rs; [destruct i; discriminate | reflexivity]).
  assert (Hblock : JS.includes (found_text rs query version) (format_result r i) = true).
  { unfold found_text. do 11 apply includes_app_l.
    apply join_includes. apply (map_indexed_nth format_result rs 0 i r Hi). }
  split; [|split; [|split; [exact Hblock|split; [|split]]]].
  - unfold search_autogen_docs, try_catch, bind. rewrite R, Hne. reflexivity.
  - unfold found_text, JS.startsWith.
    match goal with
    | |- String.prefix ?p (_ +++ _ +++ _ +++ ?tl) = true =>
        replace ("Found " +++ decimal (List.length rs) +++ " result(s) for " +++ tl)
          with (p +++ tl) by (rewrite !append_assoc; reflexivity)
    end.
    apply prefix_app.
  - eapply includes_trans; [exact Hblock|]. unfold format_result.
    rewrite <- !append_assoc. rewrite !append_assoc.
    replace (decimal (i + 1) +++ ". **" +++ title r +++ "**" +++
             (if JS.truthy (type r) then " (" +++ type r +++ ")" else "") +++
             newline +++ "   URL: " +++ url r +++ newline +++ "   " +++ snippet r +++ newline)
      with (EmptyString +++ (decimal (i + 1) +++ ". **" +++ title r +++ "**") +++
            ((if JS.truthy (type r) then " (" +++ type r +++ ")" else "") +++
             newline +++ "   URL: " +++ url r +++ newline +++ "   " +++ snippet r +++ newline))
      by (rewrite !append_assoc; reflexivity).
    apply includes_app.
  - eapply includes_trans; [exact Hblock|]. unfold format_result.
    do 6 apply includes_app_l.
    replace ("   URL: " +++ url r +++ newline +++ "   " +++ snippet r +++ newline)
      with ("   " +++ ("URL: " +++ url r +++ newline) +++ ("   " +++ snippet r +++ newline))
      by (rewrite !append_assoc; reflexivity).
    apply includes_app.
  - eapply includes_trans; [exact Hblock|]. unfold format_result.
    do 10 apply includes_app_l.
    apply (includes_app EmptyString (snippet r) newline).
Qed.

(** The result of the native search page, as the tool prints it. *)
Lemma X21_witness :
  exists answer,
    fst (search_autogen_docs (native_search_world "agent" "stable" native_results_view)
                             "agent" 5 "stable" [])
    = Ret (mkToolResponse answer false)
    /\ JS.startsWith answer ("Found " +++ decimal 1 +++ " result(s) for ") = true
    /\ JS.includes answer
         (format_result
            (mkResult "AssistantAgent" (getVersionUrl "stable" +++ "/reference/agent.html")
                      "Python class, in autogen_agentchat.agents"
                      "Python class, in autogen_agentchat.agents") 0) = true
    /\ JS.includes answer (decimal (0 + 1) +++ ". **" +++ "AssistantAgent" +++ "**") = true
    /\ JS.includes answer
         ("URL: " +++ (getVersionUrl "stable" +++ "/reference/agent.html") +++ newline) = true
    /\ JS.includes answer "Python class, in autogen_agentchat.agents" = true.
Proof.
  apply (X21_tool_lists_entries
           (native_search_world "agent" "stable" native_results_view)
           "agent" 5 "stable" []
           [mkResult "AssistantAgent" (getVersionUrl "stable" +++ "/reference/agent.html")
                     "Python class, in autogen_agentchat.agents"
                     "Python class, in autogen_agentchat.agents"]
           0
           (mkResult "AssistantAgent" (getVersionUrl "stable" +++ "/reference/agent.html")
                     "Python class, in autogen_agentchat.agents"
                     "Python class, in autogen_agentchat.agents"));
    [vm_compute; reflexivity | reflexivity].
Defined.

Example tool_run :
  fst (search_autogen_docs (native_search_world "agent" "stable" native_results_view)
                           "agent" 5 "stable" [])
  = Ret (mkToolResponse
           ("Found 1 result(s) for " +++ dquote +++ "agent" +++ dquote
            +++ " in AutoGen stable documentation:" +++ newline +++ newline
            +++ "1. **AssistantAgent** (Python class, in autogen_agentchat.agents)" +++ newline
            +++ "   URL: https://microsoft.github.io/autogen/stable/reference/agent.html"
            +++ newline
            +++ "   Python class, in autogen_agentchat.agents" +++ newline)
           false).
Proof. vm_compute. reflexivity. Qed.

Example tool_run_empty :
  fst (search_autogen_docs native_offline "agent" 5 "v0.4" [])
  = Ret (mkToolResponse
           ("No results found for " +++ dquote +++ "agent" +++ dquote
            +++ " in AutoGen v0.4 documentation.") false).
Proof. vm_compute. reflexivity. Qed.
